(** * The connection core: [AbstractBroadcastConnection]

    A shallow embedding of the class [AbstractBroadcastConnection] of
    [open-collaboration]: its fields, its synchronous methods and, for the
    [async] methods, one definition per stretch of code between two
    [await]s.  The JavaScript run time the class relies on (promises,
    timers, the event loop) and the collaborators it imports (transport,
    emitters, encryption) are part of the state, so that every interleaving
    of calls, inbound messages, timers and resumed continuations is a list
    of [Action]s. *)

From Stdlib Require Import ZArith Lia.
From stdpp Require Import gmap strings list fin_maps sorting.

(** ** Data *)

(** Parameters and results travel as opaque JSON values. *)
Abbreviation Value := string (only parsing).

(** The outcome of a call that may throw, or of a promise once settled. *)
Inductive Outcome (A : Type) : Type :=
| Ok (a : A)
| Err (error : string).
Arguments Ok {A} a.
Arguments Err {A} error.

(** What [handler(origin, ...params)] does: it returns a value (or a promise
    that fulfils with it), returns a promise that rejects, or throws. *)
Inductive HandlerResult : Type :=
| Returns (result : Value)
| Rejects (error : string)
| Throws (error : string).

(** [type Handler = (origin, ...parameters) => R | Promise<R>] *)
Abbreviation Handler := (string → list Value → HandlerResult) (only parsing).

(** Modelled from the spec: the message variants of [./messages], which is
    not part of the sources at hand; each variant takes the arguments the
    class passes to its [create]. *)
Inductive Message : Type :=
| RequestMessage (method : string) (id : Z) (origin target : string) (params : list Value)
| ResponseMessage (id : Z) (response : Value)
| ResponseErrorMessage (id : Z) (message : string)
| NotificationMessage (method origin target : string) (params : list Value)
| BroadcastMessage (method origin : string) (params : list Value)
| ErrorMessage (message : string).

Definition kind (m : Message) : string :=
  match m with
  | RequestMessage _ _ _ _ _ => "request"
  | ResponseMessage _ _ => "response"
  | ResponseErrorMessage _ _ => "response-error"
  | NotificationMessage _ _ _ _ => "notification"
  | BroadcastMessage _ _ _ => "broadcast"
  | ErrorMessage _ => "error"
  end.

Definition message_id (m : Message) : Z :=
  match m with
  | RequestMessage _ id _ _ _ | ResponseMessage id _ | ResponseErrorMessage id _ => id
  | _ => 0
  end.

Definition message_origin (m : Message) : string :=
  match m with
  | RequestMessage _ _ origin _ _ | NotificationMessage _ origin _ _
  | BroadcastMessage _ origin _ => origin
  | _ => EmptyString
  end.

Definition content_method (m : Message) : string :=
  match m with
  | RequestMessage method _ _ _ _ | NotificationMessage method _ _ _
  | BroadcastMessage method _ _ => method
  | _ => EmptyString
  end.

Definition content_params (m : Message) : list Value :=
  match m with
  | RequestMessage _ _ _ _ params | NotificationMessage _ _ _ params
  | BroadcastMessage _ _ params => params
  | _ => []
  end.

Definition content_response (m : Message) : Value :=
  match m with ResponseMessage _ response => response | _ => EmptyString end.

Definition content_message (m : Message) : string :=
  match m with
  | ResponseErrorMessage _ message | ErrorMessage message => message
  | _ => EmptyString
  end.

(** Modelled from the spec: the encrypted envelope of [./messages] and
    [./encryption], which are not part of the sources at hand.  An envelope
    carries its origin, one sealed copy of the symmetric key per recipient
    (recipient fingerprint, wrap) and the content encrypted under that
    key; [bin_sender] is the fingerprint of the sealing peer and
    [bin_intact] tells whether the content authenticates. *)
Record BinaryMessage : Type := {
  bin_origin : string;
  bin_sender : string;
  bin_keys : list (string * string);
  bin_symKey : string;
  bin_content : Message;
  bin_intact : bool
}.

(** What [Encryption.decrypt] resolves to. *)
Record Decrypted : Type := {
  origin : string;
  content : Message
}.

(** Modelled from the spec: [utils/promise]'s [Deferred], a one-shot
    completion: pending until it is resolved or rejected once. *)
Inductive DeferredState : Type :=
| Pending
| Resolved (value : Value)
| Rejected (error : string).

(** The closure [dispose] of [sendRequest]: it captures [id], [timeout] and
    [deferred]. *)
Record DisposeClosure : Type := {
  dispose_id : Z;
  dispose_timeout : nat;
  dispose_deferred : nat
}.

(** [interface RelayedRequest]; [response] is a reference into the store
    of deferreds. *)
Record RelayedRequest : Type := {
  id : Z;
  response : nat;
  request_dispose : DisposeClosure
}.

(** A timer armed by [setTimeout(dispose, 60_000)]. *)
Record Timer : Type := {
  deadline : Z;
  callback : DisposeClosure
}.

(** Modelled from the spec: [utils/event]'s [Emitter], a list of subscribers
    invoked synchronously in registration order. *)
Record Emitter : Type := {
  listeners : list nat
}.

(** The three abstract methods, answered by the subclass from the peers it
    knows at the moment of the call. *)
Record Peers : Type := {
  getPublicKey : string → Outcome string;
  getPublicKeys : list string;
  getPublicKeysLength : nat
}.

(** A suspended [async] method: the [await] it waits at and the locals
    that are live there. *)
Inductive Task : Type :=
| sendRequest_ready (type target : string) (parameters : list Value)
| sendRequest_encrypt (deferred : nat) (encryptedMessage : Outcome BinaryMessage)
| sendNotification_ready (type target : string) (parameters : list Value)
| sendNotification_encrypt (encryptedMessage : Outcome BinaryMessage)
| sendBroadcast_ready (type : string) (parameters : list Value)
| sendBroadcast_encrypt (encryptedMessage : Outcome BinaryMessage)
| handleResponse_decrypt (request : option RelayedRequest) (decrypted : Outcome Decrypted)
| handleResponseError_decrypt (request : option RelayedRequest) (decrypted : Outcome Decrypted)
| handleRequest_decrypt (decrypted : Outcome Decrypted)
| handleRequest_handler (decrypted : Decrypted) (result : Outcome Value)
| handleRequest_ready (decrypted : Decrypted) (result : Value)
| handleRequest_encrypt (decrypted : Decrypted) (encryptedResponseMessage : Outcome BinaryMessage)
| handleRequest_encryptError (encryptedResponseErrorMessage : Outcome BinaryMessage)
| handleNotification_decrypt (message : BinaryMessage) (decrypted : Outcome Decrypted)
| handleError_decrypt (decrypted : Outcome Decrypted).

(** What the connection does to the outside, in the order it does it. *)
Inductive Event : Type :=
| Write (message : BinaryMessage)
| TransportDispose
| Fired (emitter : string) (listener : nat) (payload : string)
| ConsoleError (text : string)
| Invoked (method origin : string) (params : list Value)
| Sealed (publicKey : string)
| Unsealed (sender : string)
| Threw (method : string) (error : string).

(** ** State *)

(** The fields of the class, followed by the subclass's view of the peers
    and the run time: the deferreds and timers created so far, the clock
    (milliseconds), the suspended tasks and the trace of events.  The
    field [transport] is represented by what the connection asks of it,
    the events [Write] and [TransportDispose] of the trace. *)
Record State : Type := {
  messageHandlers : gmap string Handler;
  onErrorEmitter : Emitter;
  onDisconnectEmitter : Emitter;
  onConnectionErrorEmitter : Emitter;
  requestMap : gmap Z RelayedRequest;
  requestId : Z;
  symKey : string;
  encryptionKeyCache : gmap string string;
  decryptionKeyCache : gmap string string;
  maxCacheSize : nat;
  _ready : bool;
  keys : string;
  peers : Peers;
  deferreds : list DeferredState;
  timers : list (option Timer);
  now : Z;
  tasks : list (option Task);
  trace : list Event
}.

Definition set_messageHandlers (v : gmap string Handler) (s : State) : State :=
  {| messageHandlers := v; onErrorEmitter := onErrorEmitter s; onDisconnectEmitter :=
     onDisconnectEmitter s; onConnectionErrorEmitter := onConnectionErrorEmitter s;
     requestMap := requestMap s; requestId := requestId s; symKey := symKey s;
     encryptionKeyCache := encryptionKeyCache s; decryptionKeyCache := decryptionKeyCache s;
     maxCacheSize := maxCacheSize s; _ready := _ready s; keys := keys s; peers := peers s;
     deferreds := deferreds s; timers := timers s; now := now s; tasks := tasks s; trace :=
     trace s |}.

Definition set_onErrorEmitter (v : Emitter) (s : State) : State :=
  {| messageHandlers := messageHandlers s; onErrorEmitter := v; onDisconnectEmitter :=
     onDisconnectEmitter s; onConnectionErrorEmitter := onConnectionErrorEmitter s;
     requestMap := requestMap s; requestId := requestId s; symKey := symKey s;
     encryptionKeyCache := encryptionKeyCache s; decryptionKeyCache := decryptionKeyCache s;
     maxCacheSize := maxCacheSize s; _ready := _ready s; keys := keys s; peers := peers s;
     deferreds := deferreds s; timers := timers s; now := now s; tasks := tasks s; trace :=
     trace s |}.

Definition set_onDisconnectEmitter (v : Emitter) (s : State) : State :=
  {| messageHandlers := messageHandlers s; onErrorEmitter := onErrorEmitter s;
     onDisconnectEmitter := v; onConnectionErrorEmitter := onConnectionErrorEmitter s;
     requestMap := requestMap s; requestId := requestId s; symKey := symKey s;
     encryptionKeyCache := encryptionKeyCache s; decryptionKeyCache := decryptionKeyCache s;
     maxCacheSize := maxCacheSize s; _ready := _ready s; keys := keys s; peers := peers s;
     deferreds := deferreds s; timers := timers s; now := now s; tasks := tasks s; trace :=
     trace s |}.

Definition set_onConnectionErrorEmitter (v : Emitter) (s : State) : State :=
  {| messageHandlers := messageHandlers s; onErrorEmitter := onErrorEmitter s;
     onDisconnectEmitter := onDisconnectEmitter s; onConnectionErrorEmitter := v; requestMap
     := requestMap s; requestId := requestId s; symKey := symKey s; encryptionKeyCache :=
     encryptionKeyCache s; decryptionKeyCache := decryptionKeyCache s; maxCacheSize :=
     maxCacheSize s; _ready := _ready s; keys := keys s; peers := peers s; deferreds :=
     deferreds s; timers := timers s; now := now s; tasks := tasks s; trace := trace s |}.

Definition set_requestMap (v : gmap Z RelayedRequest) (s : State) : State :=
  {| messageHandlers := messageHandlers s; onErrorEmitter := onErrorEmitter s;
     onDisconnectEmitter := onDisconnectEmitter s; onConnectionErrorEmitter :=
     onConnectionErrorEmitter s; requestMap := v; requestId := requestId s; symKey := symKey
     s; encryptionKeyCache := encryptionKeyCache s; decryptionKeyCache := decryptionKeyCache
     s; maxCacheSize := maxCacheSize s; _ready := _ready s; keys := keys s; peers := peers
     s; deferreds := deferreds s; timers := timers s; now := now s; tasks := tasks s; trace
     := trace s |}.

Definition set_requestId (v : Z) (s : State) : State :=
  {| messageHandlers := messageHandlers s; onErrorEmitter := onErrorEmitter s;
     onDisconnectEmitter := onDisconnectEmitter s; onConnectionErrorEmitter :=
     onConnectionErrorEmitter s; requestMap := requestMap s; requestId := v; symKey :=
     symKey s; encryptionKeyCache := encryptionKeyCache s; decryptionKeyCache :=
     decryptionKeyCache s; maxCacheSize := maxCacheSize s; _ready := _ready s; keys := keys
     s; peers := peers s; deferreds := deferreds s; timers := timers s; now := now s; tasks
     := tasks s; trace := trace s |}.

Definition set_encryptionKeyCache (v : gmap string string) (s : State) : State :=
  {| messageHandlers := messageHandlers s; onErrorEmitter := onErrorEmitter s;
     onDisconnectEmitter := onDisconnectEmitter s; onConnectionErrorEmitter :=
     onConnectionErrorEmitter s; requestMap := requestMap s; requestId := requestId s;
     symKey := symKey s; encryptionKeyCache := v; decryptionKeyCache := decryptionKeyCache
     s; maxCacheSize := maxCacheSize s; _ready := _ready s; keys := keys s; peers := peers
     s; deferreds := deferreds s; timers := timers s; now := now s; tasks := tasks s; trace
     := trace s |}.

Definition set_decryptionKeyCache (v : gmap string string) (s : State) : State :=
  {| messageHandlers := messageHandlers s; onErrorEmitter := onErrorEmitter s;
     onDisconnectEmitter := onDisconnectEmitter s; onConnectionErrorEmitter :=
     onConnectionErrorEmitter s; requestMap := requestMap s; requestId := requestId s;
     symKey := symKey s; encryptionKeyCache := encryptionKeyCache s; decryptionKeyCache :=
     v; maxCacheSize := maxCacheSize s; _ready := _ready s; keys := keys s; peers := peers
     s; deferreds := deferreds s; timers := timers s; now := now s; tasks := tasks s; trace
     := trace s |}.

Definition set_ready (v : bool) (s : State) : State :=
  {| messageHandlers := messageHandlers s; onErrorEmitter := onErrorEmitter s;
     onDisconnectEmitter := onDisconnectEmitter s; onConnectionErrorEmitter :=
     onConnectionErrorEmitter s; requestMap := requestMap s; requestId := requestId s;
     symKey := symKey s; encryptionKeyCache := encryptionKeyCache s; decryptionKeyCache :=
     decryptionKeyCache s; maxCacheSize := maxCacheSize s; _ready := v; keys := keys s;
     peers := peers s; deferreds := deferreds s; timers := timers s; now := now s; tasks :=
     tasks s; trace := trace s |}.

Definition set_peers (v : Peers) (s : State) : State :=
  {| messageHandlers := messageHandlers s; onErrorEmitter := onErrorEmitter s;
     onDisconnectEmitter := onDisconnectEmitter s; onConnectionErrorEmitter :=
     onConnectionErrorEmitter s; requestMap := requestMap s; requestId := requestId s;
     symKey := symKey s; encryptionKeyCache := encryptionKeyCache s; decryptionKeyCache :=
     decryptionKeyCache s; maxCacheSize := maxCacheSize s; _ready := _ready s; keys := keys
     s; peers := v; deferreds := deferreds s; timers := timers s; now := now s; tasks :=
     tasks s; trace := trace s |}.

Definition set_deferreds (v : list DeferredState) (s : State) : State :=
  {| messageHandlers := messageHandlers s; onErrorEmitter := onErrorEmitter s;
     onDisconnectEmitter := onDisconnectEmitter s; onConnectionErrorEmitter :=
     onConnectionErrorEmitter s; requestMap := requestMap s; requestId := requestId s;
     symKey := symKey s; encryptionKeyCache := encryptionKeyCache s; decryptionKeyCache :=
     decryptionKeyCache s; maxCacheSize := maxCacheSize s; _ready := _ready s; keys := keys
     s; peers := peers s; deferreds := v; timers := timers s; now := now s; tasks := tasks
     s; trace := trace s |}.

Definition set_timers (v : list (option Timer)) (s : State) : State :=
  {| messageHandlers := messageHandlers s; onErrorEmitter := onErrorEmitter s;
     onDisconnectEmitter := onDisconnectEmitter s; onConnectionErrorEmitter :=
     onConnectionErrorEmitter s; requestMap := requestMap s; requestId := requestId s;
     symKey := symKey s; encryptionKeyCache := encryptionKeyCache s; decryptionKeyCache :=
     decryptionKeyCache s; maxCacheSize := maxCacheSize s; _ready := _ready s; keys := keys
     s; peers := peers s; deferreds := deferreds s; timers := v; now := now s; tasks :=
     tasks s; trace := trace s |}.

Definition set_now (v : Z) (s : State) : State :=
  {| messageHandlers := messageHandlers s; onErrorEmitter := onErrorEmitter s;
     onDisconnectEmitter := onDisconnectEmitter s; onConnectionErrorEmitter :=
     onConnectionErrorEmitter s; requestMap := requestMap s; requestId := requestId s;
     symKey := symKey s; encryptionKeyCache := encryptionKeyCache s; decryptionKeyCache :=
     decryptionKeyCache s; maxCacheSize := maxCacheSize s; _ready := _ready s; keys := keys
     s; peers := peers s; deferreds := deferreds s; timers := timers s; now := v; tasks :=
     tasks s; trace := trace s |}.

Definition set_tasks (v : list (option Task)) (s : State) : State :=
  {| messageHandlers := messageHandlers s; onErrorEmitter := onErrorEmitter s;
     onDisconnectEmitter := onDisconnectEmitter s; onConnectionErrorEmitter :=
     onConnectionErrorEmitter s; requestMap := requestMap s; requestId := requestId s;
     symKey := symKey s; encryptionKeyCache := encryptionKeyCache s; decryptionKeyCache :=
     decryptionKeyCache s; maxCacheSize := maxCacheSize s; _ready := _ready s; keys := keys
     s; peers := peers s; deferreds := deferreds s; timers := timers s; now := now s; tasks
     := v; trace := trace s |}.

Definition set_trace (v : list Event) (s : State) : State :=
  {| messageHandlers := messageHandlers s; onErrorEmitter := onErrorEmitter s;
     onDisconnectEmitter := onDisconnectEmitter s; onConnectionErrorEmitter :=
     onConnectionErrorEmitter s; requestMap := requestMap s; requestId := requestId s;
     symKey := symKey s; encryptionKeyCache := encryptionKeyCache s; decryptionKeyCache :=
     decryptionKeyCache s; maxCacheSize := maxCacheSize s; _ready := _ready s; keys := keys
     s; peers := peers s; deferreds := deferreds s; timers := timers s; now := now s; tasks
     := tasks s; trace := v |}.

(** ** Run time: trace, deferreds, timers, emitters, transport *)

Definition emit (e : Event) (s : State) : State :=
  set_trace (trace s ++ [e]) s.

(** [console.error(text, err)] *)
Definition console_error (text : string) (s : State) : State :=
  emit (ConsoleError text) s.

(** [deferred.resolve(value)]: settles a pending deferred, otherwise nothing. *)
Definition Deferred_resolve (deferred : nat) (value : Value) (s : State) : State :=
  match deferreds s !! deferred with
  | Some Pending => set_deferreds (<[deferred := Resolved value]> (deferreds s)) s
  | _ => s
  end.

(** [deferred.reject(error)] *)
Definition Deferred_reject (deferred : nat) (error : string) (s : State) : State :=
  match deferreds s !! deferred with
  | Some Pending => set_deferreds (<[deferred := Rejected error]> (deferreds s)) s
  | _ => s
  end.

(** [clearTimeout(timeout)] *)
Definition clearTimeout (timeout : nat) (s : State) : State :=
  set_timers (<[timeout := None]> (timers s)) s.

(** [emitter.fire(payload)]: every subscriber is invoked, in order. *)
Definition Emitter_fire (name : string) (e : Emitter) (payload : string) (s : State) : State :=
  set_trace (trace s ++ map (λ l, Fired name l payload) (listeners e)) s.

(** [emitter.dispose()] clears the subscribers. *)
Definition Emitter_dispose (e : Emitter) : Emitter :=
  {| listeners := [] |}.

(** [emitter.event(listener)] *)
Definition Emitter_event (listener : nat) (e : Emitter) : Emitter :=
  {| listeners := listeners e ++ [listener] |}.

(** [private write(message)]: [this.transport.write(Encoding.encode(message))] *)
Definition write (message : BinaryMessage) (s : State) : State :=
  emit (Write message) s.

(** The messages handed to [transport.write] so far. *)
Definition written (s : State) : list BinaryMessage :=
  omap (λ e, match e with Write m => Some m | _ => None end) (trace s).

(** ** Encryption *)

(** The wrap of the symmetric key for one recipient. *)
Definition seal (symmetricKey publicKey : string) : string :=
  publicKey +:+ ":" +:+ symmetricKey.

(** One recipient of [Encryption.encrypt]: a cached wrap is reused, a
    missing one is sealed (the asymmetric operation) and cached. *)
Definition encryptSymmetricKey (s : State) (publicKey : string) : State :=
  match encryptionKeyCache s !! publicKey with
  | Some _ => s
  | None =>
      emit (Sealed publicKey)
        (set_encryptionKeyCache (<[publicKey := seal (symKey s) publicKey]> (encryptionKeyCache s)) s)
  end.

(** Modelled from the spec: [Encryption.encrypt(message, {symmetricKey:
    this.symKey, cache: this.encryptionKeyCache}, ...publicKeys)] of
    [./encryption], which is not part of the sources at hand.  The
    symmetric key is sealed once per recipient, a cache hit skips the
    asymmetric operation, and without a recipient the call fails (as the
    comment in [sendBroadcast] says).  The
    cache is the object passed at the call, so the effect on it belongs to
    the call; the [await] only delays the caller. *)
Definition encrypt (message : Message) (publicKeys : list string) (s : State)
  : Outcome BinaryMessage * State :=
  match publicKeys with
  | [] => (Err "No recipient", s)
  | _ =>
      let s' := foldl encryptSymmetricKey s publicKeys in
      (Ok {| bin_origin := message_origin message;
             bin_sender := keys s;
             bin_keys := map (λ k, (k, default (seal (symKey s) k) (encryptionKeyCache s' !! k)))
                           publicKeys;
             bin_symKey := symKey s;
             bin_content := message;
             bin_intact := true |}, s')
  end.

(** Modelled from the spec: [Encryption.decrypt(message, {privateKey:
    this.keys.privateKey, cache: this.decryptionKeyCache})].  Without a
    sealed copy for this peer the call fails; the unsealed symmetric key is
    cached under the sender's fingerprint; a content that does not
    authenticate fails. *)
Definition decrypt (message : BinaryMessage) (s : State) : Outcome Decrypted * State :=
  match list_find (λ kw, kw.1 = keys s) (bin_keys message) with
  | None => (Err "NoKeyForMe", s)
  | Some _ =>
      let s' :=
        match decryptionKeyCache s !! bin_sender message with
        | Some _ => s
        | None =>
            emit (Unsealed (bin_sender message))
              (set_decryptionKeyCache
                 (<[bin_sender message := bin_symKey message]> (decryptionKeyCache s)) s)
        end in
      if bin_intact message
      then (Ok {| origin := bin_origin message; content := bin_content message |}, s')
      else (Err "Unauthenticated", s')
  end.

(** ** The methods of the class *)

(** [dispose()] *)
Definition dispose (s : State) : State :=
  let s := Emitter_fire "onDisconnect" (onDisconnectEmitter s) EmptyString s in
  let s := set_onDisconnectEmitter (Emitter_dispose (onDisconnectEmitter s)) s in
  let s := set_onErrorEmitter (Emitter_dispose (onErrorEmitter s)) s in
  let s := set_messageHandlers ∅ s in
  emit TransportDispose s.

(** [ready()] *)
Definition ready (s : State) : State :=
  set_ready true s.

(** [cleanupCaches()] *)
Definition cleanupCaches (s : State) : State :=
  let maxSize := getPublicKeysLength (peers s) + maxCacheSize s in
  let s :=
    if decide (maxSize < size (encryptionKeyCache s))
    then set_encryptionKeyCache ∅ s else s in
  let s :=
    if decide (maxSize < size (decryptionKeyCache s))
    then set_decryptionKeyCache ∅ s else s in
  s.

(** [onRequest(type, handler)], [onNotification(type, handler)],
    [onBroadcast(type, handler)] *)
Definition onRequest (method : string) (handler : Handler) (s : State) : State :=
  set_messageHandlers (<[method := handler]> (messageHandlers s)) s.

Definition onNotification (method : string) (handler : Handler) (s : State) : State :=
  set_messageHandlers (<[method := handler]> (messageHandlers s)) s.

Definition onBroadcast (method : string) (handler : Handler) (s : State) : State :=
  set_messageHandlers (<[method := handler]> (messageHandlers s)) s.

(** ** The [async] methods

    A call runs to its first [await] and leaves a [Task]; the event loop
    later resumes the task, which runs to its next [await] or to its end.
    Each definition returns the state and the task it suspends as, if any. *)

(** [sendRequest(type, target, ...parameters)], up to
    [await this._ready.promise]. *)
Definition sendRequest (type target : string) (parameters : list Value) (s : State)
  : State * option Task :=
  (s, Some (sendRequest_ready type target parameters)).

(** The counter is a JavaScript number: [n + 1] is exact below [2^53] and
    rounds back to [n] at [2^53], the only such value it reaches from 1. *)
Definition increment (n : Z) : Z :=
  if (n <? 2 ^ 53)%Z then (n + 1)%Z else n.

(** [sendRequest] from [const id = this.requestId++] to
    [await Encryption.encrypt(...)]. *)
Definition sendRequest_resumed (type target : string) (parameters : list Value) (s : State)
  : State * option Task :=
  let id := requestId s in
  let s := set_requestId (increment (requestId s)) s in
  let deferred := length (deferreds s) in
  let s := set_deferreds (deferreds s ++ [Pending]) s in
  let timeout := length (timers s) in
  let dispose :=
    {| dispose_id := id; dispose_timeout := timeout; dispose_deferred := deferred |} in
  let s :=
    set_timers (timers s ++ [Some {| deadline := (now s + 60000)%Z; callback := dispose |}]) s in
  let relayedMessage := {| id := id; response := deferred; request_dispose := dispose |} in
  let s := set_requestMap (<[id := relayedMessage]> (requestMap s)) s in
  let message := RequestMessage type id EmptyString target parameters in
  match getPublicKey (peers s) target with
  | Err error => (emit (Threw "sendRequest" error) s, None)
  | Ok publicKey =>
      let '(encryptedMessage, s) := encrypt message [publicKey] s in
      (s, Some (sendRequest_encrypt deferred encryptedMessage))
  end.

(** [sendRequest] from [this.write(encryptedMessage)] to
    [return deferred.promise]. *)
Definition sendRequest_encrypted (deferred : nat) (encryptedMessage : Outcome BinaryMessage)
    (s : State) : State * option Task :=
  match encryptedMessage with
  | Ok encryptedMessage => (write encryptedMessage s, None)
  | Err error => (emit (Threw "sendRequest" error) s, None)
  end.

(** The closure [dispose] of [sendRequest], run by the timer. *)
Definition run_dispose (d : DisposeClosure) (s : State) : State :=
  let s := set_requestMap (delete (dispose_id d) (requestMap s)) s in
  let s := clearTimeout (dispose_timeout d) s in
  Deferred_reject (dispose_deferred d) "Request timed out" s.

(** [sendNotification(type, target, ...parameters)] *)
Definition sendNotification (type target : string) (parameters : list Value) (s : State)
  : State * option Task :=
  (s, Some (sendNotification_ready type target parameters)).

Definition sendNotification_resumed (type target : string) (parameters : list Value)
    (s : State) : State * option Task :=
  let message := NotificationMessage type EmptyString target parameters in
  match getPublicKey (peers s) target with
  | Err error => (emit (Threw "sendNotification" error) s, None)
  | Ok publicKey =>
      let '(encryptedMessage, s) := encrypt message [publicKey] s in
      (s, Some (sendNotification_encrypt encryptedMessage))
  end.

Definition sendNotification_encrypted (encryptedMessage : Outcome BinaryMessage) (s : State)
  : State * option Task :=
  match encryptedMessage with
  | Ok encryptedMessage => (write encryptedMessage s, None)
  | Err error => (emit (Threw "sendNotification" error) s, None)
  end.

(** [sendBroadcast(type, ...parameters)] *)
Definition sendBroadcast (type : string) (parameters : list Value) (s : State)
  : State * option Task :=
  (s, Some (sendBroadcast_ready type parameters)).

Definition sendBroadcast_resumed (type : string) (parameters : list Value) (s : State)
  : State * option Task :=
  let message := BroadcastMessage type EmptyString parameters in
  let publicKeys := getPublicKeys (peers s) in
  if decide (0 < length publicKeys) then
    let '(encryptedMessage, s) := encrypt message publicKeys s in
    (s, Some (sendBroadcast_encrypt encryptedMessage))
  else (s, None).

Definition sendBroadcast_encrypted (encryptedMessage : Outcome BinaryMessage) (s : State)
  : State * option Task :=
  match encryptedMessage with
  | Ok encryptedMessage => (write encryptedMessage s, None)
  | Err error => (emit (Threw "sendBroadcast" error) s, None)
  end.

(** [handleMessage(data)], up to the [await Encryption.decrypt(...)] of the
    branch taken; [data] stands for its decoding. *)
Definition handleMessage (data : BinaryMessage) (s : State) : State * option Task :=
  let s := cleanupCaches s in
  let message := data in
  match bin_content message with
  | ResponseMessage id _ =>
      let request := requestMap s !! id in
      let '(decrypted, s) := decrypt message s in
      (s, Some (handleResponse_decrypt request decrypted))
  | ResponseErrorMessage id _ =>
      let request := requestMap s !! id in
      let '(decrypted, s) := decrypt message s in
      (s, Some (handleResponseError_decrypt request decrypted))
  | RequestMessage _ _ _ _ _ =>
      let '(decrypted, s) := decrypt message s in
      (s, Some (handleRequest_decrypt decrypted))
  | BroadcastMessage _ _ _ | NotificationMessage _ _ _ _ =>
      let '(decrypted, s) := decrypt message s in
      (s, Some (handleNotification_decrypt message decrypted))
  | ErrorMessage _ =>
      let '(decrypted, s) := decrypt message s in
      (s, Some (handleError_decrypt decrypted))
  end.

(** The [Response] branch after its [await]. *)
Definition handleResponse_decrypted (request : option RelayedRequest)
    (decrypted : Outcome Decrypted) (s : State) : State * option Task :=
  match decrypted with
  | Ok decrypted =>
      match request with
      | Some request =>
          (Deferred_resolve (response request) (content_response (content decrypted)) s, None)
      | None => (s, None)
      end
  | Err err =>
      let s := console_error "Failed to handle response message" s in
      match request with
      | Some request => (Deferred_reject (response request) err s, None)
      | None => (s, None)
      end
  end.

(** The [ResponseError] branch after its [await]. *)
Definition handleResponseError_decrypted (request : option RelayedRequest)
    (decrypted : Outcome Decrypted) (s : State) : State * option Task :=
  match decrypted with
  | Ok decrypted =>
      match request with
      | Some request =>
          (Deferred_reject (response request) (content_message (content decrypted)) s, None)
      | None => (s, None)
      end
  | Err err =>
      let s := console_error "Failed to handle response error message" s in
      match request with
      | Some request => (Deferred_reject (response request) err s, None)
      | None => (s, None)
      end
  end.

(** The inner [catch (error)] of the [Request] branch, up to its
    [await Encryption.encrypt(...)]; a throw in it reaches the outer
    [catch (err)]. *)
Definition handleRequest_catch (decrypted : Decrypted) (error : string) (s : State)
  : State * option Task :=
  let responseErrorMessage := ResponseErrorMessage (message_id (content decrypted)) error in
  match getPublicKey (peers s) (origin decrypted) with
  | Err err => (console_error "Failed to handle request message" s, None)
  | Ok publicKey =>
      let '(encryptedResponseErrorMessage, s) := encrypt responseErrorMessage [publicKey] s in
      (s, Some (handleRequest_encryptError encryptedResponseErrorMessage))
  end.

(** The [Request] branch from the handler lookup to [await handler(...)]. *)
Definition handleRequest_decrypted (decrypted : Outcome Decrypted) (s : State)
  : State * option Task :=
  match decrypted with
  | Err err => (console_error "Failed to handle request message" s, None)
  | Ok decrypted =>
      let method := content_method (content decrypted) in
      match messageHandlers s !! method with
      | None =>
          (console_error
             ("No handler registered for " +:+ kind (content decrypted) +:+ " method "
                +:+ method +:+ ".") s, None)
      | Some handler =>
          let s := emit (Invoked method (origin decrypted) (content_params (content decrypted))) s in
          match handler (origin decrypted) (content_params (content decrypted)) with
          | Returns result => (s, Some (handleRequest_handler decrypted (Ok result)))
          | Rejects error => (s, Some (handleRequest_handler decrypted (Err error)))
          | Throws error => handleRequest_catch decrypted error s
          end
      end
  end.

(** From the handler's result to [await this._ready.promise]. *)
Definition handleRequest_handled (decrypted : Decrypted) (result : Outcome Value) (s : State)
  : State * option Task :=
  match result with
  | Ok result => (s, Some (handleRequest_ready decrypted result))
  | Err error => handleRequest_catch decrypted error s
  end.

(** From [ResponseMessage.create] to [await Encryption.encrypt(...)]. *)
Definition handleRequest_resumed (decrypted : Decrypted) (result : Value) (s : State)
  : State * option Task :=
  let responseMessage := ResponseMessage (message_id (content decrypted)) result in
  match getPublicKey (peers s) (origin decrypted) with
  | Err error => handleRequest_catch decrypted error s
  | Ok publicKey =>
      let '(encryptedResponseMessage, s) := encrypt responseMessage [publicKey] s in
      (s, Some (handleRequest_encrypt decrypted encryptedResponseMessage))
  end.

(** [this.write(encryptedResponseMessage)] *)
Definition handleRequest_encrypted (decrypted : Decrypted)
    (encryptedResponseMessage : Outcome BinaryMessage) (s : State) : State * option Task :=
  match encryptedResponseMessage with
  | Ok encryptedResponseMessage => (write encryptedResponseMessage s, None)
  | Err error => handleRequest_catch decrypted error s
  end.

(** [this.write(encryptedResponseErrorMessage)] *)
Definition handleRequest_encryptedError
    (encryptedResponseErrorMessage : Outcome BinaryMessage) (s : State) : State * option Task :=
  match encryptedResponseErrorMessage with
  | Ok encryptedResponseErrorMessage => (write encryptedResponseErrorMessage s, None)
  | Err err => (console_error "Failed to handle request message" s, None)
  end.

(** The [Broadcast]/[Notification] branch after its [await]. *)
Definition handleNotification_decrypted (message : BinaryMessage)
    (decrypted : Outcome Decrypted) (s : State) : State * option Task :=
  match decrypted with
  | Err err =>
      (console_error ("Failed to handle " +:+ kind (bin_content message) +:+ " message") s, None)
  | Ok decrypted =>
      let method := content_method (content decrypted) in
      match messageHandlers s !! method with
      | None =>
          (console_error
             ("No handler registered for " +:+ kind (bin_content message) +:+ " method "
                +:+ method +:+ ".") s, None)
      | Some handler =>
          let s := emit (Invoked method (bin_origin message) (content_params (content decrypted))) s in
          match handler (bin_origin message) (content_params (content decrypted)) with
          | Throws error =>
              (console_error
                 ("Failed to handle " +:+ kind (bin_content message) +:+ " message") s, None)
          | _ => (s, None)
          end
      end
  end.

(** The [Error] branch after its [await]. *)
Definition handleError_decrypted (decrypted : Outcome Decrypted) (s : State)
  : State * option Task :=
  match decrypted with
  | Ok decrypted =>
      (Emitter_fire "onError" (onErrorEmitter s) (content_message (content decrypted)) s, None)
  | Err err => (console_error "Failed to handle error message" s, None)
  end.

(** ** The event loop *)

(** A task that waits at [await this._ready.promise] resumes once [ready()]
    has run; encryption, decryption and handler promises are settled when
    the event loop gets to them. *)
Definition runnable (s : State) (t : Task) : bool :=
  match t with
  | sendRequest_ready _ _ _ | sendNotification_ready _ _ _ | sendBroadcast_ready _ _
  | handleRequest_ready _ _ => _ready s
  | _ => true
  end.

(** The code after the [await] a task is suspended at. *)
Definition continue (t : Task) (s : State) : State * option Task :=
  match t with
  | sendRequest_ready type target parameters => sendRequest_resumed type target parameters s
  | sendRequest_encrypt deferred encryptedMessage =>
      sendRequest_encrypted deferred encryptedMessage s
  | sendNotification_ready type target parameters =>
      sendNotification_resumed type target parameters s
  | sendNotification_encrypt encryptedMessage => sendNotification_encrypted encryptedMessage s
  | sendBroadcast_ready type parameters => sendBroadcast_resumed type parameters s
  | sendBroadcast_encrypt encryptedMessage => sendBroadcast_encrypted encryptedMessage s
  | handleResponse_decrypt request decrypted => handleResponse_decrypted request decrypted s
  | handleResponseError_decrypt request decrypted =>
      handleResponseError_decrypted request decrypted s
  | handleRequest_decrypt decrypted => handleRequest_decrypted decrypted s
  | handleRequest_handler decrypted result => handleRequest_handled decrypted result s
  | handleRequest_ready decrypted result => handleRequest_resumed decrypted result s
  | handleRequest_encrypt decrypted encrypted => handleRequest_encrypted decrypted encrypted s
  | handleRequest_encryptError encrypted => handleRequest_encryptedError encrypted s
  | handleNotification_decrypt message decrypted =>
      handleNotification_decrypted message decrypted s
  | handleError_decrypt decrypted => handleError_decrypted decrypted s
  end.

(** A call of an [async] method: its task, if it left one, joins the
    suspended tasks. *)
Definition call (r : State * option Task) : State :=
  match r.2 with
  | Some t => set_tasks (tasks r.1 ++ [Some t]) r.1
  | None => r.1
  end.

(** The event loop resumes task [i]; the task keeps its slot until it ends. *)
Definition resume (i : nat) (s : State) : State :=
  match tasks s !! i with
  | Some (Some t) =>
      if runnable s t then
        let r := continue t s in
        set_tasks (<[i := r.2]> (tasks r.1)) r.1
      else s
  | _ => s
  end.

(** Timer [t] runs its callback once its delay has passed. *)
Definition timeout (t : nat) (s : State) : State :=
  match timers s !! t with
  | Some (Some timer) =>
      if decide (deadline timer ≤ now s)%Z
      then run_dispose (callback timer) (set_timers (<[t := None]> (timers s)) s)
      else s
  | _ => s
  end.

(** The three callbacks the constructor registers on the transport. *)
Definition transport_read (data : BinaryMessage) (s : State) : State :=
  call (handleMessage data s).

Definition transport_onDisconnect (s : State) : State :=
  dispose s.

Definition transport_onError (message : string) (s : State) : State :=
  let s := Emitter_fire "onConnectionError" (onConnectionErrorEmitter s) message s in
  dispose s.

(** [new AbstractBroadcastConnection(keys, transport)], with the key that
    [Encryption.generateSymKey()] returned and the peers of the subclass. *)
Definition new (keys symKey : string) (peers : Peers) : State :=
  {| messageHandlers := ∅;
     onErrorEmitter := {| listeners := [] |};
     onDisconnectEmitter := {| listeners := [] |};
     onConnectionErrorEmitter := {| listeners := [] |};
     requestMap := ∅;
     requestId := 1;
     symKey := symKey;
     encryptionKeyCache := ∅;
     decryptionKeyCache := ∅;
     maxCacheSize := 50;
     _ready := false;
     keys := keys;
     peers := peers;
     deferreds := [];
     timers := [];
     now := 0;
     tasks := [];
     trace := [] |}.

(** Everything that can happen to a connection: a call of one of its
    methods, a subscription to one of its events, a callback from the
    transport, a resumed task, time passing, a timer, a change of the
    peers the subclass knows. *)
Inductive Action : Type :=
| OnRequest (method : string) (handler : Handler)
| OnNotification (method : string) (handler : Handler)
| OnBroadcast (method : string) (handler : Handler)
| OnError (listener : nat)
| OnDisconnect (listener : nat)
| OnConnectionError (listener : nat)
| SendRequest (type target : string) (parameters : list Value)
| SendNotification (type target : string) (parameters : list Value)
| SendBroadcast (type : string) (parameters : list Value)
| Ready
| Dispose
| TransportRead (data : BinaryMessage)
| TransportDisconnect
| TransportError (message : string)
| Resume (task : nat)
| Elapse (ms : N)
| Timeout (timer : nat)
| PeersChange (peers : Peers).

Definition step (s : State) (a : Action) : State :=
  match a with
  | OnRequest method handler => onRequest method handler s
  | OnNotification method handler => onNotification method handler s
  | OnBroadcast method handler => onBroadcast method handler s
  | OnError listener => set_onErrorEmitter (Emitter_event listener (onErrorEmitter s)) s
  | OnDisconnect listener =>
      set_onDisconnectEmitter (Emitter_event listener (onDisconnectEmitter s)) s
  | OnConnectionError listener =>
      set_onConnectionErrorEmitter (Emitter_event listener (onConnectionErrorEmitter s)) s
  | SendRequest type target parameters => call (sendRequest type target parameters s)
  | SendNotification type target parameters => call (sendNotification type target parameters s)
  | SendBroadcast type parameters => call (sendBroadcast type parameters s)
  | Ready => ready s
  | Dispose => dispose s
  | TransportRead data => transport_read data s
  | TransportDisconnect => transport_onDisconnect s
  | TransportError message => transport_onError message s
  | Resume task => resume task s
  | Elapse ms => set_now (now s + Z.of_N ms)%Z s
  | Timeout timer => timeout timer s
  | PeersChange peers => set_peers peers s
  end.

(** A run: the actions happen one after the other. *)
Definition run (s : State) (actions : list Action) : State :=
  foldl step s actions.

(** ** Scenarios *)

(** Alice's view of the room: she knows Bob and his public key. *)
Definition alice : Peers :=
  {| getPublicKey := λ origin, if decide (origin = "bob") then Ok "pk-bob" else Err "No public key";
     getPublicKeys := ["pk-bob"];
     getPublicKeysLength := 1 |}.

(** A handler that returns its first parameter, and one that throws. *)
Definition echo : Handler := λ origin params, Returns (default EmptyString (head params)).
Definition failing : Handler := λ origin params, Throws "Error: boom".

(** A subclass that knows the peers with the given public keys. *)
Definition room (publicKeys : list string) : Peers :=
  {| getPublicKey := λ origin,
       if decide ("pk-" +:+ origin ∈ publicKeys) then Ok ("pk-" +:+ origin)
       else Err "No public key";
     getPublicKeys := publicKeys;
     getPublicKeysLength := length publicKeys |}.

(** Messages from Bob, sealed for Alice, and a notification sealed for
    Alice by a given sender. *)
Definition request_from_bob (method : string) (id : Z) : BinaryMessage :=
  {| bin_origin := "bob"; bin_sender := "pk-bob";
     bin_keys := [("pk-alice", "pk-alice:KB")]; bin_symKey := "KB";
     bin_content := RequestMessage method id EmptyString "alice" ["hi"];
     bin_intact := true |}.

Definition response_from_bob (id : Z) (value : Value) : BinaryMessage :=
  {| bin_origin := "bob"; bin_sender := "pk-bob";
     bin_keys := [("pk-alice", "pk-alice:KB")]; bin_symKey := "KB";
     bin_content := ResponseMessage id value;
     bin_intact := true |}.

Definition notification_from (sender : string) : BinaryMessage :=
  {| bin_origin := sender; bin_sender := "pk-" +:+ sender;
     bin_keys := [("pk-alice", "pk-alice:K-" +:+ sender)];
     bin_symKey := "K-" +:+ sender;
     bin_content := NotificationMessage "note" EmptyString "alice" ["x"];
     bin_intact := true |}.

(** Alice's connection, ready, with one request to Bob written and not
    yet answered. *)
Definition alice_waiting : State :=
  run (new "pk-alice" "K" alice)
    [OnRequest "echo" echo; OnDisconnect 0; Ready;
     SendRequest "echo" "bob" ["hi"]; Resume 0; Resume 0].

(** The public keys of three peers, and of four. *)
Definition three : list string := ["pk-bob"; "pk-carol"; "pk-dave"].
Definition four : list string := three ++ ["pk-erin"].

(** Alice with three peers, after one broadcast and one notification from
    Bob; then a fourth peer joins; then Alice broadcasts again. *)
Definition host_of_three : State :=
  run (new "pk-alice" "K" (room three))
    [Ready; SendBroadcast "note" ["x"]; Resume 0; Resume 0;
     TransportRead (notification_from "bob"); Resume 1].

(** The fourth peer has joined. *)
Definition host_of_four : State :=
  step host_of_three (PeersChange (room four)).

(** The broadcast after the change, written. *)
Definition after_next_broadcast : State :=
  run host_of_four [SendBroadcast "note" ["y"]; Resume 2; Resume 2].

(** One inbound message after the other, each handled to its end before
    the next arrives; [first] is the slot the first task takes. *)
Fixpoint receive_each (first : nat) (messages : list BinaryMessage) : list Action :=
  match messages with
  | [] => []
  | m :: messages => TransportRead m :: Resume first :: receive_each (S first) messages
  end.

(** [n] senders with [n] different keys. *)
Definition strangers (n : nat) : list string :=
  map (λ i, String (Ascii.ascii_of_nat (48 + i)) EmptyString) (seq 0 n).

(** Alice, who knows one peer, after 52 notifications sealed by 52
    different keys. *)
Definition flooded : State :=
  run (new "pk-alice" "K" alice) (receive_each 0 (map notification_from (strangers 52))).

(** Alice with 51 peers after one broadcast to them, and after they have
    all left and she has tried another broadcast. *)
Definition crowded : State :=
  run (new "pk-alice" "K" (room (map (λ n, "pk-" +:+ n) (strangers 51))))
    [Ready; SendBroadcast "note" ["x"]; Resume 0; Resume 0].

(** The peers have left; a further broadcast finds nobody. *)
Definition deserted : State :=
  run crowded [PeersChange (room []); SendBroadcast "note" ["y"]; Resume 1].

(** Three callers at once: the calls are made before any of them gets
    past [await this._ready.promise], and the event loop resumes them in
    another order than they were called. *)
Definition three_callers : list Action :=
  [SendRequest "a" "bob" []; SendRequest "b" "bob" []; Ready; SendRequest "c" "bob" [];
   Resume 2; Resume 0; Resume 2; Resume 1; Resume 0; Resume 1].

(** Alice's connection before [ready()], with a handler that throws, after
    a request from Bob has arrived and its task has run to its end. *)
Definition answered_before_ready : State :=
  run (new "pk-alice" "K" alice)
    [OnRequest "echo" failing; TransportRead (request_from_bob "echo" 7);
     Resume 0; Resume 0].

(** The same with a handler that returns: the task waits for [ready()]. *)
Definition withheld_before_ready : State :=
  run (new "pk-alice" "K" alice)
    [OnRequest "echo" echo; TransportRead (request_from_bob "echo" 7);
     Resume 0; Resume 0; Resume 0].

(** ** Predicates of the statements *)

(** The three ways to register a handler. *)
Inductive Registration : Type := ViaRequest | ViaNotification | ViaBroadcast.

(** The method of the class for each of them. *)
Definition register (r : Registration) : string → Handler → State → State :=
  match r with
  | ViaRequest => onRequest
  | ViaNotification => onNotification
  | ViaBroadcast => onBroadcast
  end.

(** The events of the asymmetric operations. *)
Definition is_seal (e : Event) : Prop :=
  match e with Sealed _ | Unsealed _ => True | _ => False end.

(** The outcome of the encryption a task awaits, if it awaits one. *)
Definition awaited_encryption (t : Task) : option (Outcome BinaryMessage) :=
  match t with
  | sendRequest_encrypt _ o | sendNotification_encrypt o | sendBroadcast_encrypt o
  | handleRequest_encrypt _ o | handleRequest_encryptError o => Some o
  | _ => None
  end.

(** A task that awaits an encryption awaits a message with at least one
    sealed key copy, not the failure for want of a recipient. *)
Definition encryption_succeeded (t : option Task) : Prop :=
  match t ≫= awaited_encryption with
  | Some (Ok m) => bin_keys m ≠ []
  | Some (Err _) => False
  | None => True
  end.

(** The message carries at least one sealed key copy. *)
Definition has_recipient (m : BinaryMessage) : Prop := bin_keys m ≠ [].

(** What holds of the written messages and of the awaited encryptions in
    every state a connection reaches. *)
Definition recipients_invariant (s : State) : Prop :=
  Forall has_recipient (written s) ∧ Forall encryption_succeeded (tasks s).

(** The envelope of a response error. *)
Definition is_response_error (m : BinaryMessage) : Prop :=
  match bin_content m with ResponseErrorMessage _ _ => True | _ => False end.

(** Before [ready()], no task has got past a barrier: none awaits the
    encryption of a request, a notification, a broadcast or a response,
    and an encryption awaited in the [catch] block is that of a response
    error. *)
Definition behind_barrier (t : option Task) : Prop :=
  match t with
  | Some (sendRequest_encrypt _ _) | Some (sendNotification_encrypt _)
  | Some (sendBroadcast_encrypt _) | Some (handleRequest_encrypt _ _) => False
  | Some (handleRequest_encryptError (Ok m)) => is_response_error m
  | _ => True
  end.

(** What holds as long as [ready()] has not been called. *)
Definition barrier_invariant (s : State) : Prop :=
  _ready s = false
  ∧ Forall is_response_error (written s)
  ∧ Forall behind_barrier (tasks s).

(** The id an action allocates: the event loop resumes a [sendRequest]
    that waited for [ready], which then runs [const id = this.requestId++]. *)
Definition allocates (s : State) (a : Action) : option Z :=
  match a with
  | Resume i =>
      match tasks s !! i with
      | Some (Some (sendRequest_ready _ _ _)) => if _ready s then Some (requestId s) else None
      | _ => None
      end
  | _ => None
  end.

(** The ids a run allocates, in the order of their allocation. *)
Fixpoint allocated (s : State) (actions : list Action) : list Z :=
  match actions with
  | [] => []
  | a :: actions => option_list (allocates s a) ++ allocated (step s a) actions
  end.

(** A response or a response error. *)
Definition is_response (m : Message) : Prop :=
  match m with
  | ResponseMessage _ _ | ResponseErrorMessage _ _ => True
  | _ => False
  end.

#[global] Instance is_response_dec (m : Message) : Decision (is_response m).
Proof. destruct m; apply _. Defined.

(** What a response or response error settles a deferred to. *)
Definition settles (m : Message) : DeferredState :=
  match m with
  | ResponseMessage _ response => Resolved response
  | ResponseErrorMessage _ message => Rejected message
  | _ => Pending
  end.

(** The request a task holds: the one the response branches looked up
    before their [await]. *)
Definition task_request (t : option Task) : option RelayedRequest :=
  match t with
  | Some (handleResponse_decrypt request _) | Some (handleResponseError_decrypt request _) =>
      request
  | _ => None
  end.

(** What one action does to the deferreds, the timers and the request
    map: nothing; or a [sendRequest] registers its request; or the task of
    a response settles the deferred of the request it holds; or a timer
    runs its [dispose]. *)
Inductive RequestEffect (s : State) (a : Action) (s' : State) : Prop :=
| effect_none :
    deferreds s' = deferreds s → timers s' = timers s → requestMap s' = requestMap s →
    RequestEffect s a s'
| effect_register (i : nat) (type target : string) (parameters : list Value) :
    a = Resume i →
    tasks s !! i = Some (Some (sendRequest_ready type target parameters)) →
    _ready s = true →
    deferreds s' = deferreds s ++ [Pending] →
    timers s'
    = timers s ++ [Some {| deadline := now s + 60000;
                           callback := {| dispose_id := requestId s;
                                          dispose_timeout := length (timers s);
                                          dispose_deferred := length (deferreds s) |} |}] →
    requestMap s'
    = <[requestId s := {| id := requestId s; response := length (deferreds s);
                          request_dispose := {| dispose_id := requestId s;
                                                dispose_timeout := length (timers s);
                                                dispose_deferred := length (deferreds s) |} |}]>
        (requestMap s) →
    RequestEffect s a s'
| effect_settle (i : nat) (t : Task) (request : RelayedRequest) (settled : DeferredState) :
    a = Resume i →
    tasks s !! i = Some (Some t) →
    task_request (Some t) = Some request →
    deferreds s !! response request = Some Pending →
    deferreds s' = <[response request := settled]> (deferreds s) →
    timers s' = timers s → requestMap s' = requestMap s →
    RequestEffect s a s'
| effect_timeout (t : nat) (timer : Timer) :
    a = Timeout t →
    timers s !! t = Some (Some timer) →
    (deadline timer ≤ now s)%Z →
    deferreds s'
    = match deferreds s !! dispose_deferred (callback timer) with
      | Some Pending =>
          <[dispose_deferred (callback timer) := Rejected "Request timed out"]> (deferreds s)
      | _ => deferreds s
      end →
    timers s' = <[dispose_timeout (callback timer) := None]> (<[t := None]> (timers s)) →
    requestMap s' = delete (dispose_id (callback timer)) (requestMap s) →
    RequestEffect s a s'.

(** Every armed timer clears itself, and every deferred a timer, an entry
    of the request map or a task refers to exists. *)
Definition wellformed (s : State) : Prop :=
  (∀ t timer, timers s !! t = Some (Some timer) →
     dispose_timeout (callback timer) = t
     ∧ dispose_deferred (callback timer) < length (deferreds s))
  ∧ (∀ id request, requestMap s !! id = Some request →
       response request < length (deferreds s))
  ∧ (∀ j t request, tasks s !! j = Some t → task_request t = Some request →
       response request < length (deferreds s)).

(** An action that is neither the arrival of a response or response error
    for [id] nor the firing of timer [t]. *)
Definition quiet (id : Z) (t : nat) (a : Action) : Prop :=
  match a with
  | TransportRead data => is_response (bin_content data) → message_id (bin_content data) ≠ id
  | Timeout t' => t' ≠ t
  | _ => True
  end.

(** The request with deferred [d] and timer [t] is under way: the timer is
    armed, the deferred pending, and besides that timer only the entry
    under [id] refers to the deferred. *)
Definition awaiting (id : Z) (d t : nat) (timer : Timer) (s : State) : Prop :=
  timers s !! t = Some (Some timer)
  ∧ deferreds s !! d = Some Pending
  ∧ (∀ t' timer', timers s !! t' = Some (Some timer') →
       dispose_timeout (callback timer') = t'
       ∧ (t' ≠ t → dispose_deferred (callback timer') ≠ d))
  ∧ (∀ id' request, requestMap s !! id' = Some request → response request = d → id' = id)
  ∧ (∀ j t' request, tasks s !! j = Some t' → task_request t' = Some request →
       response request ≠ d).

(** While the counter counts exactly, the ids of the armed timers lie
    below it. *)
Definition ids_below_counter (s : State) : Prop :=
  (requestId s < 2 ^ 53)%Z →
  ∀ t timer, timers s !! t = Some (Some timer) →
    (dispose_id (callback timer) < requestId s)%Z.

(** The request registered under [id] with timer [t] is in place: the
    timer is armed, the entry is in the request map, and no other armed
    timer would remove it. *)
Definition registered (id : Z) (t : nat) (timer : Timer) (request : RelayedRequest)
    (s : State) : Prop :=
  timers s !! t = Some (Some timer)
  ∧ requestMap s !! id = Some request
  ∧ (id < requestId s)%Z
  ∧ (∀ t' timer', timers s !! t' = Some (Some timer') →
       dispose_timeout (callback timer') = t'
       ∧ (t' ≠ t → dispose_id (callback timer') ≠ id)).

(** ** One task from its start to its end *)

(** Task [t] resumed [n] times in a row: each time it runs to its next
    [await], unless it waits for [ready()] or has ended. *)
Fixpoint resumes (n : nat) (t : option Task) (s : State) : State * option Task :=
  match n, t with
  | S n, Some t' =>
      if runnable s t' then resumes n (continue t' s).2 (continue t' s).1 else (s, t)
  | _, _ => (s, t)
  end.

(** The task [handleMessage(data)] suspends as: the branch of the kind of
    [data], with the request looked up before the [await] and the outcome
    of the decryption it awaits. *)
Definition arrival (data : BinaryMessage) (request : option RelayedRequest)
    (decrypted : Outcome Decrypted) : Task :=
  match bin_content data with
  | ResponseMessage _ _ => handleResponse_decrypt request decrypted
  | ResponseErrorMessage _ _ => handleResponseError_decrypt request decrypted
  | RequestMessage _ _ _ _ _ => handleRequest_decrypt decrypted
  | BroadcastMessage _ _ _ | NotificationMessage _ _ _ _ =>
      handleNotification_decrypt data decrypted
  | ErrorMessage _ => handleError_decrypt decrypted
  end.

(** ** Further scenarios and predicates *)

(** A notification or a broadcast: the two kinds that share a branch of
    [handleMessage]. *)
Definition is_notification (m : Message) : Prop :=
  match m with
  | NotificationMessage _ _ _ _ | BroadcastMessage _ _ _ => True
  | _ => False
  end.

(** The events nobody outside the connection sees: the asymmetric
    operations and the lines of the log. *)
Definition is_internal (e : Event) : Prop :=
  match e with
  | Sealed _ | Unsealed _ | ConsoleError _ => True
  | _ => False
  end.

(** A response from Bob whose content does not authenticate. *)
Definition forged_response (id : Z) (value : Value) : BinaryMessage :=
  {| bin_origin := "bob"; bin_sender := "pk-bob";
     bin_keys := [("pk-alice", "pk-alice:KB")]; bin_symKey := "KB";
     bin_content := ResponseMessage id value;
     bin_intact := false |}.

(** An error message from Bob, sealed for Alice. *)
Definition error_from_bob (message : string) : BinaryMessage :=
  {| bin_origin := "bob"; bin_sender := "pk-bob";
     bin_keys := [("pk-alice", "pk-alice:KB")]; bin_symKey := "KB";
     bin_content := ErrorMessage message;
     bin_intact := true |}.

(** An action that registers or clears handlers: one of the three
    registrations, or a [dispose()], called or caused by the transport. *)
Definition touches_handlers (a : Action) : Prop :=
  match a with
  | OnRequest _ _ | OnNotification _ _ | OnBroadcast _ _
  | Dispose | TransportDisconnect | TransportError _ => True
  | _ => False
  end.

(** The counter has counted the requests: every [sendRequest] that got
    past [ready] created one deferred and one timer and moved the counter
    by one, up to [2^53] where the counter stays. *)
Definition counter_invariant (s : State) : Prop :=
  length (timers s) = length (deferreds s)
  ∧ requestId s = Z.min (1 + Z.of_nat (length (deferreds s))) (2 ^ 53).

(** Every entry of the request map is filed under its own id and holds
    its own [dispose], whose timer is armed and due within a minute; every
    armed timer clears itself. *)
Definition entries_invariant (s : State) : Prop :=
  (∀ t timer, timers s !! t = Some (Some timer) →
     dispose_timeout (callback timer) = t ∧ (deadline timer ≤ now s + 60000)%Z)
  ∧ (∀ k request, requestMap s !! k = Some request →
       id request = k
       ∧ dispose_id (request_dispose request) = k
       ∧ dispose_deferred (request_dispose request) = response request
       ∧ ∃ timer,
           timers s !! dispose_timeout (request_dispose request) = Some (Some timer)
           ∧ callback timer = request_dispose request).

(** Before [ready()]: no request has been registered, and no task holds
    one. *)
Definition unregistered_invariant (s : State) : Prop :=
  _ready s = false
  ∧ requestId s = 1%Z
  ∧ requestMap s = ∅
  ∧ deferreds s = []
  ∧ timers s = []
  ∧ (∀ j t, tasks s !! j = Some t → task_request t = None).

(** The public keys a send is encrypted for, with the peers the subclass
    knows when the send gets past [ready]: all of them for a broadcast, the
    key of the target for a request or a notification. *)
Definition recipients (peers : Peers) (a : Action) : option (list string) :=
  match a with
  | SendBroadcast _ _ => Some (getPublicKeys peers)
  | SendRequest _ target _ | SendNotification _ target _ =>
      match getPublicKey peers target with
      | Ok publicKey => Some [publicKey]
      | Err _ => None
      end
  | _ => None
  end.

(** The id under which an action files a request, read off what the
    action does: it arms a timer, and the [dispose] of that timer holds
    the id, the one it will delete from the request map. *)
Definition files (s : State) (a : Action) : option Z :=
  let s' := step s a in
  if decide (length (timers s) < length (timers s')) then
    match last (timers s') with
    | Some (Some timer) => Some (dispose_id (callback timer))
    | _ => None
    end
  else None.

(** The ids a run files requests under, in the order it files them. *)
Fixpoint filed (s : State) (actions : list Action) : list Z :=
  match actions with
  | [] => []
  | a :: actions => option_list (files s a) ++ filed (step s a) actions
  end.

(** The id a message carries as a request. *)
Definition request_id (m : BinaryMessage) : option Z :=
  match bin_content m with
  | RequestMessage _ id _ _ _ => Some id
  | _ => None
  end.

(** The ids of the requests handed to [transport.write] so far. *)
Definition wire_ids (s : State) : list Z :=
  omap request_id (written s).

(** The id of the request a suspended [sendRequest] is about to write. *)
Definition pending_id (t : option Task) : option Z :=
  match t with
  | Some (sendRequest_encrypt _ (Ok m)) => request_id m
  | _ => None
  end.

(** No other task is about to write a request. *)
Definition no_request (t : option Task) : Prop :=
  match t with
  | Some (sendNotification_encrypt (Ok m)) | Some (sendBroadcast_encrypt (Ok m))
  | Some (handleRequest_encrypt _ (Ok m)) | Some (handleRequest_encryptError (Ok m)) =>
      request_id m = None
  | _ => True
  end.

(** The ids of the requests written and about to be written differ from
    one another and lie below the counter. *)
Definition wire_invariant (s : State) : Prop :=
  NoDup (wire_ids s ++ omap pending_id (tasks s))
  ∧ Forall (λ id, id < requestId s)%Z (wire_ids s ++ omap pending_id (tasks s))
  ∧ Forall no_request (tasks s).

(** ** The editor side: the paths of [CollaborationInstance]

    The instance of the editor extension names a file to its peers by a
    protocol path, the name of a workspace folder followed by the path of
    the file below it, and resolves such a path back to a resource of the
    workspace.  Strings are sequences of code units; the two functions
    cut and compare them and look at no unit but [/]. *)

(** The characters [/] and [\], by their codes. *)
Definition slash : Ascii.ascii := Ascii.ascii_of_nat 47.
Definition backslash : Ascii.ascii := Ascii.ascii_of_nat 92.

(** [s.startsWith(searchString)] *)
Definition startsWith (s searchString : string) : bool :=
  String.prefix searchString s.

(** [s.substring(start)] *)
Fixpoint substring (start : nat) (s : string) : string :=
  match start, s with
  | 0, _ => s
  | S start, String _ s => substring start s
  | S _, EmptyString => EmptyString
  end.

(** [s.split(separator)], for a separator of one character: the pieces
    between the separators, at least one. *)
Fixpoint String_split (separator : Ascii.ascii) (s : string) : list string :=
  match s with
  | EmptyString => [EmptyString]
  | String c s =>
      if Ascii.eqb c separator then EmptyString :: String_split separator s
      else match String_split separator s with
           | piece :: pieces => String c piece :: pieces
           | [] => [String c EmptyString]
           end
  end.

(** [s.replaceAll(pattern, replacement)], for one character each. *)
Fixpoint replaceAll (pattern replacement : Ascii.ascii) (s : string) : string :=
  match s with
  | EmptyString => EmptyString
  | String c s =>
      String (if Ascii.eqb c pattern then replacement else c)
        (replaceAll pattern replacement s)
  end.

(** [s.includes(c)] *)
Fixpoint includes (c : Ascii.ascii) (s : string) : bool :=
  match s with
  | EmptyString => false
  | String c' s => Ascii.eqb c' c || includes c s
  end.

(** [vscode.Uri], by its components. *)
Record Uri : Type := {
  scheme : string;
  authority : string;
  path : string;
  query : string;
  fragment : string
}.

(** [uri.with({ path })] *)
Definition Uri_with (resource : Uri) (path' : string) : Uri :=
  {| scheme := scheme resource; authority := authority resource; path := path';
     query := query resource; fragment := fragment resource |}.

(** [vscode.WorkspaceFolder] *)
Record WorkspaceFolder : Type := {
  uri : Uri;
  name : string
}.

Section Workspace.

(** [paths.join] of Node, which the class imports, and
    [vscode.workspace.workspaceFolders], which is [undefined] without an
    open workspace. *)
Variable join : string → list string → string.
Variable workspaceFolders : option (list WorkspaceFolder).

(** The loop [for (const root of roots)] of [getProtocolPath]. *)
Fixpoint getProtocolPath_roots (path' : string) (roots : list WorkspaceFolder)
  : option string :=
  match roots with
  | [] => None
  | root :: roots =>
      let rootUri := path (uri root) +:+ "/" in
      if startsWith path' rootUri
      then Some (name root +:+ "/" +:+ substring (String.length rootUri) path')
      else getProtocolPath_roots path' roots
  end.

(** [getProtocolPath(uri?)] *)
Definition getProtocolPath (resource : option Uri) : option string :=
  match resource with
  | None => None
  | Some resource =>
      let path' := path resource in
      let roots := default [] workspaceFolders in
      getProtocolPath_roots path' roots
  end.

(** [getResourceUri(path?)] *)
Definition getResourceUri (path' : option string) : option Uri :=
  match path' with
  | None | Some EmptyString => None
  | Some path' =>
      let parts := String_split slash path' in
      let root := default EmptyString (head parts) in
      let rest := tail parts in
      let stat := list_find (λ e, name e = root) (default [] workspaceFolders) in
      match stat with
      | Some (_, stat) =>
          let uriPath := replaceAll backslash slash (join (path (uri stat)) rest) in
          Some (Uri_with (uri stat) uriPath)
      | None => None
      end
  end.

End Workspace.

(** A workspace with two folders, and the join of a platform with [/] as
    separator on segments that need no normalising. *)
Definition two_folders : option (list WorkspaceFolder) :=
  Some [ {| uri := {| scheme := "file"; authority := EmptyString; path := "/home/alice/app";
                      query := EmptyString; fragment := EmptyString |};
            name := "app" |};
         {| uri := {| scheme := "file"; authority := EmptyString; path := "/home/alice/docs";
                      query := EmptyString; fragment := EmptyString |};
            name := "docs" |} ].

Definition join_segments (base : string) (segments : list string) : string :=
  foldl (λ joined segment, joined +:+ "/" +:+ segment) base segments.

(** * Properties *)

(** ** What encryption and decryption do to the state *)

Lemma set_trace_set_encryptionKeyCache_id (s : State) :
  set_trace (trace s ++ []) (set_encryptionKeyCache (encryptionKeyCache s) s) = s.
Proof. destruct s. cbn. by rewrite app_nil_r. Qed.

Lemma encryptSymmetricKey_foldl (publicKeys : list string) (s : State) :
  ∃ cache events,
    foldl encryptSymmetricKey s publicKeys
    = set_trace (trace s ++ events) (set_encryptionKeyCache cache s)
    ∧ encryptionKeyCache s ⊆ cache
    ∧ Forall is_seal events
    ∧ (∀ k, k ∈ publicKeys → is_Some (cache !! k))
    ∧ (∀ k, is_Some (cache !! k) → k ∈ publicKeys ∨ is_Some (encryptionKeyCache s !! k)).
Proof.
  revert s. induction publicKeys as [|k ks IH]; intros s.
  - exists (encryptionKeyCache s), []. cbn [foldl].
    rewrite set_trace_set_encryptionKeyCache_id.
    split_and!; [done|done|constructor|set_solver|auto].
  - cbn [foldl]. destruct (IH (encryptSymmetricKey s k)) as (c & ev & -> & Hsub & Hev & Hin & Hout).
    unfold encryptSymmetricKey in *.
    destruct (encryptionKeyCache s !! k) as [w|] eqn:Hk.
    + exists c, ev. split_and!; try done.
      * intros k' [->|?]%elem_of_cons; [|by auto].
        exists w. by eapply lookup_weaken.
      * intros k' [?|?]%Hout; [left; by right | by right].
    + cbn in *. exists c, (Sealed k :: ev).
      split_and!.
      * by rewrite <- app_assoc.
      * etrans; [|exact Hsub]. by apply insert_subseteq.
      * by constructor.
      * intros k' [->|?]%elem_of_cons; [|by auto].
        exists (seal (symKey s) k). eapply lookup_weaken; [|exact Hsub]. apply lookup_insert_eq.
      * intros k' [?|Hs]%Hout; [left; by right|].
        destruct (decide (k = k')) as [->|Hne]; [left; by left|].
        rewrite lookup_insert_ne in Hs by done. by right.
Qed.

Lemma encrypt_inv (message : Message) (publicKeys : list string) (s s' : State)
    (o : Outcome BinaryMessage) :
  encrypt message publicKeys s = (o, s') →
  ∃ cache events,
    s' = set_trace (trace s ++ events) (set_encryptionKeyCache cache s)
    ∧ encryptionKeyCache s ⊆ cache
    ∧ Forall is_seal events
    ∧ match o with
      | Ok m => publicKeys ≠ [] ∧ bin_content m = message ∧ (bin_keys m).*1 = publicKeys
      | Err error => publicKeys = [] ∧ error = "No recipient"
      end.
Proof.
  unfold encrypt. destruct publicKeys as [|k ks].
  - intros [= <- <-]. exists (encryptionKeyCache s), [].
    rewrite set_trace_set_encryptionKeyCache_id. by split_and!.
  - destruct (encryptSymmetricKey_foldl (k :: ks) s) as (c & ev & Hf & Hsub & Hev & _).
    rewrite Hf. intros [= <- <-].
    exists c, ev. split_and!; try done. cbn.
    f_equal. rewrite <- list_fmap_compose. by rewrite list_fmap_id.
Qed.

Lemma set_trace_set_decryptionKeyCache_id (s : State) :
  set_trace (trace s ++ []) (set_decryptionKeyCache (decryptionKeyCache s) s) = s.
Proof. destruct s. cbn. by rewrite app_nil_r. Qed.

Lemma decrypt_inv (message : BinaryMessage) (s s' : State) (o : Outcome Decrypted) :
  decrypt message s = (o, s') →
  ∃ cache events,
    s' = set_trace (trace s ++ events) (set_decryptionKeyCache cache s)
    ∧ decryptionKeyCache s ⊆ cache
    ∧ size cache ≤ S (size (decryptionKeyCache s))
    ∧ Forall is_seal events
    ∧ match o with
      | Ok d => content d = bin_content message ∧ origin d = bin_origin message
      | Err _ => True
      end.
Proof.
  unfold decrypt. destruct (list_find _ _) as [?|].
  - destruct (decryptionKeyCache s !! bin_sender message) eqn:Hc.
    + intros Heq. exists (decryptionKeyCache s), [].
      rewrite set_trace_set_decryptionKeyCache_id.
      split_and!; [|done|lia|constructor|];
        destruct (bin_intact message); by injection Heq as <- <-.
    + intros Heq. exists (<[bin_sender message := bin_symKey message]> (decryptionKeyCache s)),
        [Unsealed (bin_sender message)].
      split_and!; [|by apply insert_subseteq|by rewrite map_size_insert_None|by repeat constructor|];
        destruct (bin_intact message); by injection Heq as <- <-.
  - intros [= <- <-]. exists (decryptionKeyCache s), [].
    rewrite set_trace_set_decryptionKeyCache_id. split_and!; [done|done|lia|constructor|done].
Qed.

(** ** Proof infrastructure *)

Arguments encrypt : simpl never.
Arguments decrypt : simpl never.
Arguments encryptSymmetricKey : simpl never.
Arguments cleanupCaches : simpl never.

Ltac crypto :=
  match goal with
  | |- context [encrypt ?m ?ks ?s] =>
      let E := fresh "E" in
      destruct (encrypt m ks s) as [? ?] eqn:E;
      apply encrypt_inv in E as (? & ? & -> & ? & ? & ?)
  | |- context [decrypt ?m ?s] =>
      let E := fresh "E" in
      destruct (decrypt m s) as [? ?] eqn:E;
      apply decrypt_inv in E as (? & ? & -> & ? & ? & ? & ?)
  end.

Ltac unfold_methods :=
  unfold step, call, resume, timeout, transport_read, transport_onDisconnect,
    transport_onError, runnable, continue,
    sendRequest, sendRequest_resumed, sendRequest_encrypted,
    sendNotification, sendNotification_resumed, sendNotification_encrypted,
    sendBroadcast, sendBroadcast_resumed, sendBroadcast_encrypted,
    handleMessage, handleResponse_decrypted, handleResponseError_decrypted,
    handleRequest_decrypted, handleRequest_handled, handleRequest_resumed,
    handleRequest_encrypted, handleRequest_encryptedError, handleRequest_catch,
    handleNotification_decrypted, handleError_decrypted,
    run_dispose, dispose, ready, onRequest, onNotification, onBroadcast,
    Deferred_resolve, Deferred_reject, clearTimeout, Emitter_fire, write,
    console_error, emit.

(** Unfolds the methods and splits on everything they branch on. *)
Ltac run_methods :=
  unfold_methods; cbn;
  repeat (first [crypto | case_decide | case_match]; cbn in *; subst).

(** [cleanupCaches] changes the two caches and nothing else. *)
Lemma cleanupCaches_frame (s : State) :
  ∃ encryptionCache decryptionCache,
    cleanupCaches s
    = set_decryptionKeyCache decryptionCache (set_encryptionKeyCache encryptionCache s).
Proof.
  exists (encryptionKeyCache (cleanupCaches s)), (decryptionKeyCache (cleanupCaches s)).
  unfold cleanupCaches. destruct s. cbn. by repeat (case_decide; cbn).
Qed.

Ltac frame_cleanupCaches :=
  repeat match goal with
  | |- context [cleanupCaches ?s] =>
      let H := fresh in
      destruct (cleanupCaches_frame s) as (? & ? & H); rewrite H in *; clear H; cbn in *
  end.

Lemma omap_is_seal (events : list Event) :
  Forall is_seal events →
  omap (λ e, match e with Write m => Some m | _ => None end) events = [].
Proof. induction 1 as [|e es He _ IH]; [done|]. by destruct e. Qed.

Lemma omap_fired (name payload : string) (listeners : list nat) :
  omap (λ e, match e with Write m => Some m | _ => None end)
    (map (λ l, Fired name l payload) listeners) = [].
Proof. by induction listeners. Qed.

Lemma resume_continue (s : State) (i : nat) (t : Task) :
  tasks s !! i = Some (Some t) →
  runnable s t = true →
  resume i s
  = set_tasks (<[i := (continue t s).2]> (tasks (continue t s).1)) (continue t s).1.
Proof. intros Ht Hr. unfold resume. by rewrite Ht, Hr. Qed.

Lemma insert_last {A} (l : list A) (x y : A) :
  <[length l := y]> (l ++ [x]) = l ++ [y].
Proof.
  replace (length l) with (length l + 0) at 1 by lia. by rewrite insert_app_r.
Qed.

Lemma lookup_last {A} (l : list A) (x : A) : (l ++ [x]) !! length l = Some x.
Proof. by rewrite lookup_app_r, Nat.sub_diag. Qed.

Lemma lookup_snoc_Some {A} (l : list A) (x y : A) (i : nat) :
  (l ++ [x]) !! i = Some y → l !! i = Some y ∨ (i = length l ∧ y = x).
Proof.
  intros [?|[? Hi]]%lookup_app_Some; [by left|right].
  apply list_lookup_singleton_Some in Hi as [? <-]. split; [lia|done].
Qed.

Lemma lookup_insert_None_Some {A} (l : list (option A)) (i j : nat) (x : A) :
  <[i := None]> l !! j = Some (Some x) → i ≠ j ∧ l !! j = Some (Some x).
Proof.
  intros H. destruct (decide (i = j)) as [->|Hne].
  - rewrite list_lookup_insert_eq in H; [done|].
    apply lookup_lt_Some in H. by rewrite length_insert in H.
  - by rewrite list_lookup_insert_ne in H.
Qed.

(** ** Handler registration *)

Lemma register_insert r method handler s :
  register r method handler s
  = set_messageHandlers (<[method := handler]> (messageHandlers s)) s.
Proof. by destruct r. Qed.

(** C9: [onRequest], [onNotification] and [onBroadcast] write into the one
    map [messageHandlers]: whichever of the three registered a handler for
    [method] first, a later registration for [method] through any of the
    three replaces it (the state is the one the later registration alone
    yields), the handlers of other methods stay, and an inbound request
    for [method] is dispatched to the later handler. *)
Theorem registrations_share_one_map (r1 r2 : Registration) (method : string)
    (h1 h2 : Handler) (s : State) :
  let s' := register r2 method h2 (register r1 method h1 s) in
  messageHandlers s' !! method = Some h2
  ∧ s' = register r2 method h2 s
  ∧ (∀ other, other ≠ method → messageHandlers s' !! other = messageHandlers s !! other)
  ∧ (∀ decrypted, content_method (content decrypted) = method →
       handleRequest_decrypted (Ok decrypted) s'
       = handleRequest_decrypted (Ok decrypted) (onRequest method h2 s)).
Proof.
  cbn zeta. rewrite !register_insert. cbn.
  rewrite insert_insert_eq. repeat split.
  - apply lookup_insert_eq.
  - intros other Hne. by rewrite lookup_insert_ne.
Qed.

Lemma registrations_share_one_map_witness :
  messageHandlers (onNotification "echo" failing (onRequest "echo" echo alice_waiting))
    !! "other" = messageHandlers alice_waiting !! "other".
Proof.
  apply (registrations_share_one_map ViaRequest ViaNotification "echo" echo failing
           alice_waiting).
  discriminate.
Defined.

(** ** Disposal *)

(** C1, as the code has it: [dispose()] notifies every subscriber of
    [onDisconnect] once, in order, then calls [transport.dispose()]; it
    leaves both emitters without subscribers and the handler registry
    empty.  It touches neither the request map, nor the deferreds, nor the
    timers: a pending request stays pending.  A second [dispose()] notifies
    nobody and changes nothing of the connection; it only calls
    [transport.dispose()] once more. *)
Theorem dispose_effect (s : State) :
  let s' := dispose s in
  trace s' = trace s ++ map (λ l, Fired "onDisconnect" l EmptyString) (listeners (onDisconnectEmitter s))
                     ++ [TransportDispose]
  ∧ messageHandlers s' = ∅
  ∧ listeners (onDisconnectEmitter s') = []
  ∧ listeners (onErrorEmitter s') = []
  ∧ requestMap s' = requestMap s
  ∧ deferreds s' = deferreds s
  ∧ timers s' = timers s
  ∧ dispose s' = emit TransportDispose s'.
Proof.
  cbn. rewrite <- app_assoc. repeat split.
  unfold dispose, emit. cbn. by rewrite app_nil_r.
Qed.

(** C1 fails as stated: Alice's pending request is still pending, and still
    in the request map with its timer armed, after [dispose()]; it is not
    rejected. *)
Lemma dispose_leaves_request_pending :
  let r := {| id := 1; response := 0;
              request_dispose :=
                {| dispose_id := 1; dispose_timeout := 0; dispose_deferred := 0 |} |} in
  requestMap alice_waiting !! 1%Z = Some r
  ∧ deferreds alice_waiting !! response r = Some Pending
  ∧ trace (dispose alice_waiting)
    = trace alice_waiting ++ [Fired "onDisconnect" 0 EmptyString; TransportDispose]
  ∧ requestMap (dispose alice_waiting) !! 1%Z = Some r
  ∧ deferreds (dispose alice_waiting) !! response r = Some Pending
  ∧ deferreds (dispose alice_waiting) !! response r ≠ Some (Rejected "Disconnected")
  ∧ timers (dispose alice_waiting) !! 0
    = Some (Some {| deadline := 60000; callback := request_dispose r |}).
Proof. vm_compute. repeat split; discriminate. Qed.

(** ** Inbound requests *)

(** An arriving request leaves one task, suspended at the decryption of
    the request branch, and writes nothing. *)
Lemma request_arrives (s : State) (data : BinaryMessage) method id o t ps :
  bin_content data = RequestMessage method id o t ps →
  let s' := transport_read data s in
  tasks s' = tasks s ++ [Some (handleRequest_decrypt (decrypt data (cleanupCaches s)).1)]
  ∧ messageHandlers s' = messageHandlers s
  ∧ written s' = written s
  ∧ ∀ decrypted, (decrypt data (cleanupCaches s)).1 = Ok decrypted →
      content decrypted = RequestMessage method id o t ps.
Proof.
  intros Hc. unfold transport_read, handleMessage. rewrite Hc.
  destruct (decrypt data (cleanupCaches s)) as [d s1] eqn:Hd. cbn.
  assert (messageHandlers s1 = messageHandlers s ∧ tasks s1 = tasks s
          ∧ written s1 = written s
          ∧ ∀ decrypted, d = Ok decrypted → content decrypted = bin_content data)
    as (Hm & Ht & Hw & Hk).
  { revert Hd. unfold decrypt, cleanupCaches.
    repeat case_decide; repeat case_match; intros [= <- <-]; cbn;
      unfold written; cbn; rewrite ?omap_app, ?app_nil_r;
      (repeat split; [done || by intros ? [= <-]..]). }
  rewrite Ht. repeat split; try done.
  intros decrypted ->%Hk. done.
Qed.

(** C6: when a request arrives for a method without a registered handler
    and its task resumes, the connection logs one line and the task ends:
    nothing is written to the transport, so neither a response nor a
    response error answers the request.  More generally, the handler is
    looked up when the task resumes after the decryption: if there is none
    then, the connection logs that no handler is registered and the task
    ends without a write. *)
Theorem unhandled_request_is_dropped (s : State) :
  (∀ data method id o t ps,
     bin_content data = RequestMessage method id o t ps →
     messageHandlers s !! method = None →
     let s1 := transport_read data s in
     let s2 := resume (length (tasks s)) s1 in
     written s2 = written s
     ∧ tasks s2 = tasks s ++ [None]
     ∧ ∃ text, trace s2 = trace s1 ++ [ConsoleError text])
  ∧ (∀ i decrypted,
       tasks s !! i = Some (Some (handleRequest_decrypt (Ok decrypted))) →
       messageHandlers s !! content_method (content decrypted) = None →
       let s' := resume i s in
       trace s' = trace s ++ [ConsoleError ("No handler registered for "
                                +:+ kind (content decrypted) +:+ " method "
                                +:+ content_method (content decrypted) +:+ ".")]
       ∧ written s' = written s
       ∧ tasks s' = <[i := None]> (tasks s)).
Proof.
  split.
  - intros data method id o t ps Hc Hh.
    destruct (request_arrives s data method id o t ps Hc) as (Ht & Hm & Hw & Hd).
    cbn zeta in *. generalize dependent (transport_read data s). intros s1 Ht Hm Hw.
    erewrite resume_continue; [|rewrite Ht; apply lookup_last|done].
    unfold written in *. unfold continue, handleRequest_decrypted.
    destruct (decrypt data (cleanupCaches s)).1 as [d|e].
    + rewrite (Hd d eq_refl). cbn. rewrite Hm, Hh. cbn.
      rewrite omap_app, Hw, Ht. cbn. rewrite app_nil_r.
      split_and!; [done|apply insert_last|by eexists].
    + cbn. rewrite omap_app, Hw, Ht. cbn. rewrite app_nil_r.
      split_and!; [done|apply insert_last|by eexists].
  - intros i decrypted Ht Hh. unfold resume. rewrite Ht.
    unfold runnable, continue, handleRequest_decrypted. rewrite Hh. cbn.
    repeat split. unfold written. cbn. by rewrite omap_app, app_nil_r.
Qed.

Lemma unhandled_request_is_dropped_witness :
  let s1 := transport_read (request_from_bob "rename" 7) alice_waiting in
  let s2 := resume 1 s1 in
  (written s2 = written alice_waiting ∧ tasks s2 = tasks alice_waiting ++ [None])
  ∧ trace s2 = trace s1 ++ [ConsoleError "No handler registered for request method rename."].
Proof.
  split.
  - destruct (unhandled_request_is_dropped alice_waiting) as [Harrival _].
    destruct (Harrival (request_from_bob "rename" 7) "rename" 7%Z EmptyString "alice" ["hi"])
      as (Hw & Ht & _).
    + reflexivity.
    + vm_compute. reflexivity.
    + split; assumption.
  - destruct (unhandled_request_is_dropped
                (transport_read (request_from_bob "rename" 7) alice_waiting)) as [_ Hresume].
    destruct (Hresume 1 {| origin := "bob";
                           content := RequestMessage "rename" 7 EmptyString "alice" ["hi"] |})
      as (Htr & _).
    + vm_compute. reflexivity.
    + vm_compute. reflexivity.
    + exact Htr.
Defined.

(** ** The key caches *)

(** The continuation of a task drops nothing from either cache. *)
Lemma continue_caches (t : Task) (s : State) :
  encryptionKeyCache s ⊆ encryptionKeyCache (continue t s).1
  ∧ decryptionKeyCache (continue t s).1 = decryptionKeyCache s.
Proof. destruct t; run_methods; done. Qed.

(** [cleanupCaches] empties a cache that holds more than
    [getPublicKeysLength() + maxCacheSize] entries and leaves any other
    cache alone; it changes nothing else. *)
Lemma cleanupCaches_caches (s : State) :
  let maxSize := getPublicKeysLength (peers s) + maxCacheSize s in
  encryptionKeyCache (cleanupCaches s)
  = (if decide (maxSize < size (encryptionKeyCache s)) then ∅ else encryptionKeyCache s)
  ∧ decryptionKeyCache (cleanupCaches s)
    = (if decide (maxSize < size (decryptionKeyCache s)) then ∅ else decryptionKeyCache s)
  ∧ peers (cleanupCaches s) = peers s
  ∧ maxCacheSize (cleanupCaches s) = maxCacheSize s.
Proof. unfold cleanupCaches. cbn. repeat case_decide; cbn; repeat case_decide; done. Qed.

(** An arriving message changes the caches by [cleanupCaches] and by the
    one entry its decryption may add. *)
Lemma transport_read_caches (data : BinaryMessage) (s : State) :
  encryptionKeyCache (transport_read data s) = encryptionKeyCache (cleanupCaches s)
  ∧ decryptionKeyCache (cleanupCaches s) ⊆ decryptionKeyCache (transport_read data s)
  ∧ size (decryptionKeyCache (transport_read data s))
    ≤ S (size (decryptionKeyCache (cleanupCaches s))).
Proof.
  unfold transport_read, handleMessage, call.
  repeat (first [crypto | case_match]; cbn in *; subst); done.
Qed.

(** No method assigns [maxCacheSize]: it is 50 throughout. *)
Lemma maxCacheSize_constant (keys symKey : string) (peers0 : Peers) (actions : list Action) :
  maxCacheSize (run (new keys symKey peers0) actions) = 50.
Proof.
  assert (∀ s a, maxCacheSize (step s a) = maxCacheSize s) as Hstep.
  { intros s a. destruct a; run_methods; frame_cleanupCaches; done. }
  assert (∀ s, maxCacheSize (run s actions) = maxCacheSize s) as Hrun.
  { induction actions as [|a actions IH]; intros s; [done|]. cbn. by rewrite IH, Hstep. }
  by rewrite Hrun.
Qed.

(** Whatever happens to the connection, a cache keeps all its entries
    unless an inbound message arrives while the cache holds more than
    [getPublicKeysLength() + maxCacheSize] entries. *)
Lemma step_caches (s : State) (a : Action) :
  (encryptionKeyCache s ⊆ encryptionKeyCache (step s a)
   ∨ (∃ data, a = TransportRead data)
     ∧ getPublicKeysLength (peers s) + maxCacheSize s < size (encryptionKeyCache s))
  ∧ (decryptionKeyCache s ⊆ decryptionKeyCache (step s a)
     ∨ (∃ data, a = TransportRead data)
       ∧ getPublicKeysLength (peers s) + maxCacheSize s < size (decryptionKeyCache s)).
Proof.
  split.
  - destruct a; try (left; cbn; unfold_methods; cbn; done).
    + destruct (cleanupCaches_caches s) as (He & _). cbn zeta in He.
      destruct (transport_read_caches data s) as (Hr & _).
      destruct (decide (getPublicKeysLength (peers s) + maxCacheSize s
                        < size (encryptionKeyCache s))); [right; eauto|left].
      cbn. by rewrite Hr, He.
    + left. cbn. unfold resume.
      destruct (tasks s !! task) as [[t|]|]; try done.
      destruct (runnable s t); try done. cbn. apply continue_caches.
    + left. unfold step, timeout. unfold_methods. cbn.
      repeat (first [case_decide | case_match]; cbn in *; subst); done.
  - destruct a; try (left; cbn; unfold_methods; cbn; done).
    + destruct (cleanupCaches_caches s) as (_ & Hd & _). cbn zeta in Hd.
      destruct (transport_read_caches data s) as (_ & Hr & _).
      destruct (decide (getPublicKeysLength (peers s) + maxCacheSize s
                        < size (decryptionKeyCache s))); [right; eauto|left].
      cbn. by rewrite <- Hd.
    + left. cbn. unfold resume.
      destruct (tasks s !! task) as [[t|]|]; try done.
      destruct (runnable s t); try done. cbn.
      by destruct (continue_caches t s) as [_ ->].
    + left. unfold step, timeout. unfold_methods. cbn.
      repeat (first [case_decide | case_match]; cbn in *; subst); done.
Qed.

(** C2 fails as stated: after the fourth peer has joined both caches still
    hold what they held, and the next broadcast seals for the new peer
    only; the three other wraps come from the cache. *)
Lemma peer_change_keeps_caches :
  getPublicKeys (peers host_of_three) = three
  ∧ getPublicKeys (peers host_of_four) = four
  ∧ map_to_list (encryptionKeyCache host_of_four)
    = [("pk-carol", "pk-carol:K"); ("pk-bob", "pk-bob:K"); ("pk-dave", "pk-dave:K")]
  ∧ map_to_list (decryptionKeyCache host_of_four) = [("pk-bob", "K-bob")]
  ∧ encryptionKeyCache host_of_four ≠ ∅
  ∧ decryptionKeyCache host_of_four ≠ ∅
  ∧ trace after_next_broadcast
    = trace host_of_four
        ++ [Sealed "pk-erin";
            Write {| bin_origin := EmptyString; bin_sender := "pk-alice";
                     bin_keys := [("pk-bob", "pk-bob:K"); ("pk-carol", "pk-carol:K");
                                  ("pk-dave", "pk-dave:K"); ("pk-erin", "pk-erin:K")];
                     bin_symKey := "K";
                     bin_content := BroadcastMessage "note" EmptyString ["y"];
                     bin_intact := true |}].
Proof.
  split_and!; try (vm_compute; reflexivity).
  - intros H. apply (f_equal map_to_list) in H. vm_compute in H. discriminate.
  - intros H. apply (f_equal map_to_list) in H. vm_compute in H. discriminate.
Qed.

(** C3, as the code has it: [cleanupCaches] runs at the start of
    [handleMessage] and nowhere else: no other action takes an entry from
    a cache.  It leaves each cache with at most
    [getPublicKeysLength() + maxCacheSize] entries, by emptying the cache
    as a whole when it holds more and not touching it otherwise.  The
    decryption that follows may add one entry to the decryption cache. *)
Theorem cleanupCaches_bound (s : State) :
  let maxSize := getPublicKeysLength (peers s) + maxCacheSize s in
  size (encryptionKeyCache (cleanupCaches s)) ≤ maxSize
  ∧ size (decryptionKeyCache (cleanupCaches s)) ≤ maxSize
  ∧ encryptionKeyCache (cleanupCaches s)
    = (if decide (maxSize < size (encryptionKeyCache s)) then ∅ else encryptionKeyCache s)
  ∧ decryptionKeyCache (cleanupCaches s)
    = (if decide (maxSize < size (decryptionKeyCache s)) then ∅ else decryptionKeyCache s)
  ∧ (∀ data,
       size (encryptionKeyCache (transport_read data s)) ≤ maxSize
       ∧ size (decryptionKeyCache (transport_read data s)) ≤ S maxSize)
  ∧ (∀ a,
       (∀ data, a ≠ TransportRead data) →
       encryptionKeyCache s ⊆ encryptionKeyCache (step s a)
       ∧ decryptionKeyCache s ⊆ decryptionKeyCache (step s a)).
Proof.
  cbn zeta. destruct (cleanupCaches_caches s) as (He & Hd & Hp & Hm). cbn zeta in He, Hd.
  assert (size (encryptionKeyCache (cleanupCaches s))
          ≤ getPublicKeysLength (peers s) + maxCacheSize s) as Hes.
  { rewrite He. destruct (decide (_ < size (encryptionKeyCache s))); [rewrite map_size_empty|]; lia. }
  assert (size (decryptionKeyCache (cleanupCaches s))
          ≤ getPublicKeysLength (peers s) + maxCacheSize s) as Hds.
  { rewrite Hd. destruct (decide (_ < size (decryptionKeyCache s))); [rewrite map_size_empty|]; lia. }
  split_and!; try done.
  - intros data. destruct (transport_read_caches data s) as (Hr & _ & Hrs).
    rewrite Hr. split; lia.
  - intros a Ha.
    destruct (step_caches s a) as [[?|[[data ->] _]] [?|[[data' ->] _]]];
      try done; by destruct (Ha _ eq_refl).
Qed.

Lemma cleanupCaches_bound_witness :
  encryptionKeyCache host_of_three
  ⊆ encryptionKeyCache (step host_of_three (SendBroadcast "note" ["y"]))
  ∧ decryptionKeyCache host_of_three
    ⊆ decryptionKeyCache (step host_of_three (SendBroadcast "note" ["y"])).
Proof.
  apply (cleanupCaches_bound host_of_three). intros data. discriminate.
Defined.

(** C3 fails as stated: after 52 receives the decryption cache holds 52
    entries, one more than [getPublicKeysLength() + 50 = 51]: the 52nd
    message found 51 entries, which is not more than 51, and its
    decryption added one.  And sends never clean up: the encryption cache
    filled by a broadcast to 51 peers still holds its 51 entries when the
    peers have left and the bound is 50, also after a further send. *)
Lemma receives_exceed_cache_bound :
  (getPublicKeysLength (peers flooded) + maxCacheSize flooded = 51
   ∧ size (decryptionKeyCache flooded) = 52
   ∧ ¬ size (decryptionKeyCache flooded)
       ≤ getPublicKeysLength (peers flooded) + maxCacheSize flooded)
  ∧ (size (encryptionKeyCache crowded) = 51
     ∧ getPublicKeysLength (peers deserted) + maxCacheSize deserted = 50
     ∧ size (encryptionKeyCache deserted) = 51
     ∧ ¬ size (encryptionKeyCache deserted)
         ≤ getPublicKeysLength (peers deserted) + maxCacheSize deserted).
Proof. vm_compute. split_and!; (done || lia). Qed.

(** ** Recipients of outbound messages *)

Lemma continue_has_recipient (t : Task) (s : State) :
  encryption_succeeded (Some t) →
  Forall has_recipient (written s) →
  Forall has_recipient (written (continue t s).1)
  ∧ encryption_succeeded (continue t s).2
  ∧ tasks (continue t s).1 = tasks s.
Proof.
  unfold encryption_succeeded, has_recipient, written.
  intros Ht Hw.
  destruct t; run_methods;
    rewrite ?omap_app, ?omap_fired; cbn;
    repeat match goal with
    | H : Forall is_seal _ |- _ => rewrite (omap_is_seal _ H); clear H
    end;
    rewrite ?app_nil_r; destruct_and?; simplify_eq; split_and?; try done;
    try (apply Forall_app; split; [done|by repeat constructor]);
    try (intros Hnil;
         match goal with
         | H : (bin_keys _).*1 = _ |- _ => rewrite Hnil in H; cbn in H; try discriminate
         end);
    try match goal with
        | H : 0 < length ?l, H' : [] = ?l |- _ => rewrite <- H' in H; cbn in H; lia
        | H : 0 < length ?l, H' : ?l = [] |- _ => rewrite H' in H; cbn in H; lia
        end.
Qed.

Lemma step_recipients (s : State) (a : Action) :
  recipients_invariant s → recipients_invariant (step s a).
Proof.
  intros [Hw Ht]. destruct a.
  15: { (* Resume *)
    cbn. unfold resume.
    destruct (tasks s !! task) as [[t|]|] eqn:Hi; try done.
    destruct (runnable s t); try done.
    assert (encryption_succeeded (Some t)) as Hok.
    { eapply (Forall_lookup_1 _ _ _ _ Ht Hi). }
    destruct (continue_has_recipient t s Hok Hw) as (Hw' & Hn & Htasks).
    split; [done|]. cbn. rewrite Htasks. by apply Forall_insert. }
  all: unfold recipients_invariant, has_recipient, written in *.
  all: run_methods; frame_cleanupCaches; rewrite ?omap_app, ?omap_fired; cbn;
    repeat match goal with
    | H : Forall is_seal _ |- _ => rewrite (omap_is_seal _ H); clear H
    end;
    rewrite ?app_nil_r; split; try done;
    try (apply Forall_app; split; [done|by repeat constructor]).
Qed.

Lemma run_recipients (actions : list Action) (s : State) :
  recipients_invariant s → recipients_invariant (run s actions).
Proof.
  revert s. induction actions as [|a actions IH]; intros s Hs; [done|].
  cbn. apply IH. by apply step_recipients.
Qed.

(** C7: a [sendBroadcast] called on a ready connection whose subclass
    knows no peer, and resumed, leaves the trace as it was: nothing is
    encrypted and nothing is written.  More generally, the peers are read
    when the method resumes after the ready barrier: a broadcast that
    resumes while the subclass knows no peer ends there, with the state as it
    was.  In every state a connection can reach, each message handed to the
    transport carries at least one sealed key copy, and each encryption a
    task awaits has produced such a message: the failure of
    [Encryption.encrypt] for want of a recipient does not occur. *)
Theorem empty_broadcast_is_skipped (keys symKey : string) (peers0 : Peers)
    (actions : list Action) :
  let s := run (new keys symKey peers0) actions in
  (∀ type parameters,
     _ready s = true → getPublicKeys (peers s) = [] →
     let s' := resume (length (tasks s)) (step s (SendBroadcast type parameters)) in
     trace s' = trace s ∧ written s' = written s ∧ tasks s' = tasks s ++ [None])
  ∧ (∀ type parameters,
       getPublicKeys (peers s) = [] → sendBroadcast_resumed type parameters s = (s, None))
  ∧ Forall has_recipient (written s)
  ∧ Forall encryption_succeeded (tasks s).
Proof.
  cbn zeta. split_and!.
  - intros type parameters Hr Hnone. unfold step, call, sendBroadcast. cbn.
    erewrite resume_continue; [|apply lookup_last|done].
    unfold written, continue, sendBroadcast_resumed. cbn. rewrite Hnone. cbn.
    split_and!; [done|done|apply insert_last].
  - intros type parameters Hnone. unfold sendBroadcast_resumed. by rewrite Hnone.
  - apply run_recipients. by split.
  - apply run_recipients. by split.
Qed.

Lemma empty_broadcast_is_skipped_witness :
  let s := run (new "pk-alice" "K" (room [])) [Ready] in
  let s' := resume 0 (step s (SendBroadcast "note" ["x"])) in
  (trace s' = trace s ∧ written s' = written s ∧ tasks s' = tasks s ++ [None])
  ∧ sendBroadcast_resumed "note" ["x"] s = (s, None).
Proof.
  destruct (empty_broadcast_is_skipped "pk-alice" "K" (room []) [Ready])
    as (Hcall & Hresumed & _).
  split.
  - apply (Hcall "note" ["x"]); reflexivity.
  - apply (Hresumed "note" ["x"]). reflexivity.
Defined.

(** ** The ready barrier *)

(** C5 does not hold of the code: when the handler of an inbound request
    throws, the [catch] block encrypts and writes the response error
    without awaiting [this._ready.promise]; here it is on the transport
    while [ready()] has not been called.  The response of a handler that
    returns is withheld, in a task that waits for [ready()]. *)
Theorem response_error_written_before_ready :
  _ready answered_before_ready = false
  ∧ written answered_before_ready
    = [{| bin_origin := EmptyString; bin_sender := "pk-alice";
          bin_keys := [("pk-bob", "pk-bob:K")]; bin_symKey := "K";
          bin_content := ResponseErrorMessage 7 "Error: boom";
          bin_intact := true |}]
  ∧ tasks answered_before_ready = [None]
  ∧ _ready withheld_before_ready = false
  ∧ written withheld_before_ready = []
  ∧ tasks withheld_before_ready
    = [Some (handleRequest_ready
               {| origin := "bob"; content := RequestMessage "echo" 7 EmptyString "alice" ["hi"] |}
               "hi")].
Proof. vm_compute. done. Qed.

Lemma continue_barrier (t : Task) (s : State) :
  _ready s = false →
  runnable s t = true →
  behind_barrier (Some t) →
  Forall is_response_error (written s) →
  _ready (continue t s).1 = false
  ∧ Forall is_response_error (written (continue t s).1)
  ∧ behind_barrier (continue t s).2
  ∧ tasks (continue t s).1 = tasks s.
Proof.
  unfold is_response_error, written. intros Hr Hrun Ht Hw.
  destruct t; cbn in Hrun, Ht; try congruence; try done;
    run_methods; rewrite ?omap_app, ?omap_fired; cbn;
    repeat match goal with
    | H : Forall is_seal _ |- _ => rewrite (omap_is_seal _ H); clear H
    end;
    rewrite ?app_nil_r; destruct_and?; simplify_eq; split_and?; try done;
    try (apply Forall_app; split; [done|by repeat constructor]);
    try match goal with
        | H : bin_content _ = _ |- _ => unfold is_response_error; by rewrite H
        end.
Qed.

Lemma resume_barrier (s : State) (task : nat) :
  barrier_invariant s → barrier_invariant (resume task s).
Proof.
  intros (Hr & Hw & Ht). unfold resume.
  destruct (tasks s !! task) as [[t|]|] eqn:Hi; try done.
  destruct (runnable s t) eqn:Hrun; try done.
  assert (behind_barrier (Some t)) as Hok.
  { eapply (Forall_lookup_1 _ _ _ _ Ht Hi). }
  destruct (continue_barrier t s Hr Hrun Hok Hw) as (Hr' & Hw' & Hn & Htasks).
  split_and!; [done|done|]. cbn. rewrite Htasks. by apply Forall_insert.
Qed.

Lemma step_barrier (s : State) (a : Action) :
  a ≠ Ready → barrier_invariant s → barrier_invariant (step s a).
Proof.
  intros Ha Hs. destruct a; try done; try (by apply resume_barrier).
  all: destruct Hs as (Hr & Hw & Ht).
  all: unfold barrier_invariant, is_response_error, written in *.
  all: run_methods; frame_cleanupCaches; rewrite ?omap_app, ?omap_fired; cbn;
    repeat match goal with
    | H : Forall is_seal _ |- _ => rewrite (omap_is_seal _ H); clear H
    end;
    rewrite ?app_nil_r; split_and!; try done;
    try (apply Forall_app; split; [done|by repeat constructor]).
Qed.

(** What C5 claims holds of every path but the [catch] block: as long as
    [ready()] has not been called, whatever else happens, the only messages
    handed to the transport are response errors. *)
Lemma only_response_errors_before_ready (keys symKey : string) (peers0 : Peers)
    (actions : list Action) :
  Ready ∉ actions →
  let s := run (new keys symKey peers0) actions in
  _ready s = false ∧ Forall is_response_error (written s).
Proof.
  intros Hno. cbn zeta.
  assert (∀ s, barrier_invariant s → barrier_invariant (run s actions)) as Hrun.
  { induction actions as [|a actions IH]; intros s Hs; [done|].
    cbn. apply IH; [set_solver|]. apply step_barrier; [set_solver|done]. }
  destruct (Hrun (new keys symKey peers0)) as (? & ? & _); [|done].
  by split_and!.
Qed.

(** ** Request ids *)

(** An allocated id is the one the request is registered under, and the
    allocation is the only thing that moves the counter. *)
Lemma allocates_registers (s : State) (a : Action) :
  match allocates s a with
  | Some id =>
      id = requestId s
      ∧ requestId (step s a) = increment (requestId s)
      ∧ requestMap (step s a) !! id
        = Some {| id := id; response := length (deferreds s);
                  request_dispose := {| dispose_id := id;
                                        dispose_timeout := length (timers s);
                                        dispose_deferred := length (deferreds s) |} |}
  | None => requestId (step s a) = requestId s
  end.
Proof.
  destruct a; try (cbn; run_methods; frame_cleanupCaches; done).
  unfold allocates. cbn. unfold resume.
  destruct (tasks s !! task) as [[t|]|]; [|done..].
  destruct t; try (run_methods; done).
  unfold runnable. destruct (_ready s); [|done].
  run_methods; split_and!; try done; apply lookup_insert_eq.
Qed.

Lemma allocated_sorted (actions : list Action) (s : State) :
  (requestId s + Z.of_nat (length actions) ≤ 2 ^ 53)%Z →
  StronglySorted Z.lt (allocated s actions)
  ∧ Forall (λ id, requestId s ≤ id)%Z (allocated s actions).
Proof.
  revert s. induction actions as [|a actions IH]; intros s Hs.
  { split; constructor. }
  cbn [allocated length] in *.
  pose proof (allocates_registers s a) as Ha.
  destruct (allocates s a) as [id|]; cbn [option_list app].
  - destruct Ha as (-> & Hnext & _).
    unfold increment in Hnext. case_match; [|lia].
    destruct (IH (step s a)) as [Hsorted Hge]; [lia|].
    rewrite Hnext in Hge. split; constructor; try done.
    + eapply Forall_impl; [exact Hge|]. cbn. lia.
    + eapply Forall_impl; [exact Hge|]. cbn. lia.
  - destruct (IH (step s a)) as [Hsorted Hge]; [lia|].
    rewrite Ha in Hge. done.
Qed.

Lemma increment_ge (n : Z) : (n ≤ increment n)%Z.
Proof. unfold increment. case_match; lia. Qed.

Lemma step_requestId (s : State) (a : Action) : (requestId s ≤ requestId (step s a))%Z.
Proof.
  pose proof (allocates_registers s a) as H.
  destruct (allocates s a); [|lia].
  destruct H as (_ & -> & _). apply increment_ge.
Qed.

(** ** The life of a request *)

Lemma step_request_effect (s : State) (a : Action) : RequestEffect s a (step s a).
Proof.
  destruct a; try (apply effect_none; run_methods; frame_cleanupCaches; done).
  - (* Resume *)
    cbn. unfold resume.
    destruct (tasks s !! task) as [[t|]|] eqn:Hi; try by apply effect_none.
    destruct (runnable s t) eqn:Hrun; try by apply effect_none.
    destruct t; try (apply effect_none; run_methods; done).
    + eapply effect_register; try done; run_methods; done.
    + destruct request as [request|]; [|apply effect_none; run_methods; done].
      destruct (deferreds s !! response request) as [[]|] eqn:Hd;
        try (apply effect_none; run_methods; done).
      destruct decrypted.
      * eapply (effect_settle _ _ _ _ _ request (Resolved _)); try done;
          unfold_methods; cbn; by rewrite Hd.
      * eapply (effect_settle _ _ _ _ _ request (Rejected _)); try done;
          unfold_methods; cbn; by rewrite Hd.
    + destruct request as [request|]; [|apply effect_none; run_methods; done].
      destruct (deferreds s !! response request) as [[]|] eqn:Hd;
        try (apply effect_none; run_methods; done).
      destruct decrypted.
      * eapply (effect_settle _ _ _ _ _ request (Rejected _)); try done;
          unfold_methods; cbn; by rewrite Hd.
      * eapply (effect_settle _ _ _ _ _ request (Rejected _)); try done;
          unfold_methods; cbn; by rewrite Hd.
  - (* Timeout *)
    cbn. unfold timeout.
    destruct (timers s !! timer) as [[tm|]|] eqn:Ht; try by apply effect_none.
    case_decide; [|by apply effect_none].
    eapply effect_timeout; try done; run_methods; done.
Qed.

(** A resumed task does not go on as a task that holds a request. *)
Lemma continue_task_request (t : Task) (s : State) :
  task_request (continue t s).2 = None ∧ tasks (continue t s).1 = tasks s.
Proof. destruct t; run_methods; done. Qed.

(** An arriving response or response error leaves one task, which holds
    the request registered under the message's id at that moment, and
    changes nothing but the decryption cache. *)
Lemma response_arrives (s : State) (data : BinaryMessage) :
  is_response (bin_content data) →
  let s' := transport_read data s in
  let decrypted := (decrypt data (cleanupCaches s)).1 in
  tasks s'
  = tasks s ++ [Some (match bin_content data with
                      | ResponseMessage _ _ => handleResponse_decrypt
                      | _ => handleResponseError_decrypt
                      end (requestMap s !! message_id (bin_content data)) decrypted)]
  ∧ (∀ d, decrypted = Ok d → content d = bin_content data)
  ∧ requestMap s' = requestMap s
  ∧ deferreds s' = deferreds s
  ∧ timers s' = timers s
  ∧ written s' = written s.
Proof.
  intros Hr. unfold transport_read, handleMessage, call, written.
  destruct (bin_content data) eqn:Hc; try done;
    crypto; frame_cleanupCaches; cbn;
    rewrite ?omap_app;
    repeat match goal with
    | H : Forall is_seal _ |- _ => rewrite (omap_is_seal _ H); clear H
    end; rewrite ?app_nil_r;
    (split_and!; try done);
    intros d ->; destruct_and?; congruence.
Qed.

(** A task that holds a request after an action held it before, or it is
    the task of a response that has just arrived and holds what the
    request map had under the id of the response. *)
Lemma step_task_request (s : State) (a : Action) (j : nat) (t : option Task)
    (request : RelayedRequest) :
  tasks (step s a) !! j = Some t →
  task_request t = Some request →
  tasks s !! j = Some t
  ∨ ∃ data,
      a = TransportRead data ∧ is_response (bin_content data)
      ∧ requestMap s !! message_id (bin_content data) = Some request.
Proof.
  intros Hj Hreq. destruct a;
    try (left; revert Hj; run_methods; done);
    try (left; revert Hj; unfold_methods; cbn;
         intros [Hj|[_ Hj]]%lookup_app_Some; [done|];
         apply list_lookup_singleton_Some in Hj as [_ <-]; done).
  - (* TransportRead *)
    destruct (decide (is_response (bin_content data))) as [Hr|Hr].
    + destruct (response_arrives s data Hr) as (Ht & _).
      cbn in Hj. rewrite Ht in Hj.
      apply lookup_app_Some in Hj as [Hj|[_ Hj]]; [by left|right].
      apply list_lookup_singleton_Some in Hj as [_ <-].
      exists data. split_and!; try done.
      destruct (bin_content data); done.
    + left. revert Hj. unfold step, transport_read, handleMessage, call.
      destruct (bin_content data); try (by destruct Hr);
        crypto; frame_cleanupCaches; cbn;
        intros [Hj|[_ Hj]]%lookup_app_Some; try done;
        apply list_lookup_singleton_Some in Hj as [_ <-]; done.
  - (* Resume *)
    left. revert Hj. cbn. unfold resume.
    destruct (tasks s !! task) as [[t'|]|] eqn:Hi; try done.
    destruct (runnable s t'); try done.
    destruct (continue_task_request t' s) as [Hnone Htasks]. cbn. rewrite Htasks.
    destruct (decide (task = j)) as [->|Hne].
    + rewrite list_lookup_insert_eq by (by eapply lookup_lt_Some).
      intros [= <-]. congruence.
    + by rewrite list_lookup_insert_ne.
Qed.

(** A response for an id that is not in the request map settles nothing
    and is answered by nothing. *)
Lemma response_without_request_is_dropped (s : State) (data : BinaryMessage) :
  is_response (bin_content data) →
  requestMap s !! message_id (bin_content data) = None →
  let s' := resume (length (tasks s)) (transport_read data s) in
  deferreds s' = deferreds s
  ∧ requestMap s' = requestMap s
  ∧ timers s' = timers s
  ∧ written s' = written s
  ∧ tasks s' = tasks s ++ [None].
Proof.
  intros Hr Hnone.
  destruct (response_arrives s data Hr) as (Ht & _ & Hm & Hd & Hti & Hw).
  cbn zeta in *. generalize dependent (transport_read data s). intros s1 Ht Hm Hd Hti Hw.
  rewrite Hnone in Ht. destruct (decrypt data (cleanupCaches s)).1 as [d|e].
  all: erewrite resume_continue; [|rewrite Ht; apply lookup_last|by destruct (bin_content data)].
  all: unfold written in *.
  all: destruct (bin_content data); try done; run_methods;
    rewrite ?Ht, ?Hm, ?Hd, ?Hti, ?omap_app, ?Hw; cbn; rewrite ?app_nil_r;
    (split_and!; try done); apply insert_last.
Qed.

(** A response, or response error, that arrives for a registered request
    and decrypts settles the request's deferred, if pending, and leaves
    the request map, the timers and the transport as they are. *)
Lemma response_settles (s : State) (data : BinaryMessage) (request : RelayedRequest)
    (decrypted : Decrypted) :
  is_response (bin_content data) →
  requestMap s !! message_id (bin_content data) = Some request →
  (decrypt data (cleanupCaches s)).1 = Ok decrypted →
  let s' := resume (length (tasks s)) (transport_read data s) in
  requestMap s' = requestMap s
  ∧ timers s' = timers s
  ∧ written s' = written s
  ∧ (deferreds s !! response request = Some Pending →
     deferreds s' !! response request = Some (settles (bin_content data))).
Proof.
  intros Hr Hreq Hdec.
  destruct (response_arrives s data Hr) as (Ht & Hc & Hm & Hd & Hti & Hw).
  cbn zeta in *. rewrite Hdec in *. specialize (Hc _ eq_refl).
  generalize dependent (transport_read data s). intros s1 Ht Hm Hd Hti Hw.
  rewrite Hreq in Ht.
  erewrite resume_continue; [|rewrite Ht; apply lookup_last|by destruct (bin_content data)].
  unfold written in *.
  destruct (bin_content data); try done; run_methods;
    rewrite ?Ht, ?Hm, ?Hd, ?Hti, ?omap_app, ?Hw; cbn; rewrite ?app_nil_r;
    (split_and!; try done); try congruence;
    intros _; rewrite Hc; cbn;
    (apply list_lookup_insert_eq; rewrite <- Hd; by eapply lookup_lt_Some).
Qed.

(** A resumed task removes nothing from the request map. *)
Lemma continue_requestMap (t : Task) (s : State) (id : Z) :
  is_Some (requestMap s !! id) → is_Some (requestMap (continue t s).1 !! id).
Proof.
  intros Hid. destruct t; run_methods; try done.
  all: destruct (decide (requestId s = id)) as [->|Hne];
    [rewrite lookup_insert_eq; eauto | by rewrite lookup_insert_ne].
Qed.

(** Only a timer removes an entry from the request map. *)
Lemma requestMap_delete_only_by_timer (s : State) (a : Action) (id : Z) :
  is_Some (requestMap s !! id) →
  requestMap (step s a) !! id = None →
  ∃ t timer,
    a = Timeout t
    ∧ timers s !! t = Some (Some timer)
    ∧ dispose_id (callback timer) = id
    ∧ (deadline timer ≤ now s)%Z.
Proof.
  intros Hsome Hnone. destruct a.
  15: { (* Resume *)
    exfalso. cbn in Hnone. unfold resume in Hnone.
    destruct (tasks s !! task) as [[t|]|]; try (rewrite Hnone in Hsome; by destruct Hsome).
    destruct (runnable s t); try (rewrite Hnone in Hsome; by destruct Hsome).
    cbn in Hnone. apply (continue_requestMap t) in Hsome.
    rewrite Hnone in Hsome. by destruct Hsome. }
  16: { (* Timeout *)
    cbn in Hnone. unfold timeout in Hnone.
    destruct (timers s !! timer) as [[tm|]|] eqn:Ht;
      try (rewrite Hnone in Hsome; by destruct Hsome).
    case_decide; [|rewrite Hnone in Hsome; by destruct Hsome].
    exists timer, tm. split_and!; try done.
    destruct (decide (dispose_id (callback tm) = id)) as [|Hne]; [done|exfalso].
    revert Hnone. unfold_methods. cbn. repeat case_match; cbn; rewrite lookup_delete_ne by done;
      intros Hnone; rewrite Hnone in Hsome; by destruct Hsome. }
  all: exfalso; revert Hnone; run_methods; frame_cleanupCaches;
    intros Hnone; rewrite Hnone in Hsome; by destruct Hsome.
Qed.

(** The step that allocates the id registers the request, pending, and
    arms its timer for 60 000 ms from then. *)
Lemma sendRequest_registers (s : State) (i : nat) (type target : string)
    (parameters : list Value) :
  tasks s !! i = Some (Some (sendRequest_ready type target parameters)) →
  _ready s = true →
  let dispose := {| dispose_id := requestId s; dispose_timeout := length (timers s);
                    dispose_deferred := length (deferreds s) |} in
  let s' := resume i s in
  requestMap s' !! requestId s
  = Some {| id := requestId s; response := length (deferreds s); request_dispose := dispose |}
  ∧ deferreds s' = deferreds s ++ [Pending]
  ∧ timers s' = timers s ++ [Some {| deadline := now s + 60000; callback := dispose |}]
  ∧ now s' = now s.
Proof.
  intros Ht Hr. cbn zeta. erewrite resume_continue by done.
  run_methods; split_and!; try done; apply lookup_insert_eq.
Qed.

(** The timer of a pending request does nothing before it is due; once
    due it rejects the request with the timeout error and removes the
    entry of its id. *)
Lemma timeout_rejects (s : State) (t : nat) (timer : Timer) :
  timers s !! t = Some (Some timer) →
  dispose_timeout (callback timer) = t →
  deferreds s !! dispose_deferred (callback timer) = Some Pending →
  ((now s < deadline timer)%Z → timeout t s = s)
  ∧ ((deadline timer ≤ now s)%Z →
     deferreds (timeout t s) !! dispose_deferred (callback timer)
     = Some (Rejected "Request timed out")
     ∧ requestMap (timeout t s) !! dispose_id (callback timer) = None
     ∧ timers (timeout t s) !! t = Some None).
Proof.
  intros Ht Hown Hd. unfold timeout. rewrite Ht. split; intros Hnow.
  - case_decide; [lia|done].
  - case_decide; [|lia]. unfold_methods. cbn. rewrite Hd. cbn. split_and!.
    + apply list_lookup_insert_eq. by eapply lookup_lt_Some.
    + apply lookup_delete_eq.
    + rewrite Hown. apply list_lookup_insert_eq. rewrite length_insert.
      by eapply lookup_lt_Some.
Qed.

(** The timer's [dispose] on a deferred that is already settled: the entry
    and the timer go, nothing else changes. *)
Lemma timeout_after_settlement (s : State) (t : nat) (timer : Timer) :
  timers s !! t = Some (Some timer) →
  (deadline timer ≤ now s)%Z →
  deferreds s !! dispose_deferred (callback timer) ≠ Some Pending →
  let s' := timeout t s in
  requestMap s' = delete (dispose_id (callback timer)) (requestMap s)
  ∧ timers s' = <[dispose_timeout (callback timer) := None]> (<[t := None]> (timers s))
  ∧ deferreds s' = deferreds s
  ∧ trace s' = trace s
  ∧ tasks s' = tasks s.
Proof.
  intros Ht Hdue Hsettled. cbn zeta. unfold timeout. rewrite Ht.
  case_decide; [|done]. run_methods; done.
Qed.

(** A due timer removes the entry of its id and is no longer armed. *)
Lemma timeout_removes_entry (s : State) (t : nat) (timer : Timer) :
  timers s !! t = Some (Some timer) →
  dispose_timeout (callback timer) = t →
  (deadline timer ≤ now s)%Z →
  requestMap (timeout t s) !! dispose_id (callback timer) = None
  ∧ timers (timeout t s) !! t = Some None.
Proof.
  intros Ht Hown Hdue. unfold timeout. rewrite Ht. case_decide; [|lia].
  assert (t < length (timers s)) by (by eapply lookup_lt_Some).
  run_methods; rewrite lookup_delete_eq; (split; [done|]);
    apply list_lookup_insert_eq; by rewrite length_insert.
Qed.

Lemma step_wellformed (s : State) (a : Action) : wellformed s → wellformed (step s a).
Proof.
  intros (Ht & Hm & Hk).
  assert (length (deferreds s) ≤ length (deferreds (step s a))
          ∧ (∀ t timer, timers (step s a) !! t = Some (Some timer) →
               dispose_timeout (callback timer) = t
               ∧ dispose_deferred (callback timer) < length (deferreds (step s a)))
          ∧ (∀ id request, requestMap (step s a) !! id = Some request →
               response request < length (deferreds (step s a)))) as (Hlen & Ht' & Hm').
  { destruct (step_request_effect s a)
      as [Hd Hti Hrm|i ty ta ps _ _ _ Hd Hti Hrm|i t r v _ _ _ _ Hd Hti Hrm
         |t tm _ Harmed _ Hd Hti Hrm];
      rewrite Hd, Hti, Hrm.
    - done.
    - rewrite length_app. cbn. split_and!; [lia| |].
      + intros t tm [Ho|[-> [= ->]]]%lookup_snoc_Some; cbn; [|lia].
        destruct (Ht _ _ Ho). split; [done|lia].
      + intros id' r [[<- <-]|[_ Ho]]%lookup_insert_Some; cbn; [lia|].
        specialize (Hm _ _ Ho). lia.
    - rewrite length_insert. done.
    - assert (length (match deferreds s !! dispose_deferred (callback tm) with
                      | Some Pending =>
                          <[dispose_deferred (callback tm) := Rejected "Request timed out"]>
                            (deferreds s)
                      | _ => deferreds s
                      end) = length (deferreds s)) as ->.
      { repeat case_match; by rewrite ?length_insert. }
      split_and!; [done| |].
      + intros t' tm' [_ [_ Ho]%lookup_insert_None_Some]%lookup_insert_None_Some. eauto.
      + intros id' r [_ Ho]%lookup_delete_Some. eauto. }
  split_and!; try done.
  intros j t r Hj Hr.
  destruct (step_task_request s a j t r Hj Hr) as [Ho|(data & _ & _ & Ho)].
  - specialize (Hk _ _ _ Ho Hr). lia.
  - specialize (Hm _ _ Ho). lia.
Qed.

Lemma run_wellformed (actions : list Action) (s : State) :
  wellformed s → wellformed (run s actions).
Proof.
  revert s. induction actions as [|a actions IH]; intros s Hs; [done|].
  cbn. apply IH. by apply step_wellformed.
Qed.

Lemma new_wellformed (keys symKey : string) (peers0 : Peers) :
  wellformed (new keys symKey peers0).
Proof. split_and!; intros *; cbn; by rewrite ?lookup_empty, ?lookup_nil. Qed.

(** A settled deferred keeps its value. *)
Lemma step_settled (s : State) (a : Action) (d : nat) (v : DeferredState) :
  deferreds s !! d = Some v → v ≠ Pending → deferreds (step s a) !! d = Some v.
Proof.
  intros Hd Hv.
  destruct (step_request_effect s a)
    as [Hd' _ _|i ty ta ps _ _ _ Hd' _ _|i t r v' _ _ _ Hp Hd' _ _|t tm _ _ _ Hd' _ _];
    rewrite Hd'.
  - done.
  - by apply lookup_app_l_Some.
  - rewrite list_lookup_insert_ne; [done|]. intros <-. congruence.
  - destruct (deferreds s !! dispose_deferred (callback tm)) as [[]|] eqn:Hp; try done.
    rewrite list_lookup_insert_ne; [done|]. intros <-. congruence.
Qed.

(** An id below the counter that is not in the request map does not come
    back. *)
Lemma step_gone (s : State) (a : Action) (id : Z) :
  requestMap s !! id = None → (id < requestId s)%Z →
  requestMap (step s a) !! id = None ∧ (id < requestId (step s a))%Z.
Proof.
  intros Hnone Hlt. pose proof (step_requestId s a) as Hmono. split; [|lia].
  destruct (step_request_effect s a)
    as [_ _ Hrm|i ty ta ps _ _ _ _ _ Hrm|i t r v' _ _ _ _ _ _ Hrm|t tm _ _ _ _ _ Hrm];
    rewrite Hrm; try done.
  - rewrite lookup_insert_ne by lia. done.
  - apply lookup_delete_None. by right.
Qed.

Lemma run_timed_out (actions : list Action) (s : State) (id : Z) (d : nat) :
  deferreds s !! d = Some (Rejected "Request timed out") →
  requestMap s !! id = None → (id < requestId s)%Z →
  deferreds (run s actions) !! d = Some (Rejected "Request timed out")
  ∧ requestMap (run s actions) !! id = None.
Proof.
  revert s. induction actions as [|a actions IH]; intros s Hd Hnone Hlt; [done|].
  destruct (step_gone s a id Hnone Hlt). cbn. apply IH; try done.
  by apply step_settled.
Qed.

(** ** Timeouts *)

Lemma step_awaiting (id : Z) (d t : nat) (timer : Timer) (s : State) (a : Action) :
  awaiting id d t timer s → quiet id t a → awaiting id d t timer (step s a).
Proof.
  intros (Harmed & Hpending & Ht & Hm & Hk) Hquiet.
  assert (d < length (deferreds s)) as Hd_lt by (by eapply lookup_lt_Some).
  assert (t < length (timers s)) as Ht_lt by (by eapply lookup_lt_Some).
  assert (∀ j t' request, tasks (step s a) !! j = Some t' →
            task_request t' = Some request → response request ≠ d) as Hk'.
  { intros j t' r Hj Hr.
    destruct (step_task_request s a j t' r Hj Hr) as [Ho|(data & -> & Hresp & Ho)];
      [by eauto|].
    intros Heq. by apply (Hquiet Hresp), (Hm _ _ Ho). }
  destruct (step_request_effect s a)
    as [Hd Hti Hrm|i ty ta ps _ _ _ Hd Hti Hrm|i t0 r v _ Hi Hr _ Hd Hti Hrm
       |t0 tm -> Harmed0 _ Hd Hti Hrm];
    unfold awaiting; rewrite Hd, Hti, Hrm.
  - by split_and!.
  - split_and!; try done.
    + by apply lookup_app_l_Some.
    + by apply lookup_app_l_Some.
    + intros t' tm' [Ho|[-> [= ->]]]%lookup_snoc_Some; cbn; [by eauto|].
      split; [done|lia].
    + intros id' r' [[<- <-]|[_ Ho]]%lookup_insert_Some; cbn; [lia|by eauto].
  - assert (response r ≠ d) as Hne by (by eapply Hk).
    split_and!; try done. by rewrite list_lookup_insert_ne.
  - cbn in Hquiet. destruct (Ht _ _ Harmed0) as [Hown Hother].
    specialize (Hother Hquiet). rewrite Hown.
    split_and!; try done.
    + by rewrite !list_lookup_insert_ne.
    + repeat case_match; try done. by rewrite list_lookup_insert_ne.
    + intros t' tm' [_ [_ Ho]%lookup_insert_None_Some]%lookup_insert_None_Some. eauto.
    + intros id' r [_ Ho]%lookup_delete_Some. eauto.
Qed.

Lemma run_awaiting (id : Z) (d t : nat) (timer : Timer) (actions : list Action) (s : State) :
  awaiting id d t timer s → Forall (quiet id t) actions →
  awaiting id d t timer (run s actions).
Proof.
  revert s. induction actions as [|a actions IH]; intros s Hs Hq; [done|].
  apply Forall_cons in Hq as [Ha Hq]. cbn. apply IH; [|done]. by apply step_awaiting.
Qed.

(** Registration starts the wait. *)
Lemma register_awaiting (s : State) (i : nat) (type target : string)
    (parameters : list Value) :
  wellformed s →
  tasks s !! i = Some (Some (sendRequest_ready type target parameters)) →
  _ready s = true →
  awaiting (requestId s) (length (deferreds s)) (length (timers s))
    {| deadline := now s + 60000;
       callback := {| dispose_id := requestId s; dispose_timeout := length (timers s);
                      dispose_deferred := length (deferreds s) |} |}
    (resume i s).
Proof.
  intros (Ht & Hm & Hk) Hi Hr.
  destruct (sendRequest_registers s i type target parameters Hi Hr) as (Hrm & Hd & Hti & _).
  cbn zeta in *.
  assert (requestMap (resume i s)
          = <[requestId s := {| id := requestId s; response := length (deferreds s);
                request_dispose := {| dispose_id := requestId s;
                                      dispose_timeout := length (timers s);
                                      dispose_deferred := length (deferreds s) |} |}]>
              (requestMap s)) as Hrm'.
  { erewrite resume_continue by done. run_methods; done. }
  unfold awaiting. rewrite Hd, Hti, Hrm'. split_and!.
  - apply lookup_last.
  - apply lookup_last.
  - intros t' tm' [Ho|[-> [= ->]]]%lookup_snoc_Some; cbn; [|done].
    destruct (Ht _ _ Ho). split; [done|lia].
  - intros id' r [[<- <-]|[_ Ho]]%lookup_insert_Some; cbn; [done|].
    specialize (Hm _ _ Ho). lia.
  - intros j t' r Hj Hreq.
    destruct (step_task_request s (Resume i) j t' r Hj Hreq) as [Ho|(data & [=] & _)].
    specialize (Hk _ _ _ Ho Hreq). lia.
Qed.

(** C4: take any run of a connection up to the point where a
    [sendRequest] resumes on the ready connection and registers its
    request, and let anything follow except the arrival of a response or
    response error for the request's id and the firing of the request's
    timer.  Then the request is still pending.  Its timer does nothing
    before 60 000 ms have passed since the registration; once they have,
    the timer rejects the request with the timeout error and removes its id
    from the request map, and a response or response error that arrives
    for that id then settles nothing and is answered by nothing.  If the
    request was registered while the counter still counted exactly, this
    stays so whatever happens afterwards: the request stays rejected with
    the timeout error, its id stays out of the request map, and a response
    or response error for it is dropped. *)
Theorem request_times_out (keys symKey : string) (peers0 : Peers)
    (earlier later : list Action) (i : nat) (type target : string)
    (parameters : list Value) :
  let s := run (new keys symKey peers0) earlier in
  let id := requestId s in
  let deferred := length (deferreds s) in
  let t := length (timers s) in
  tasks s !! i = Some (Some (sendRequest_ready type target parameters)) →
  _ready s = true →
  Forall (quiet id t) later →
  let s1 := run (resume i s) later in
  deferreds s1 !! deferred = Some Pending
  ∧ ((now s1 < now s + 60000)%Z → timeout t s1 = s1)
  ∧ ((now s + 60000 ≤ now s1)%Z →
     let s2 := timeout t s1 in
     deferreds s2 !! deferred = Some (Rejected "Request timed out")
     ∧ requestMap s2 !! id = None
     ∧ (∀ data,
          is_response (bin_content data) →
          message_id (bin_content data) = id →
          let s3 := resume (length (tasks s2)) (transport_read data s2) in
          deferreds s3 = deferreds s2
          ∧ requestMap s3 = requestMap s2
          ∧ written s3 = written s2)
     ∧ ((requestId s < 2 ^ 53)%Z →
        ∀ afterwards data,
          is_response (bin_content data) →
          message_id (bin_content data) = id →
          let s3 := run s2 afterwards in
          let s4 := resume (length (tasks s3)) (transport_read data s3) in
          deferreds s3 !! deferred = Some (Rejected "Request timed out")
          ∧ requestMap s3 !! id = None
          ∧ deferreds s4 = deferreds s3
          ∧ requestMap s4 = requestMap s3
          ∧ written s4 = written s3)).
Proof.
  cbn zeta. intros Hi Hr Hquiet.
  set (s := run (new keys symKey peers0) earlier) in *.
  assert (wellformed s) as Hwf by apply run_wellformed, new_wellformed.
  pose proof (run_awaiting _ _ _ _ later _
                (register_awaiting s i type target parameters Hwf Hi Hr) Hquiet)
    as (Harmed & Hpending & _).
  destruct (timeout_rejects _ _ _ Harmed eq_refl Hpending) as [Hearly Hdue].
  cbn in Hearly, Hdue. split_and!; [done|done|].
  intros Hnow. destruct (Hdue Hnow) as (Hrej & Hgone & _).
  split_and!; [done|done| |].
  - intros data Hresp Hid.
    destruct (response_without_request_is_dropped
                (timeout (length (timers s)) (run (resume i s) later)) data Hresp)
      as (? & ? & ? & ? & ?); [by rewrite Hid|done].
  - intros Hlt afterwards data Hresp Hid.
    assert (requestId s < requestId (timeout (length (timers s)) (run (resume i s) later)))%Z
      as Hbelow.
    { pose proof (allocates_registers s (Resume i)) as Ha.
      unfold allocates in Ha. rewrite Hi, Hr in Ha. destruct Ha as (_ & Hnext & _).
      cbn [step] in Hnext. unfold increment in Hnext. case_match; [|lia].
      assert (∀ actions u, requestId u ≤ requestId (run u actions))%Z as Hmono.
      { induction actions as [|a actions IH]; intros u; [done|].
        cbn. etrans; [apply (step_requestId u a)|apply IH]. }
      pose proof (Hmono later (resume i s)).
      pose proof (step_requestId (run (resume i s) later) (Timeout (length (timers s)))).
      cbn [step] in *. lia. }
    destruct (run_timed_out afterwards _ _ _ Hrej Hgone Hbelow) as [Hrej' Hgone'].
    destruct (response_without_request_is_dropped
                (run (timeout (length (timers s)) (run (resume i s) later)) afterwards)
                data Hresp) as (? & ? & ? & ? & ?);
      [rewrite Hid; exact Hgone'|done].
Qed.

Lemma request_times_out_witness :
  let s1 := run (new "pk-alice" "K" alice)
              [Ready; SendRequest "echo" "bob" ["hi"]; Resume 0; Resume 0; Elapse 60000] in
  let s2 := timeout 0 s1 in
  let s3 := run s2 [SendRequest "echo" "bob" ["again"]; Resume 1; Resume 1] in
  let s4 := resume 2 (transport_read (response_from_bob 1 "late") s3) in
  deferreds s1 !! 0 = Some Pending
  ∧ deferreds s2 !! 0 = Some (Rejected "Request timed out")
  ∧ requestMap s2 !! 1%Z = None
  ∧ deferreds s3 !! 0 = Some (Rejected "Request timed out")
  ∧ requestMap s3 !! 1%Z = None
  ∧ deferreds s4 = deferreds s3
  ∧ written s4 = written s3.
Proof.
  destruct (request_times_out "pk-alice" "K" alice
              [Ready; SendRequest "echo" "bob" ["hi"]] [Resume 0; Elapse 60000]
              0 "echo" "bob" ["hi"]) as (Hpending & _ & Hdue).
  - vm_compute. reflexivity.
  - vm_compute. reflexivity.
  - repeat constructor.
  - destruct Hdue as (Hrej & Hgone & _ & Hlate).
    + vm_compute. discriminate.
    + destruct (Hlate eq_refl [SendRequest "echo" "bob" ["again"]; Resume 1; Resume 1]
                  (response_from_bob 1 "late")) as (Hrej' & Hgone' & Hd & _ & Hw).
      * exact I.
      * reflexivity.
      * split_and!; [exact Hpending|exact Hrej|exact Hgone|exact Hrej'|exact Hgone'
                    |exact Hd|exact Hw].
Defined.

(** ** Entries of the request map *)

Lemma step_ids_below_counter (s : State) (a : Action) :
  ids_below_counter s → ids_below_counter (step s a).
Proof.
  intros Hs Hlt. pose proof (step_requestId s a) as Hmono.
  assert (requestId s < 2 ^ 53)%Z as Hlt0 by lia. specialize (Hs Hlt0).
  destruct (step_request_effect s a)
    as [Hd Hti Hrm|i ty ta ps -> Hi Hr Hd Hti Hrm|i t r v _ _ _ _ Hd Hti Hrm
       |t tm _ Harmed _ Hd Hti Hrm];
    rewrite Hti.
  - intros t tm Ho. specialize (Hs _ _ Ho). lia.
  - pose proof (allocates_registers s (Resume i)) as Ha.
    unfold allocates in Ha. rewrite Hi, Hr in Ha. destruct Ha as (_ & Hnext & _).
    rewrite Hnext. unfold increment. case_match; [|lia].
    intros t tm [Ho|[-> [= ->]]]%lookup_snoc_Some; cbn; [|lia].
    specialize (Hs _ _ Ho). lia.
  - intros t' tm' Ho. specialize (Hs _ _ Ho). lia.
  - intros t' tm' [_ [_ Ho]%lookup_insert_None_Some]%lookup_insert_None_Some.
    specialize (Hs _ _ Ho). lia.
Qed.

Lemma run_ids_below_counter (actions : list Action) (s : State) :
  ids_below_counter s → ids_below_counter (run s actions).
Proof.
  revert s. induction actions as [|a actions IH]; intros s Hs; [done|].
  cbn. apply IH. by apply step_ids_below_counter.
Qed.

Lemma step_registered (id : Z) (t : nat) (timer : Timer) (request : RelayedRequest)
    (s : State) (a : Action) :
  registered id t timer request s → a ≠ Timeout t →
  registered id t timer request (step s a).
Proof.
  intros (Harmed & Hentry & Hlt & Ht) Hquiet.
  pose proof (step_requestId s a) as Hmono.
  assert (t < length (timers s)) as Ht_lt by (by eapply lookup_lt_Some).
  destruct (step_request_effect s a)
    as [Hd Hti Hrm|i ty ta ps _ _ _ Hd Hti Hrm|i t0 r v _ _ _ _ Hd Hti Hrm
       |t0 tm -> Harmed0 _ Hd Hti Hrm];
    unfold registered; rewrite Hti, Hrm.
  - split_and!; [done|done|lia|done].
  - split_and!.
    + by apply lookup_app_l_Some.
    + rewrite lookup_insert_ne by lia. done.
    + lia.
    + intros t' tm' [Ho|[-> [= ->]]]%lookup_snoc_Some; cbn; [by eauto|].
      split; [done|lia].
  - split_and!; [done|done|lia|done].
  - assert (t0 ≠ t) as Hne by congruence.
    destruct (Ht _ _ Harmed0) as [Hown Hother]. specialize (Hother Hne). rewrite Hown.
    split_and!.
    + by rewrite !list_lookup_insert_ne.
    + by rewrite lookup_delete_ne.
    + lia.
    + intros t' tm' [_ [_ Ho]%lookup_insert_None_Some]%lookup_insert_None_Some. eauto.
Qed.

Lemma run_registered (id : Z) (t : nat) (timer : Timer) (request : RelayedRequest)
    (actions : list Action) (s : State) :
  registered id t timer request s → Timeout t ∉ actions →
  registered id t timer request (run s actions).
Proof.
  revert s. induction actions as [|a actions IH]; intros s Hs Hq; [done|].
  cbn. apply IH; [|set_solver]. apply step_registered; [done|set_solver].
Qed.

Lemma register_registered (s : State) (i : nat) (type target : string)
    (parameters : list Value) :
  wellformed s → ids_below_counter s → (requestId s < 2 ^ 53)%Z →
  tasks s !! i = Some (Some (sendRequest_ready type target parameters)) →
  _ready s = true →
  let dispose := {| dispose_id := requestId s; dispose_timeout := length (timers s);
                    dispose_deferred := length (deferreds s) |} in
  registered (requestId s) (length (timers s))
    {| deadline := now s + 60000; callback := dispose |}
    {| id := requestId s; response := length (deferreds s); request_dispose := dispose |}
    (resume i s).
Proof.
  intros (Ht & _) Hids Hlt Hi Hr. specialize (Hids Hlt).
  destruct (sendRequest_registers s i type target parameters Hi Hr) as (Hrm & Hd & Hti & _).
  pose proof (allocates_registers s (Resume i)) as Ha.
  unfold allocates in Ha. rewrite Hi, Hr in Ha. destruct Ha as (_ & Hnext & _).
  cbn zeta in *. unfold registered. cbn [step] in Hnext. rewrite Hti, Hnext.
  split_and!.
  - apply lookup_last.
  - done.
  - unfold increment. case_match; lia.
  - intros t' tm' [Ho|[-> [= ->]]]%lookup_snoc_Some; cbn; [|done].
    destruct (Ht _ _ Ho). specialize (Hids _ _ Ho). split; [done|lia].
Qed.

(** C10: take any run of a connection up to the point where a
    [sendRequest] resumes on the ready connection and registers its
    request (the counter still counts exactly), and let anything follow
    except the firing of the request's timer.  Then the entry is still in
    the request map and its timer is still armed, whatever responses have
    arrived.  A response or response error that arrives for the id and
    decrypts settles the request's deferred, if pending, and leaves the
    entry and the timer in place.  No action but the firing of that timer
    removes the entry.  The timer does nothing before 60 000 ms have passed
    since the registration; once they have, it removes the entry, and if
    the deferred was settled it changes nothing else: no deferred, no
    task, and nothing is logged or written. *)
Theorem entry_stays_until_timer (keys symKey : string) (peers0 : Peers)
    (earlier later : list Action) (i : nat) (type target : string)
    (parameters : list Value) :
  let s := run (new keys symKey peers0) earlier in
  let id := requestId s in
  let deferred := length (deferreds s) in
  let t := length (timers s) in
  let dispose := {| dispose_id := id; dispose_timeout := t; dispose_deferred := deferred |} in
  let timer := {| deadline := now s + 60000; callback := dispose |} in
  let request := {| id := id; response := deferred; request_dispose := dispose |} in
  tasks s !! i = Some (Some (sendRequest_ready type target parameters)) →
  _ready s = true →
  (requestId s < 2 ^ 53)%Z →
  Timeout t ∉ later →
  let s1 := run (resume i s) later in
  requestMap s1 !! id = Some request
  ∧ timers s1 !! t = Some (Some timer)
  ∧ (∀ data decrypted,
       is_response (bin_content data) →
       message_id (bin_content data) = id →
       (decrypt data (cleanupCaches s1)).1 = Ok decrypted →
       let s2 := resume (length (tasks s1)) (transport_read data s1) in
       requestMap s2 = requestMap s1
       ∧ timers s2 = timers s1
       ∧ (deferreds s1 !! deferred = Some Pending →
          deferreds s2 !! deferred = Some (settles (bin_content data))))
  ∧ (∀ a, requestMap (step s1 a) !! id = None → a = Timeout t)
  ∧ ((now s1 < now s + 60000)%Z → timeout t s1 = s1)
  ∧ ((now s + 60000 ≤ now s1)%Z →
     let s2 := timeout t s1 in
     requestMap s2 !! id = None
     ∧ timers s2 !! t = Some None
     ∧ (deferreds s1 !! deferred ≠ Some Pending →
        deferreds s2 = deferreds s1 ∧ trace s2 = trace s1 ∧ tasks s2 = tasks s1)).
Proof.
  cbn zeta. intros Hi Hr Hlt Hquiet.
  set (s := run (new keys symKey peers0) earlier) in *.
  assert (wellformed s) as Hwf by apply run_wellformed, new_wellformed.
  assert (ids_below_counter s) as Hids.
  { apply run_ids_below_counter. intros _ t tm. cbn. by rewrite lookup_nil. }
  pose proof (run_registered _ _ _ _ later _
                (register_registered s i type target parameters Hwf Hids Hlt Hi Hr) Hquiet)
    as (Harmed & Hentry & _ & Hothers).
  set (s1 := run (resume i s) later) in *.
  split_and!; [done|done| | | |].
  - intros data decrypted Hresp Hid Hdec. rewrite <- Hid in Hentry.
    destruct (response_settles s1 data _ decrypted Hresp Hentry Hdec) as (? & ? & _ & ?).
    done.
  - intros a Hgone.
    destruct (requestMap_delete_only_by_timer s1 a (requestId s)) as (t' & tm' & -> & Ht' & Hid' & _);
      [by rewrite Hentry|done|].
    destruct (Hothers _ _ Ht') as [_ Hne].
    destruct (decide (t' = length (timers s))) as [->|Hdiff]; [done|].
    by destruct (Hne Hdiff).
  - unfold timeout. rewrite Harmed. cbn. intros Hnow. case_decide; [lia|done].
  - intros Hnow.
    destruct (timeout_removes_entry s1 _ _ Harmed eq_refl Hnow) as [Hgone Hcleared].
    split_and!; [done|done|].
    intros Hsettled.
    destruct (timeout_after_settlement s1 _ _ Harmed Hnow Hsettled) as (_ & _ & ? & ? & ?).
    done.
Qed.

Lemma entry_stays_until_timer_witness :
  let s1 := run (new "pk-alice" "K" alice)
              [OnRequest "echo" echo; OnDisconnect 0; Ready;
               SendRequest "echo" "bob" ["hi"]; Resume 0; Resume 0;
               TransportRead (response_from_bob 1 "hi"); Resume 1; Elapse 60000] in
  let s2 := timeout 0 s1 in
  deferreds s1 !! 0 = Some (Resolved "hi")
  ∧ requestMap s1 !! 1%Z
    = Some {| id := 1; response := 0;
              request_dispose := {| dispose_id := 1; dispose_timeout := 0;
                                    dispose_deferred := 0 |} |}
  ∧ timers s1 !! 0
    = Some (Some {| deadline := 60000;
                    callback := {| dispose_id := 1; dispose_timeout := 0;
                                   dispose_deferred := 0 |} |})
  ∧ requestMap s2 !! 1%Z = None
  ∧ deferreds s2 = deferreds s1
  ∧ trace s2 = trace s1.
Proof.
  destruct (entry_stays_until_timer "pk-alice" "K" alice
              [OnRequest "echo" echo; OnDisconnect 0; Ready; SendRequest "echo" "bob" ["hi"]]
              [Resume 0; TransportRead (response_from_bob 1 "hi"); Resume 1; Elapse 60000]
              0 "echo" "bob" ["hi"]) as (Hentry & Harmed & _ & _ & _ & Hdue).
  - vm_compute. reflexivity.
  - vm_compute. reflexivity.
  - vm_compute. reflexivity.
  - intros Hin. repeat (apply elem_of_cons in Hin as [Hin|Hin]; [discriminate|]).
    by apply elem_of_nil in Hin.
  - destruct Hdue as (Hgone & _ & Hsettled).
    + vm_compute. discriminate.
    + destruct Hsettled as (Hd & Htr & _).
      * vm_compute. discriminate.
      * split_and!.
        -- vm_compute. reflexivity.
        -- exact Hentry.
        -- exact Harmed.
        -- exact Hgone.
        -- exact Hd.
        -- exact Htr.
Defined.

(** ** Running one task to its end *)

Lemma encryptSymmetricKey_set_tasks (T : list (option Task)) (s : State) (k : string) :
  encryptSymmetricKey (set_tasks T s) k = set_tasks T (encryptSymmetricKey s k).
Proof. unfold encryptSymmetricKey. cbn. by case_match. Qed.

Lemma encrypt_set_tasks (message : Message) (publicKeys : list string) (s s' : State) :
  s' = set_tasks (tasks s') s →
  encrypt message publicKeys s'
  = ((encrypt message publicKeys s).1, set_tasks (tasks s') (encrypt message publicKeys s).2).
Proof.
  intros ->. cbn [tasks set_tasks]. generalize (tasks s') as T. intros T.
  assert (∀ ks u, foldl encryptSymmetricKey (set_tasks T u) ks
                  = set_tasks T (foldl encryptSymmetricKey u ks)) as Hfold.
  { induction ks as [|k ks IH]; intros u; [done|].
    cbn [foldl]. by rewrite encryptSymmetricKey_set_tasks, IH. }
  unfold encrypt. destruct publicKeys as [|k ks]; [done|].
  rewrite Hfold. done.
Qed.

(** The code after an [await] neither reads nor writes the list of tasks. *)
Lemma continue_set_tasks (T : list (option Task)) (t : Task) (s : State) :
  continue t (set_tasks T s) = (set_tasks T (continue t s).1, (continue t s).2).
Proof.
  destruct t; unfold_methods; cbn;
    repeat (first
      [ match goal with
        | |- context [encrypt ?m ?ks ?u1] =>
            match goal with
            | |- context [encrypt m ks ?u2] =>
                assert_fails (constr_eq u1 u2);
                rewrite (encrypt_set_tasks m ks u2 u1) by reflexivity
            end
        end
      | match goal with
        | |- context [encrypt ?m ?ks ?u] => destruct (encrypt m ks u)
        end
      | case_decide
      | case_match ]; cbn in *);
    done.
Qed.

Lemma resumes_None (n : nat) (s : State) : resumes n None s = (s, None).
Proof. by destruct n. Qed.

Lemma resumes_blocked (n : nat) (t : Task) (s : State) :
  runnable s t = false → resumes n (Some t) s = (s, Some t).
Proof. intros Hr. destruct n; [done|]. cbn. by rewrite Hr. Qed.

(** A task in the last slot, resumed [n] times in a row. *)
Lemma run_resumes (n : nat) (t : option Task) (s : State) :
  run (set_tasks (tasks s ++ [t]) s) (replicate n (Resume (length (tasks s))))
  = set_tasks (tasks s ++ [(resumes n t s).2]) (resumes n t s).1.
Proof.
  revert t s. induction n as [|n IH]; intros t s; [done|].
  cbn [replicate]. unfold run in *. cbn [foldl step].
  destruct t as [t|].
  - destruct (runnable s t) eqn:Hr.
    + erewrite resume_continue; [|apply lookup_last|done].
      rewrite continue_set_tasks. cbn [fst snd tasks set_tasks].
      destruct (continue_task_request t s) as [_ Ht].
      rewrite insert_last.
      change (set_tasks ?T (set_tasks _ ?u)) with (set_tasks T u).
      cbn [resumes]. rewrite Hr. rewrite <- Ht. apply IH.
    + unfold resume. cbn [tasks set_tasks]. rewrite lookup_last.
      replace (runnable (set_tasks (tasks s ++ [Some t]) s) t) with false
        by (by destruct t).
      rewrite IH. by rewrite !resumes_blocked.
  - unfold resume. cbn [tasks set_tasks]. rewrite lookup_last.
    rewrite IH. by rewrite !resumes_None.
Qed.

(** An inbound message, then its task resumed [n] times in a row: the
    arrival changes the caches at most, and the task runs in that state. *)
Lemma transport_read_resumes (data : BinaryMessage) (s : State) :
  ∃ encryptionCache decryptionCache events,
    Forall is_seal events
    ∧ let s1 :=
        set_trace (trace s ++ events)
          (set_decryptionKeyCache decryptionCache
             (set_encryptionKeyCache encryptionCache s)) in
      let t :=
        arrival data (requestMap s !! message_id (bin_content data))
          (decrypt data (cleanupCaches s)).1 in
      trace (transport_read data s) = trace s ++ events
      ∧ ∀ n, run s (TransportRead data :: replicate n (Resume (length (tasks s))))
             = set_tasks (tasks s ++ [(resumes n (Some t) s1).2]) (resumes n (Some t) s1).1.
Proof.
  assert (∃ encryptionCache decryptionCache events,
    Forall is_seal events
    ∧ transport_read data s
      = set_tasks (tasks s ++ [Some (arrival data (requestMap s !! message_id (bin_content data))
                                       (decrypt data (cleanupCaches s)).1)])
          (set_trace (trace s ++ events)
             (set_decryptionKeyCache decryptionCache
                (set_encryptionKeyCache encryptionCache s)))) as (enc & dec & ev & Hev & Hread).
  { unfold transport_read, handleMessage, call, arrival.
    destruct (bin_content data); crypto; frame_cleanupCaches; by eexists _, _, _. }
  exists enc, dec, ev. split; [done|]. cbn zeta. split; [by rewrite Hread|].
  intros n. unfold run. cbn [foldl step]. rewrite Hread.
  exact (run_resumes n _
           (set_trace (trace s ++ ev)
              (set_decryptionKeyCache dec (set_encryptionKeyCache enc s)))).
Qed.

Lemma decrypt_Ok (data : BinaryMessage) (s : State) (decrypted : Decrypted) :
  (decrypt data s).1 = Ok decrypted →
  decrypted = {| origin := bin_origin data; content := bin_content data |}.
Proof.
  destruct (decrypt data s) as [d s1] eqn:Hd.
  apply decrypt_inv in Hd as (? & ? & _ & _ & _ & _ & Hok).
  cbn. intros ->. destruct decrypted, Hok. cbn in *. congruence.
Qed.

Lemma resumes_S (n : nat) (t : Task) (s : State) :
  runnable s t = true →
  resumes (S n) (Some t) s = resumes n (continue t s).2 (continue t s).1.
Proof. intros Hr. cbn. by rewrite Hr. Qed.

Ltac unfold_methods_in H :=
  unfold continue,
    sendRequest_resumed, sendRequest_encrypted,
    sendNotification_resumed, sendNotification_encrypted,
    sendBroadcast_resumed, sendBroadcast_encrypted,
    handleResponse_decrypted, handleResponseError_decrypted,
    handleRequest_decrypted, handleRequest_handled, handleRequest_resumed,
    handleRequest_encrypted, handleRequest_encryptedError, handleRequest_catch,
    handleNotification_decrypted, handleError_decrypted,
    Deferred_resolve, Deferred_reject, Emitter_fire, write, console_error, emit in H.

(** Resumes the task once: the code up to its next [await] runs with what
    the hypotheses say of the handlers, the peers and the message. *)
Ltac task_step :=
  rewrite resumes_S by (cbn; first [done | assumption]);
  match goal with
  | |- context [resumes _ (continue ?t ?s).2 (continue ?t ?s).1] =>
      let E := fresh "E" in
      destruct (continue t s) as [? ?] eqn:E;
      unfold_methods_in E; cbn in E;
      repeat match goal with
        | H : ?l = _ |- _ =>
            lazymatch H with E => fail | _ => idtac end;
            rewrite H in E; cbn in E
        end;
      rewrite ?lookup_empty in E; cbn in E;
      repeat match type of E with
        | context [decide ?P] => destruct (decide P); [|done]; cbn in E
        end;
      repeat match type of E with
        | context [encrypt ?m ?ks ?u] =>
            let E' := fresh "E" in
            destruct (encrypt m ks u) as [? ?] eqn:E';
            apply encrypt_inv in E' as (? & ? & -> & ? & ? & ?);
            cbn in E
        end;
      repeat match goal with
        | H : match ?o with Ok _ => _ | Err _ => _ end |- _ =>
            destruct o; [destruct H as (? & ? & ?) | by destruct H]
        end;
      cbn in E; injection E as <- <-; cbn [fst snd]
  end.

(** The messages written by a trace that grew by seals, logs and calls. *)
Ltac written_events :=
  unfold written; cbn; rewrite ?omap_app;
  repeat match goal with
  | H : Forall is_seal ?ev |- context [omap _ ?ev] => rewrite (omap_is_seal ev H)
  end;
  rewrite ?omap_fired; cbn; rewrite ?app_nil_r.

Lemma invoked_not_seal (events : list Event) (method origin : string) (ps : list Value) :
  Forall is_seal events → Invoked method origin ps ∉ events.
Proof. intros H Hin. by apply (proj1 (Forall_forall _ _) H) in Hin. Qed.

(** ** Inbound requests, from arrival to answer *)

(** X1: a request that decrypts, for a method with a handler that returns,
    on a ready connection whose subclass knows the key of the origin: the
    handler is invoked with the origin and the parameters of the request,
    and exactly one message is written, the response that carries the id
    of the request and the result of the handler, sealed for the key of
    the origin alone. *)
Theorem handled_request_is_answered (s : State) (data : BinaryMessage)
    (method : string) (id : Z) (o t : string) (ps : list Value)
    (decrypted : Decrypted) (handler : Handler) (result : Value) (publicKey : string) :
  bin_content data = RequestMessage method id o t ps →
  (decrypt data (cleanupCaches s)).1 = Ok decrypted →
  messageHandlers s !! method = Some handler →
  handler (origin decrypted) ps = Returns result →
  _ready s = true →
  getPublicKey (peers s) (origin decrypted) = Ok publicKey →
  let i := length (tasks s) in
  let s' := run s [TransportRead data; Resume i; Resume i; Resume i; Resume i] in
  (∃ response,
     written s' = written s ++ [response]
     ∧ bin_content response = ResponseMessage id result
     ∧ (bin_keys response).*1 = [publicKey])
  ∧ (∃ events, trace s' = trace (transport_read data s)
                          ++ Invoked method (origin decrypted) ps :: events
               ∧ ∀ m o' ps', Invoked m o' ps' ∉ events)
  ∧ tasks s' = tasks s ++ [None].
Proof.
  intros Hc Hdec Hh Hres Hready Hkey i s'. subst i s'.
  destruct (transport_read_resumes data s) as (enc & dec & ev & Hev & Htr & Hrun).
  specialize (Hrun 4). cbn [replicate] in Hrun. rewrite Hrun, Htr, Hdec. clear Hrun Htr.
  apply decrypt_Ok in Hdec as ->. cbn in Hres, Hkey.
  unfold arrival. rewrite Hc.
  do 4 task_step. cbn [resumes fst snd]. split_and!.
  - written_events. eexists. done.
  - cbn. eexists. rewrite <- !app_assoc. split; [done|].
    intros m o' ps' [Hin|Hin]%elem_of_app.
    + by eapply invoked_not_seal.
    + by apply list_elem_of_singleton in Hin.
  - done.
Qed.

Lemma handled_request_is_answered_witness :
  let s' := run alice_waiting
              [TransportRead (request_from_bob "echo" 7); Resume 1; Resume 1; Resume 1; Resume 1] in
  (∃ response,
     written s' = written alice_waiting ++ [response]
     ∧ bin_content response = ResponseMessage 7 "hi"
     ∧ (bin_keys response).*1 = ["pk-bob"])
  ∧ (∃ events, trace s' = trace (transport_read (request_from_bob "echo" 7) alice_waiting)
                          ++ Invoked "echo" "bob" ["hi"] :: events
               ∧ ∀ m o' ps', Invoked m o' ps' ∉ events)
  ∧ tasks s' = tasks alice_waiting ++ [None].
Proof.
  apply (handled_request_is_answered alice_waiting (request_from_bob "echo" 7)
           "echo" 7 EmptyString "alice" ["hi"]
           {| origin := "bob"; content := RequestMessage "echo" 7 EmptyString "alice" ["hi"] |}
           echo "hi" "pk-bob"); vm_compute; reflexivity.
Defined.

(** X2: a request whose handler throws, or returns a promise that
    rejects, is answered by exactly one message: the response error that
    carries the id of the request and the text of the error, sealed for
    the key of the origin alone. *)
Theorem failed_request_is_answered (s : State) (data : BinaryMessage)
    (method : string) (id : Z) (o t : string) (ps : list Value)
    (decrypted : Decrypted) (handler : Handler) (error : string) (publicKey : string) :
  bin_content data = RequestMessage method id o t ps →
  (decrypt data (cleanupCaches s)).1 = Ok decrypted →
  messageHandlers s !! method = Some handler →
  handler (origin decrypted) ps = Rejects error ∨ handler (origin decrypted) ps = Throws error →
  getPublicKey (peers s) (origin decrypted) = Ok publicKey →
  let i := length (tasks s) in
  let s' := run s [TransportRead data; Resume i; Resume i; Resume i] in
  (∃ response,
     written s' = written s ++ [response]
     ∧ bin_content response = ResponseErrorMessage id error
     ∧ (bin_keys response).*1 = [publicKey])
  ∧ tasks s' = tasks s ++ [None].
Proof.
  intros Hc Hdec Hh Hres Hkey i s'. subst i s'.
  destruct (transport_read_resumes data s) as (enc & dec & ev & Hev & Htr & Hrun).
  specialize (Hrun 3). cbn [replicate] in Hrun. rewrite Hrun, Hdec. clear Hrun Htr.
  apply decrypt_Ok in Hdec as ->. cbn in Hres, Hkey.
  unfold arrival. rewrite Hc.
  destruct Hres as [Hres|Hres]; [do 3 task_step|do 2 task_step];
    cbn [resumes fst snd]; (split; [|done]); written_events; eexists; done.
Qed.

Lemma failed_request_is_answered_witness :
  let s := step alice_waiting (OnRequest "echo" failing) in
  let s' := run s [TransportRead (request_from_bob "echo" 7); Resume 1; Resume 1; Resume 1] in
  (∃ response,
     written s' = written s ++ [response]
     ∧ bin_content response = ResponseErrorMessage 7 "Error: boom"
     ∧ (bin_keys response).*1 = ["pk-bob"])
  ∧ tasks s' = tasks s ++ [None].
Proof.
  apply (failed_request_is_answered (step alice_waiting (OnRequest "echo" failing))
           (request_from_bob "echo" 7) "echo" 7 EmptyString "alice" ["hi"]
           {| origin := "bob"; content := RequestMessage "echo" 7 EmptyString "alice" ["hi"] |}
           failing "Error: boom" "pk-bob");
    first [by right | vm_compute; reflexivity].
Defined.

(** X3: a request from an origin whose key the subclass does not know: the
    handler is invoked, and whatever it does nothing is written; the
    [catch] block fails at [getPublicKey] too, and the connection logs
    one line. *)
Theorem request_from_unknown_origin (s : State) (data : BinaryMessage)
    (method : string) (id : Z) (o t : string) (ps : list Value)
    (decrypted : Decrypted) (handler : Handler) (error : string) :
  bin_content data = RequestMessage method id o t ps →
  (decrypt data (cleanupCaches s)).1 = Ok decrypted →
  messageHandlers s !! method = Some handler →
  _ready s = true →
  getPublicKey (peers s) (origin decrypted) = Err error →
  let i := length (tasks s) in
  let s' := run s [TransportRead data; Resume i; Resume i; Resume i] in
  written s' = written s
  ∧ trace s' = trace (transport_read data s)
               ++ [Invoked method (origin decrypted) ps;
                   ConsoleError "Failed to handle request message"]
  ∧ tasks s' = tasks s ++ [None].
Proof.
  intros Hc Hdec Hh Hready Hkey i s'. subst i s'.
  destruct (transport_read_resumes data s) as (enc & dec & ev & Hev & Htr & Hrun).
  specialize (Hrun 3). cbn [replicate] in Hrun. rewrite Hrun, Htr, Hdec. clear Hrun Htr.
  apply decrypt_Ok in Hdec as ->. cbn in Hkey.
  unfold arrival. rewrite Hc.
  destruct (handler (bin_origin data) ps) eqn:Hres;
    [do 3 task_step|do 2 task_step|do 1 task_step];
    cbn [resumes fst snd]; (split_and!; [|cbn; by rewrite <- !app_assoc|done]);
    written_events; done.
Qed.

Lemma request_from_unknown_origin_witness :
  let s := step alice_waiting (PeersChange (room [])) in
  let s' := run s [TransportRead (request_from_bob "echo" 7); Resume 1; Resume 1; Resume 1] in
  written s' = written s
  ∧ trace s' = trace (transport_read (request_from_bob "echo" 7) s)
               ++ [Invoked "echo" "bob" ["hi"];
                   ConsoleError "Failed to handle request message"]
  ∧ tasks s' = tasks s ++ [None].
Proof.
  apply (request_from_unknown_origin (step alice_waiting (PeersChange (room [])))
           (request_from_bob "echo" 7) "echo" 7 EmptyString "alice" ["hi"]
           {| origin := "bob"; content := RequestMessage "echo" 7 EmptyString "alice" ["hi"] |}
           echo "No public key"); vm_compute; reflexivity.
Defined.

(** ** Inbound notifications, broadcasts and errors *)

(** X4: a notification or a broadcast is never answered.  Whether it
    decrypts or not, whether a handler is registered or not, and whatever
    the handler does, its task ends at the first resumption with nothing
    written and no request touched.  When it decrypts and a handler is
    registered, the handler is invoked once, with the origin of the
    envelope and the parameters of the content; only a handler that throws
    leaves a line in the log, a promise that rejects is not looked at. *)
Theorem notification_is_never_answered (s : State) (data : BinaryMessage) :
  is_notification (bin_content data) →
  let i := length (tasks s) in
  let s' := run s [TransportRead data; Resume i] in
  written s' = written s
  ∧ tasks s' = tasks s ++ [None]
  ∧ deferreds s' = deferreds s
  ∧ requestMap s' = requestMap s
  ∧ ∀ decrypted handler,
      (decrypt data (cleanupCaches s)).1 = Ok decrypted →
      messageHandlers s !! content_method (content decrypted) = Some handler →
      trace s'
      = trace (transport_read data s)
        ++ Invoked (content_method (content decrypted)) (bin_origin data)
             (content_params (content decrypted))
           :: match handler (bin_origin data) (content_params (content decrypted)) with
              | Throws _ =>
                  [ConsoleError ("Failed to handle " +:+ kind (bin_content data) +:+ " message")]
              | _ => []
              end.
Proof.
  intros Hn i s'. subst i s'.
  destruct (transport_read_resumes data s) as (enc & dec & ev & Hev & Htr & Hrun).
  specialize (Hrun 1). cbn [replicate] in Hrun. rewrite Hrun, Htr. clear Hrun Htr.
  assert (arrival data (requestMap s !! message_id (bin_content data))
            (decrypt data (cleanupCaches s)).1
          = handleNotification_decrypt data (decrypt data (cleanupCaches s)).1) as ->.
  { unfold arrival. by destruct (bin_content data). }
  destruct (decrypt data (cleanupCaches s)).1 as [d|e] eqn:Hdec.
  - apply decrypt_Ok in Hdec as ->. cbn [content].
    destruct (messageHandlers s !! content_method (bin_content data)) as [h|] eqn:Hh.
    + destruct (h (bin_origin data) (content_params (bin_content data))) eqn:Hres;
        task_step; cbn [resumes fst snd]; (split_and!; try done);
        try (written_events; done).
      all: intros ?? [= <-] Hh'; cbn in *; simplify_eq;
        rewrite Hres; cbn; by rewrite <- ?app_assoc.
    + task_step. cbn [resumes fst snd]. split_and!; try done; [written_events; done|].
      intros ?? [= <-]. cbn. congruence.
  - task_step. cbn [resumes fst snd]. split_and!; try done. written_events. done.
Qed.

Lemma notification_is_never_answered_witness :
  let s := step alice_waiting (OnNotification "note" failing) in
  let s' := run s [TransportRead (notification_from "bob"); Resume 1] in
  (written s' = written s ∧ tasks s' = tasks s ++ [None])
  ∧ trace s' = trace (transport_read (notification_from "bob") s)
               ++ [Invoked "note" "bob" ["x"];
                   ConsoleError "Failed to handle notification message"].
Proof.
  destruct (notification_is_never_answered
              (step alice_waiting (OnNotification "note" failing)) (notification_from "bob"))
    as (Hw & Ht & _ & _ & Htr).
  - exact I.
  - split; [by split|].
    apply (Htr {| origin := "bob";
                  content := NotificationMessage "note" EmptyString "alice" ["x"] |} failing);
      vm_compute; reflexivity.
Defined.

(** X5: an error message that decrypts is delivered to every subscriber
    of [onError], in the order of subscription, and to nobody else;
    nothing is written. *)
Theorem error_message_reaches_subscribers (s : State) (data : BinaryMessage)
    (message : string) (decrypted : Decrypted) :
  bin_content data = ErrorMessage message →
  (decrypt data (cleanupCaches s)).1 = Ok decrypted →
  let i := length (tasks s) in
  let s' := run s [TransportRead data; Resume i] in
  trace s' = trace (transport_read data s)
             ++ map (λ l, Fired "onError" l message) (listeners (onErrorEmitter s))
  ∧ written s' = written s
  ∧ tasks s' = tasks s ++ [None].
Proof.
  intros Hc Hdec i s'. subst i s'.
  destruct (transport_read_resumes data s) as (enc & dec & ev & Hev & Htr & Hrun).
  specialize (Hrun 1). cbn [replicate] in Hrun. rewrite Hrun, Htr, Hdec. clear Hrun Htr.
  apply decrypt_Ok in Hdec as ->. unfold arrival. rewrite Hc.
  task_step. cbn [resumes fst snd]. split_and!; try done. written_events. done.
Qed.

Lemma error_message_reaches_subscribers_witness :
  let s := run alice_waiting [OnError 4; OnError 2] in
  let s' := run s [TransportRead (error_from_bob "room closed"); Resume 1] in
  trace s' = trace (transport_read (error_from_bob "room closed") s)
             ++ [Fired "onError" 4 "room closed"; Fired "onError" 2 "room closed"]
  ∧ written s' = written s
  ∧ tasks s' = tasks s ++ [None].
Proof.
  apply (error_message_reaches_subscribers (run alice_waiting [OnError 4; OnError 2])
           (error_from_bob "room closed") "room closed" {| origin := "bob"; content := ErrorMessage "room closed" |});
    vm_compute; reflexivity.
Defined.

(** X6: after [dispose()] an inbound request, notification, broadcast or
    error reaches nobody: no handler is invoked, no subscriber is
    notified and nothing is written; the connection only logs. *)
Theorem inbound_after_dispose_reaches_nobody (s : State) (data : BinaryMessage) :
  ¬ is_response (bin_content data) →
  let s0 := dispose s in
  let s' := run s0 [TransportRead data; Resume (length (tasks s0))] in
  written s' = written s0
  ∧ tasks s' = tasks s0 ++ [None]
  ∧ ∃ events, trace s' = trace s0 ++ events ∧ Forall is_internal events.
Proof.
  intros Hn s0 s'. subst s'.
  destruct (transport_read_resumes data s0) as (enc & dec & ev & Hev & Htr & Hrun).
  specialize (Hrun 1). cbn [replicate] in Hrun. rewrite Hrun. clear Hrun Htr.
  assert (Forall is_internal ev) as Hev'.
  { eapply Forall_impl; [exact Hev|]. by intros []. }
  assert (messageHandlers s0 = ∅) as Hh by done.
  assert (listeners (onErrorEmitter s0) = []) as Hl by done.
  clearbody s0.
  unfold arrival.
  destruct (bin_content data) eqn:Hc; try (by destruct Hn);
    (destruct (decrypt data (cleanupCaches s0)).1 as [d|e] eqn:Hdec;
     [apply decrypt_Ok in Hdec as ->|]);
    task_step; cbn [resumes fst snd].
  all: split_and!; try done; try (written_events; done).
  all: cbn; rewrite <- ?app_assoc; eexists; (split; [done|]).
  all: rewrite ?Hl; cbn; rewrite ?app_nil_r; try done.
  all: apply Forall_app; split; [done|by repeat constructor].
Qed.

Lemma inbound_after_dispose_reaches_nobody_witness :
  let s0 := dispose (step alice_waiting (OnError 4)) in
  let s' := run s0 [TransportRead (error_from_bob "room closed"); Resume (length (tasks s0))] in
  written s' = written s0
  ∧ tasks s' = tasks s0 ++ [None]
  ∧ ∃ events, trace s' = trace s0 ++ events ∧ Forall is_internal events.
Proof.
  apply (inbound_after_dispose_reaches_nobody (step alice_waiting (OnError 4))
           (error_from_bob "room closed")).
  simpl. intros H. exact H.
Defined.

(** ** Inbound responses *)

(** X7: a response, or response error, for a registered request settles
    the deferred of that request and of no other: with the content if it
    decrypts, with the decryption error (and a line in the log) if it does
    not.  A deferred that is already settled keeps its outcome.  The entry
    and its timer stay, and nothing is written. *)
Theorem response_settles_only_its_request (s : State) (data : BinaryMessage)
    (request : RelayedRequest) :
  is_response (bin_content data) →
  requestMap s !! message_id (bin_content data) = Some request →
  let i := length (tasks s) in
  let s' := run s [TransportRead data; Resume i] in
  deferreds s'
  = match deferreds s !! response request with
    | Some Pending =>
        <[response request :=
            match (decrypt data (cleanupCaches s)).1 with
            | Ok decrypted => settles (bin_content data)
            | Err error => Rejected error
            end]> (deferreds s)
    | _ => deferreds s
    end
  ∧ requestMap s' = requestMap s
  ∧ timers s' = timers s
  ∧ written s' = written s
  ∧ tasks s' = tasks s ++ [None].
Proof.
  intros Hr Hreq i s'. subst i s'.
  destruct (transport_read_resumes data s) as (enc & dec & ev & Hev & Htr & Hrun).
  specialize (Hrun 1). cbn [replicate] in Hrun. rewrite Hrun, Hreq. clear Hrun Htr.
  unfold arrival.
  destruct (bin_content data) as [? ? ? ? ?|mid value|mid text|? ? ? ?|? ? ?|?] eqn:Hc;
    try (by destruct Hr);
    (destruct (decrypt data (cleanupCaches s)).1 as [d|e] eqn:Hdec;
     [apply decrypt_Ok in Hdec as ->|]);
    (destruct (deferreds s !! response request) as [[]|] eqn:Hd);
    task_step; cbn [resumes fst snd]; split_and!; try done; written_events; done.
Qed.

Lemma response_settles_only_its_request_witness :
  let s' := run alice_waiting [TransportRead (forged_response 1 "hi"); Resume 1] in
  deferreds s' = [Rejected "Unauthenticated"]
  ∧ requestMap s' = requestMap alice_waiting
  ∧ timers s' = timers alice_waiting
  ∧ written s' = written alice_waiting
  ∧ tasks s' = tasks alice_waiting ++ [None].
Proof.
  apply (response_settles_only_its_request alice_waiting (forged_response 1 "hi")
           {| id := 1; response := 0;
              request_dispose := {| dispose_id := 1; dispose_timeout := 0;
                                    dispose_deferred := 0 |} |}).
  - exact I.
  - vm_compute. reflexivity.
Defined.

(** ** Outbound messages *)

(** A call of an [async] method, then its task resumed [n] times in a
    row. *)
Lemma call_resumes (s : State) (a : Action) (t : Task) (n : nat) :
  step s a = call (s, Some t) →
  run s (a :: replicate n (Resume (length (tasks s))))
  = set_tasks (tasks s ++ [(resumes n (Some t) s).2]) (resumes n (Some t) s).1.
Proof. intros Ha. unfold run. cbn [foldl]. rewrite Ha. apply run_resumes. Qed.

(** X8: [sendRequest] on a ready connection, to a target whose key the
    subclass knows: the request is registered under the current value of
    the counter with a fresh pending deferred, and exactly one message is
    written, the request that carries that same id, sealed for the key of
    the target alone. *)
Theorem request_is_written_under_its_id (s : State) (type target : string)
    (parameters : list Value) (publicKey : string) :
  _ready s = true →
  getPublicKey (peers s) target = Ok publicKey →
  let i := length (tasks s) in
  let s' := run s [SendRequest type target parameters; Resume i; Resume i] in
  (∃ message,
     written s' = written s ++ [message]
     ∧ bin_content message = RequestMessage type (requestId s) EmptyString target parameters
     ∧ (bin_keys message).*1 = [publicKey])
  ∧ (∃ request,
       requestMap s' = <[requestId s := request]> (requestMap s)
       ∧ id request = requestId s
       ∧ response request = length (deferreds s))
  ∧ deferreds s' = deferreds s ++ [Pending]
  ∧ tasks s' = tasks s ++ [None].
Proof.
  intros Hready Hkey i s'. subst i s'.
  pose proof (call_resumes s (SendRequest type target parameters)
                (sendRequest_ready type target parameters) 2 eq_refl) as Hrun.
  cbn [replicate] in Hrun. rewrite Hrun. clear Hrun.
  do 2 task_step. cbn [resumes fst snd]. split_and!; try done.
  - written_events. eexists. done.
  - cbn. eexists. done.
Qed.

Lemma request_is_written_under_its_id_witness :
  let s' := run alice_waiting [SendRequest "echo" "bob" ["again"]; Resume 1; Resume 1] in
  (∃ message,
     written s' = written alice_waiting ++ [message]
     ∧ bin_content message = RequestMessage "echo" 2 EmptyString "bob" ["again"]
     ∧ (bin_keys message).*1 = ["pk-bob"])
  ∧ (∃ request,
       requestMap s' = <[2%Z := request]> (requestMap alice_waiting)
       ∧ id request = 2%Z
       ∧ response request = 1)
  ∧ deferreds s' = deferreds alice_waiting ++ [Pending]
  ∧ tasks s' = tasks alice_waiting ++ [None].
Proof.
  apply (request_is_written_under_its_id alice_waiting "echo" "bob" ["again"] "pk-bob");
    vm_compute; reflexivity.
Defined.

(** X9: [sendNotification] on a ready connection, to a target whose key
    the subclass knows, writes exactly one message, the notification
    sealed for the key of the target alone, and registers nothing: the
    counter, the request map, the deferreds and the timers are as before.
    Nothing in it looks at whether [dispose()] has run. *)
Theorem notification_is_written (s : State) (type target : string)
    (parameters : list Value) (publicKey : string) :
  _ready s = true →
  getPublicKey (peers s) target = Ok publicKey →
  let i := length (tasks s) in
  let s' := run s [SendNotification type target parameters; Resume i; Resume i] in
  (∃ message,
     written s' = written s ++ [message]
     ∧ bin_content message = NotificationMessage type EmptyString target parameters
     ∧ (bin_keys message).*1 = [publicKey])
  ∧ requestId s' = requestId s
  ∧ requestMap s' = requestMap s
  ∧ deferreds s' = deferreds s
  ∧ timers s' = timers s
  ∧ tasks s' = tasks s ++ [None].
Proof.
  intros Hready Hkey i s'. subst i s'.
  pose proof (call_resumes s (SendNotification type target parameters)
                (sendNotification_ready type target parameters) 2 eq_refl) as Hrun.
  cbn [replicate] in Hrun. rewrite Hrun. clear Hrun.
  do 2 task_step. cbn [resumes fst snd]. split_and!; try done.
  written_events. eexists. done.
Qed.

Lemma notification_is_written_witness :
  let s := dispose alice_waiting in
  let s' := run s [SendNotification "note" "bob" ["x"]; Resume 1; Resume 1] in
  (∃ message,
     written s' = written s ++ [message]
     ∧ bin_content message = NotificationMessage "note" EmptyString "bob" ["x"]
     ∧ (bin_keys message).*1 = ["pk-bob"])
  ∧ requestId s' = requestId s
  ∧ requestMap s' = requestMap s
  ∧ deferreds s' = deferreds s
  ∧ timers s' = timers s
  ∧ tasks s' = tasks s ++ [None].
Proof.
  apply (notification_is_written (dispose alice_waiting) "note" "bob" ["x"] "pk-bob");
    vm_compute; reflexivity.
Defined.

(** X10: [sendBroadcast] on a ready connection whose subclass knows at
    least one key writes exactly one message, the broadcast, sealed for
    every key [getPublicKeys()] returns, in that order, and registers
    nothing. *)
Theorem broadcast_is_sealed_for_every_peer (s : State) (type : string)
    (parameters : list Value) :
  _ready s = true →
  getPublicKeys (peers s) ≠ [] →
  let i := length (tasks s) in
  let s' := run s [SendBroadcast type parameters; Resume i; Resume i] in
  (∃ message,
     written s' = written s ++ [message]
     ∧ bin_content message = BroadcastMessage type EmptyString parameters
     ∧ (bin_keys message).*1 = getPublicKeys (peers s))
  ∧ requestId s' = requestId s
  ∧ requestMap s' = requestMap s
  ∧ tasks s' = tasks s ++ [None].
Proof.
  intros Hready Hkeys i s'. subst i s'.
  pose proof (call_resumes s (SendBroadcast type parameters)
                (sendBroadcast_ready type parameters) 2 eq_refl) as Hrun.
  cbn [replicate] in Hrun. rewrite Hrun. clear Hrun.
  assert (0 < length (getPublicKeys (peers s))) as Hlen.
  { destruct (getPublicKeys (peers s)); [done|cbn; lia]. }
  do 2 task_step. cbn [resumes fst snd]. split_and!; try done.
  written_events. eexists. done.
Qed.

Lemma broadcast_is_sealed_for_every_peer_witness :
  let s := step (new "pk-alice" "K" (room three)) Ready in
  let s' := run s [SendBroadcast "note" ["x"]; Resume 0; Resume 0] in
  (∃ message,
     written s' = written s ++ [message]
     ∧ bin_content message = BroadcastMessage "note" EmptyString ["x"]
     ∧ (bin_keys message).*1 = ["pk-bob"; "pk-carol"; "pk-dave"])
  ∧ requestId s' = requestId s
  ∧ requestMap s' = requestMap s
  ∧ tasks s' = tasks s ++ [None].
Proof.
  apply (broadcast_is_sealed_for_every_peer (step (new "pk-alice" "K" (room three)) Ready)
           "note" ["x"]); vm_compute; [reflexivity|discriminate].
Defined.

(** X11: a send to a target whose key the subclass does not know writes
    nothing, and the call fails with the error of [getPublicKey].  For
    [sendNotification] nothing else happens.  [sendRequest] has by then
    taken an id, created its deferred, armed its timer and registered its
    entry: they stay behind, the deferred pending, until the timer runs. *)
Theorem send_to_unknown_target (s : State) (type target : string)
    (parameters : list Value) (error : string) :
  _ready s = true →
  getPublicKey (peers s) target = Err error →
  let i := length (tasks s) in
  (let s' := run s [SendNotification type target parameters; Resume i] in
   trace s' = trace s ++ [Threw "sendNotification" error]
   ∧ requestId s' = requestId s
   ∧ requestMap s' = requestMap s
   ∧ deferreds s' = deferreds s
   ∧ timers s' = timers s
   ∧ tasks s' = tasks s ++ [None])
  ∧ (let s' := run s [SendRequest type target parameters; Resume i] in
     let dispose := {| dispose_id := requestId s; dispose_timeout := length (timers s);
                       dispose_deferred := length (deferreds s) |} in
     trace s' = trace s ++ [Threw "sendRequest" error]
     ∧ requestId s' = increment (requestId s)
     ∧ requestMap s'
       = <[requestId s := {| id := requestId s; response := length (deferreds s);
                             request_dispose := dispose |}]> (requestMap s)
     ∧ deferreds s' = deferreds s ++ [Pending]
     ∧ timers s' = timers s ++ [Some {| deadline := now s + 60000; callback := dispose |}]
     ∧ tasks s' = tasks s ++ [None]).
Proof.
  intros Hready Hkey i. subst i. split.
  - pose proof (call_resumes s (SendNotification type target parameters)
                  (sendNotification_ready type target parameters) 1 eq_refl) as Hrun.
    cbn [replicate] in Hrun. cbn zeta. rewrite Hrun. clear Hrun.
    task_step. cbn [resumes fst snd]. by split_and!.
  - pose proof (call_resumes s (SendRequest type target parameters)
                  (sendRequest_ready type target parameters) 1 eq_refl) as Hrun.
    cbn [replicate] in Hrun. cbn zeta. rewrite Hrun. clear Hrun.
    task_step. cbn [resumes fst snd]. by split_and!.
Qed.

Lemma send_to_unknown_target_witness :
  let s := alice_waiting in
  let i := length (tasks s) in
  (let s' := run s [SendNotification "note" "carol" []; Resume i] in
   trace s' = trace s ++ [Threw "sendNotification" "No public key"]
   ∧ requestId s' = requestId s
   ∧ requestMap s' = requestMap s
   ∧ deferreds s' = deferreds s
   ∧ timers s' = timers s
   ∧ tasks s' = tasks s ++ [None])
  ∧ (let s' := run s [SendRequest "note" "carol" []; Resume i] in
     let dispose := {| dispose_id := requestId s; dispose_timeout := length (timers s);
                       dispose_deferred := length (deferreds s) |} in
     trace s' = trace s ++ [Threw "sendRequest" "No public key"]
     ∧ requestId s' = increment (requestId s)
     ∧ requestMap s'
       = <[requestId s := {| id := requestId s; response := length (deferreds s);
                             request_dispose := dispose |}]> (requestMap s)
     ∧ deferreds s' = deferreds s ++ [Pending]
     ∧ timers s' = timers s ++ [Some {| deadline := now s + 60000; callback := dispose |}]
     ∧ tasks s' = tasks s ++ [None]).
Proof.
  apply (send_to_unknown_target alice_waiting "note" "carol" [] "No public key");
    vm_compute; reflexivity.
Defined.

(** ** What a run keeps *)

Lemma step_ready (s : State) (a : Action) : _ready s = true → _ready (step s a) = true.
Proof. intros Hr. destruct a; run_methods; frame_cleanupCaches; done. Qed.

(** X12: [ready()] is final.  Once it has been called no action takes it
    back, [dispose()] included: a send made later is never held at the
    barrier, it runs as soon as the event loop resumes it. *)
Theorem ready_is_final (s : State) (actions : list Action) :
  _ready s = true ∨ Ready ∈ actions → _ready (run s actions) = true.
Proof.
  revert s. induction actions as [|a actions IH]; intros s [Hr|Hin].
  - done.
  - by apply not_elem_of_nil in Hin.
  - cbn. apply IH. left. by apply step_ready.
  - cbn. apply IH. apply elem_of_cons in Hin as [<-|Hin]; [by left|by right].
Qed.

Lemma ready_is_final_witness :
  _ready (run (new "pk-alice" "K" alice)
            [SendNotification "note" "bob" []; Ready; Dispose; TransportError "closed"; Resume 0])
  = true.
Proof.
  apply (ready_is_final (new "pk-alice" "K" alice)).
  right. apply elem_of_cons. right. apply elem_of_cons. by left.
Defined.

Lemma step_connection_listeners (s : State) (a : Action) (l : nat) :
  l ∈ listeners (onConnectionErrorEmitter s) →
  l ∈ listeners (onConnectionErrorEmitter (step s a)).
Proof.
  intros Hl. destruct a; run_methods; frame_cleanupCaches; try done.
  apply elem_of_app. by left.
Qed.

(** X13: a subscription to [onConnectionError] is never dropped.
    [dispose()] disposes the emitters of [onDisconnect] and [onError] but
    not this one, so whatever has happened since the subscription, a
    disposal included, the subscriber is notified of every error of the
    transport; the error then notifies the subscribers of [onDisconnect]
    that are left and disposes the transport. *)
Theorem connection_error_reaches_every_subscriber (s : State) (actions : list Action)
    (message : string) (l : nat) :
  l ∈ listeners (onConnectionErrorEmitter s) →
  let s1 := run s actions in
  let s2 := step s1 (TransportError message) in
  trace s2
  = trace s1
    ++ map (λ l, Fired "onConnectionError" l message) (listeners (onConnectionErrorEmitter s1))
    ++ map (λ l, Fired "onDisconnect" l EmptyString) (listeners (onDisconnectEmitter s1))
    ++ [TransportDispose]
  ∧ Fired "onConnectionError" l message ∈ trace s2
  ∧ listeners (onConnectionErrorEmitter s2) = listeners (onConnectionErrorEmitter s1)
  ∧ listeners (onDisconnectEmitter s2) = []
  ∧ listeners (onErrorEmitter s2) = [].
Proof.
  intros Hl s1 s2.
  assert (l ∈ listeners (onConnectionErrorEmitter s1)) as Hl1.
  { subst s1. clear s2. revert s Hl.
    induction actions as [|a actions IH]; intros s Hl; [done|].
    cbn. apply IH. by apply step_connection_listeners. }
  clearbody s1. subst s2. cbn. unfold_methods. cbn.
  rewrite <- !app_assoc. split_and!; try done.
  rewrite !elem_of_app. right. left.
  apply list_elem_of_fmap. by exists l.
Qed.

Lemma connection_error_reaches_every_subscriber_witness :
  let s := step (new "pk-alice" "K" alice) (OnConnectionError 3) in
  let s1 := run s [OnDisconnect 5; Dispose] in
  let s2 := step s1 (TransportError "socket closed") in
  trace s2
  = trace s1
    ++ map (λ l, Fired "onConnectionError" l "socket closed")
         (listeners (onConnectionErrorEmitter s1))
    ++ map (λ l, Fired "onDisconnect" l EmptyString) (listeners (onDisconnectEmitter s1))
    ++ [TransportDispose]
  ∧ Fired "onConnectionError" 3 "socket closed" ∈ trace s2
  ∧ listeners (onConnectionErrorEmitter s2) = listeners (onConnectionErrorEmitter s1)
  ∧ listeners (onDisconnectEmitter s2) = []
  ∧ listeners (onErrorEmitter s2) = [].
Proof.
  apply (connection_error_reaches_every_subscriber
           (step (new "pk-alice" "K" alice) (OnConnectionError 3))
           [OnDisconnect 5; Dispose] "socket closed" 3).
  simpl. apply elem_of_cons. by left.
Defined.

Lemma step_messageHandlers (s : State) (a : Action) :
  ¬ touches_handlers a → messageHandlers (step s a) = messageHandlers s.
Proof.
  intros Ha. destruct a; try (by destruct Ha); run_methods; frame_cleanupCaches; done.
Qed.

(** X14: handlers are registered by [onRequest], [onNotification] and
    [onBroadcast] and cleared by [dispose()], and by nothing else: across
    sends, inbound messages, resumed tasks, timers, [ready()] and changes
    of the peers, the handler of every method stays what it was. *)
Theorem handlers_stay_until_dispose (s : State) (actions : list Action) :
  Forall (λ a, ¬ touches_handlers a) actions →
  messageHandlers (run s actions) = messageHandlers s.
Proof.
  revert s. induction actions as [|a actions IH]; intros s Hq; [done|].
  apply Forall_cons in Hq as [Ha Hq]. cbn. rewrite IH by done.
  by apply step_messageHandlers.
Qed.

Lemma handlers_stay_until_dispose_witness :
  messageHandlers
    (run alice_waiting
       [TransportRead (request_from_bob "echo" 7); Resume 1; Ready; Elapse 61000; Timeout 0;
        PeersChange (room [])])
  = messageHandlers alice_waiting.
Proof.
  apply (handlers_stay_until_dispose alice_waiting).
  repeat constructor; simpl; intros H; exact H.
Defined.

(** ** The counter, the request map and the timers *)

(** An action either registers one request, with one deferred, one timer
    and one step of the counter, or leaves the three as many as they were. *)
Lemma step_counts (s : State) (a : Action) :
  (length (deferreds (step s a)) = S (length (deferreds s))
   ∧ length (timers (step s a)) = S (length (timers s))
   ∧ requestId (step s a) = increment (requestId s))
  ∨ (length (deferreds (step s a)) = length (deferreds s)
     ∧ length (timers (step s a)) = length (timers s)
     ∧ requestId (step s a) = requestId s).
Proof.
  pose proof (allocates_registers s a) as Ha.
  destruct (allocates s a) as [k|] eqn:Hal.
  - left. destruct Ha as (_ & Hid & _).
    destruct a; try done. cbn in Hal.
    destruct (tasks s !! task) as [[[]|]|] eqn:Ht; try done.
    destruct (_ready s) eqn:Hr; [|done].
    destruct (sendRequest_registers s task _ _ _ Ht Hr) as (_ & Hd & Hti & _).
    cbn [step]. rewrite Hd, Hti, !length_app. cbn. split_and!; first [lia|done].
  - right.
    destruct (step_request_effect s a)
      as [Hd Hti _|i ty ta ps -> Hi Hr _ _ _|i t r v _ _ _ _ Hd Hti _|t tm _ _ _ Hd Hti _].
    + by rewrite Hd, Hti.
    + cbn in Hal. by rewrite Hi, Hr in Hal.
    + by rewrite Hd, Hti, length_insert.
    + rewrite Hd, Hti, !length_insert. split_and!; [|done|done].
      repeat case_match; by rewrite ?length_insert.
Qed.

Lemma step_counter_invariant (s : State) (a : Action) :
  counter_invariant s → counter_invariant (step s a).
Proof.
  unfold counter_invariant. intros [Hlen Hid].
  destruct (step_counts s a) as [(Hd & Ht & Hn)|(Hd & Ht & Hn)]; rewrite Hd, Ht, Hn.
  - split; [lia|]. rewrite Hid. unfold increment. case_match; lia.
  - split; [lia|]. by rewrite Hid.
Qed.

(** X15: in every state a connection reaches, the counter of request ids
    is one more than the number of requests registered so far, which is
    the number of deferreds and of timers created, and from [2^53] on,
    where a JavaScript number no longer counts, it stays at [2^53]. *)
Theorem counter_counts_requests (keys symKey : string) (peers0 : Peers)
    (actions : list Action) :
  let s := run (new keys symKey peers0) actions in
  length (timers s) = length (deferreds s)
  ∧ requestId s = Z.min (1 + Z.of_nat (length (deferreds s))) (2 ^ 53).
Proof.
  cbn zeta.
  assert (∀ s, counter_invariant s → counter_invariant (run s actions)) as Hrun.
  { induction actions as [|a actions IH]; intros s Hs; [done|].
    cbn. apply IH. by apply step_counter_invariant. }
  by apply Hrun.
Qed.

Lemma step_now (s : State) (a : Action) : (now s ≤ now (step s a))%Z.
Proof. destruct a; run_methods; frame_cleanupCaches; lia. Qed.

Lemma step_entries_invariant (s : State) (a : Action) :
  entries_invariant s → entries_invariant (step s a).
Proof.
  intros [Ht Hm]. pose proof (step_now s a) as Hnow.
  destruct (step_request_effect s a)
    as [_ Hti Hrm|i ty ta ps _ _ _ _ Hti Hrm|i t r v _ _ _ _ _ Hti Hrm|t tm _ Harmed _ _ Hti Hrm];
    split; rewrite ?Hti, ?Hrm.
  - intros t tm Ho. destruct (Ht _ _ Ho). split; [done|lia].
  - done.
  - intros t tm [Ho|[-> [= ->]]]%lookup_snoc_Some; cbn; [|split; [done|lia]].
    destruct (Ht _ _ Ho). split; [done|lia].
  - intros k r [[<- <-]|[Hne Ho]]%lookup_insert_Some; cbn.
    + split_and!; try done. eexists. split; [apply lookup_last|done].
    + destruct (Hm _ _ Ho) as (? & ? & ? & tm & Htm & ?). split_and!; try done.
      exists tm. split; [by apply lookup_app_l_Some|done].
  - intros t' tm Ho. destruct (Ht _ _ Ho). split; [done|lia].
  - done.
  - intros t' tm' [_ [_ Ho]%lookup_insert_None_Some]%lookup_insert_None_Some.
    destruct (Ht _ _ Ho). split; [done|lia].
  - intros k r [Hne Ho]%lookup_delete_Some.
    destruct (Hm _ _ Ho) as (? & Hk & ? & tm' & Htm' & Hcb). split_and!; try done.
    exists tm'. split; [|done].
    destruct (Ht _ _ Harmed) as [Hown _].
    assert (dispose_timeout (request_dispose r) ≠ t) as Hdiff.
    { intros Heq. rewrite Heq, Harmed in Htm'. injection Htm' as ->. congruence. }
    rewrite Hown. by rewrite !list_lookup_insert_ne.
Qed.

Lemma run_entries_invariant (actions : list Action) (s : State) :
  entries_invariant s → entries_invariant (run s actions).
Proof.
  revert s. induction actions as [|a actions IH]; intros s Hs; [done|].
  cbn. apply IH. by apply step_entries_invariant.
Qed.

(** X16: the request map does not leak.  In every state a connection
    reaches, every entry is filed under its own id and belongs to an armed
    timer that is due within a minute and holds the [dispose] of the
    entry; once that timer has run, the entry is gone. *)
Theorem entries_have_armed_timers (keys symKey : string) (peers0 : Peers)
    (actions : list Action) (k : Z) (request : RelayedRequest) :
  let s := run (new keys symKey peers0) actions in
  requestMap s !! k = Some request →
  id request = k
  ∧ ∃ t timer,
      timers s !! t = Some (Some timer)
      ∧ callback timer = request_dispose request
      ∧ dispose_id (callback timer) = k
      ∧ dispose_timeout (callback timer) = t
      ∧ (deadline timer ≤ now s + 60000)%Z
      ∧ requestMap (run s [Elapse 60000; Timeout t]) !! k = None.
Proof.
  intros s Hk.
  assert (entries_invariant s) as [Ht Hm].
  { apply run_entries_invariant. split; intros *; cbn; by rewrite ?lookup_nil, ?lookup_empty. }
  clearbody s.
  destruct (Hm _ _ Hk) as (Hid & Hdk & _ & timer & Htm & Hcb).
  destruct (Ht _ _ Htm) as [Hown Hdue].
  split; [done|]. exists (dispose_timeout (request_dispose request)), timer.
  split_and!; try done; try congruence.
  unfold run. cbn [foldl step].
  destruct (timeout_removes_entry (set_now (now s + Z.of_N 60000) s)
              (dispose_timeout (request_dispose request)) timer) as [Hgone _];
    [done|congruence|cbn; lia|].
  by rewrite Hcb, Hdk in Hgone.
Qed.

Lemma entries_have_armed_timers_witness :
  let s := run (new "pk-alice" "K" alice)
             [OnRequest "echo" echo; OnDisconnect 0; Ready;
              SendRequest "echo" "bob" ["hi"]; Resume 0; Resume 0] in
  let request := {| id := 1; response := 0;
                    request_dispose := {| dispose_id := 1; dispose_timeout := 0;
                                          dispose_deferred := 0 |} |} in
  id request = 1%Z
  ∧ ∃ t timer,
      timers s !! t = Some (Some timer)
      ∧ callback timer = request_dispose request
      ∧ dispose_id (callback timer) = 1%Z
      ∧ dispose_timeout (callback timer) = t
      ∧ (deadline timer ≤ now s + 60000)%Z
      ∧ requestMap (run s [Elapse 60000; Timeout t]) !! 1%Z = None.
Proof.
  apply (entries_have_armed_timers "pk-alice" "K" alice
           [OnRequest "echo" echo; OnDisconnect 0; Ready;
            SendRequest "echo" "bob" ["hi"]; Resume 0; Resume 0] 1).
  vm_compute. reflexivity.
Defined.

Lemma step_unregistered_invariant (s : State) (a : Action) :
  a ≠ Ready → unregistered_invariant s → unregistered_invariant (step s a).
Proof.
  intros Ha (Hr & Hid & Hm & Hd & Hti & Hta).
  assert (_ready (step s a) = false) as Hr'.
  { destruct a; try done; run_methods; frame_cleanupCaches; done. }
  assert (requestId (step s a) = 1%Z) as Hid'.
  { pose proof (allocates_registers s a) as Hal.
    destruct (allocates s a) eqn:Heq; [|congruence].
    destruct a; try done. cbn in Heq.
    destruct (tasks s !! task) as [[[]|]|]; try done. by rewrite Hr in Heq. }
  assert (requestMap (step s a) = ∅ ∧ deferreds (step s a) = [] ∧ timers (step s a) = [])
    as (Hm' & Hd' & Hti').
  { destruct (step_request_effect s a)
      as [Hd' Hti' Hrm|i ty ta ps _ _ Hr1 _ _ _|i t r v _ Hi Hreq _ _ _ _|t tm _ Harmed _ _ _ _].
    - by rewrite Hd', Hti', Hrm.
    - congruence.
    - specialize (Hta _ _ Hi). congruence.
    - by rewrite Hti, lookup_nil in Harmed. }
  split_and!; try done.
  intros j t Hj. destruct (task_request t) as [r|] eqn:Hreq; [|done].
  destruct (step_task_request s a j t r Hj Hreq) as [Ho|(data & _ & _ & Ho)].
  - specialize (Hta _ _ Ho). congruence.
  - by rewrite Hm, lookup_empty in Ho.
Qed.

(** X17: before [ready()] no request is registered.  However many
    [sendRequest] calls have been made and whatever has arrived, the
    counter is still 1 and there is no entry, no deferred and no timer:
    the calls wait at the barrier, and an inbound response finds nothing
    to settle. *)
Theorem nothing_registered_before_ready (keys symKey : string) (peers0 : Peers)
    (actions : list Action) :
  Ready ∉ actions →
  let s := run (new keys symKey peers0) actions in
  requestId s = 1%Z ∧ requestMap s = ∅ ∧ deferreds s = [] ∧ timers s = [].
Proof.
  intros Hno. cbn zeta.
  assert (∀ s, unregistered_invariant s → unregistered_invariant (run s actions)) as Hrun.
  { induction actions as [|a actions IH]; intros s Hs; [done|].
    cbn. apply IH; [set_solver|]. apply step_unregistered_invariant; [set_solver|done]. }
  destruct (Hrun (new keys symKey peers0)) as (_ & ? & ? & ? & ? & _); [|done].
  split_and!; try done; intros j t; cbn; by rewrite lookup_nil.
Qed.

Lemma nothing_registered_before_ready_witness :
  let s := run (new "pk-alice" "K" alice)
             [SendRequest "echo" "bob" ["hi"]; Resume 0;
              TransportRead (response_from_bob 1 "hi"); Resume 1; Timeout 0] in
  requestId s = 1%Z ∧ requestMap s = ∅ ∧ deferreds s = [] ∧ timers s = [].
Proof.
  apply (nothing_registered_before_ready "pk-alice" "K" alice).
  intros H. repeat (apply elem_of_cons in H as [H|H]; [discriminate H|]).
  by apply not_elem_of_nil in H.
Defined.

(** X18: the first outcome of a request is final.  Once its deferred is
    resolved or rejected, nothing that happens to the connection changes
    it: not a second response or a response error for the same id, not a
    message that fails to decrypt, not the timer of the request. *)
Theorem settlement_is_final (s : State) (actions : list Action) (d : nat)
    (outcome : DeferredState) :
  deferreds s !! d = Some outcome → outcome ≠ Pending →
  deferreds (run s actions) !! d = Some outcome.
Proof.
  revert s. induction actions as [|a actions IH]; intros s Hd Ho; [done|].
  cbn. apply IH; [|done]. by apply step_settled.
Qed.

Lemma settlement_is_final_witness :
  let s := run alice_waiting [TransportRead (response_from_bob 1 "hi"); Resume 1] in
  deferreds
    (run s [TransportRead (response_from_bob 1 "late"); Resume 2;
            TransportRead (forged_response 1 "hi"); Resume 3; Elapse 60000; Timeout 0])
    !! 0
  = Some (Resolved "hi").
Proof.
  apply (settlement_is_final
           (run alice_waiting [TransportRead (response_from_bob 1 "hi"); Resume 1])).
  - vm_compute. reflexivity.
  - discriminate.
Defined.

(** ** The caches across a change of the peers *)

(** What [Encryption.encrypt] seals: one asymmetric operation for each
    recipient without a cached wrap, none for the others, whose wraps the
    message takes from the cache. *)
Lemma encryptSymmetricKey_foldl_sealed (publicKeys : list string) (s : State) :
  ∃ cache sealed,
    foldl encryptSymmetricKey s publicKeys
    = set_trace (trace s ++ (Sealed <$> sealed)) (set_encryptionKeyCache cache s)
    ∧ encryptionKeyCache s ⊆ cache
    ∧ NoDup sealed
    ∧ (∀ k, k ∈ sealed ↔ k ∈ publicKeys ∧ encryptionKeyCache s !! k = None).
Proof.
  revert s. induction publicKeys as [|k ks IH]; intros s.
  - exists (encryptionKeyCache s), []. cbn [foldl fmap list_fmap].
    rewrite set_trace_set_encryptionKeyCache_id.
    split_and!; [done|done|constructor|]. intros k. rewrite !elem_of_nil. tauto.
  - cbn [foldl].
    destruct (IH (encryptSymmetricKey s k)) as (c & sealed & -> & Hsub & Hnd & Hiff).
    unfold encryptSymmetricKey in *.
    destruct (encryptionKeyCache s !! k) as [w|] eqn:Hk.
    + exists c, sealed. split_and!; try done.
      intros k'. rewrite Hiff, elem_of_cons. split; [tauto|].
      intros [[->|?] ?]; [congruence|done].
    + cbn in *. exists c, (k :: sealed). split_and!.
      * cbn. by rewrite <- app_assoc.
      * etrans; [|exact Hsub]. by apply insert_subseteq.
      * constructor; [|done]. rewrite Hiff, lookup_insert_eq. by intros [_ ?].
      * intros k'. rewrite elem_of_cons, Hiff, elem_of_cons.
        destruct (decide (k' = k)) as [->|Hne].
        -- rewrite lookup_insert_eq. intuition congruence.
        -- rewrite lookup_insert_ne by done. intuition congruence.
Qed.

Lemma encrypt_sealed (message : Message) (publicKeys : list string) (s : State) :
  publicKeys ≠ [] →
  ∃ cache sealed encrypted,
    encrypt message publicKeys s
    = (Ok encrypted,
       set_trace (trace s ++ (Sealed <$> sealed)) (set_encryptionKeyCache cache s))
    ∧ encryptionKeyCache s ⊆ cache
    ∧ NoDup sealed
    ∧ (∀ k, k ∈ sealed ↔ k ∈ publicKeys ∧ encryptionKeyCache s !! k = None)
    ∧ bin_content encrypted = message
    ∧ (bin_keys encrypted).*1 = publicKeys
    ∧ (∀ k wrap, k ∈ publicKeys → encryptionKeyCache s !! k = Some wrap →
         (k, wrap) ∈ bin_keys encrypted).
Proof.
  intros Hne. unfold encrypt. destruct publicKeys as [|k0 ks]; [done|].
  destruct (encryptSymmetricKey_foldl_sealed (k0 :: ks) s)
    as (c & sealed & Hf & Hsub & Hnd & Hiff).
  rewrite Hf. eexists c, sealed, _. split; [done|]. split_and!; try done.
  - cbn. f_equal. rewrite <- list_fmap_compose. by rewrite list_fmap_id.
  - intros k w Hin Hk. cbn [bin_keys encryptionKeyCache set_trace set_encryptionKeyCache].
    change (map ?f ?l) with (f <$> l).
    apply list_elem_of_fmap. exists k. split; [|done].
    by rewrite (lookup_weaken _ _ _ _ Hk Hsub).
Qed.

Lemma peers_change_resumes (s : State) (peers' : Peers) (a : Action) (t : Task) :
  step (set_peers peers' s) a = call (set_peers peers' s, Some t) →
  run s [PeersChange peers'; a; Resume (length (tasks s)); Resume (length (tasks s))]
  = set_tasks (tasks s ++ [(resumes 2 (Some t) (set_peers peers' s)).2])
      (resumes 2 (Some t) (set_peers peers' s)).1.
Proof. intros Ha. exact (call_resumes (set_peers peers' s) a t 2 Ha). Qed.

(** A send after a change of the peers, from the call to the write: the
    asymmetric operations are those for the recipients without a cached
    wrap. *)
Lemma send_after_peer_change (s : State) (peers' : Peers) (a : Action)
    (publicKeys : list string) :
  _ready s = true →
  recipients peers' a = Some publicKeys →
  publicKeys ≠ [] →
  let i := length (tasks s) in
  let s' := run s [PeersChange peers'; a; Resume i; Resume i] in
  ∃ sealed encrypted,
    trace s' = trace s ++ (Sealed <$> sealed) ++ [Write encrypted]
    ∧ NoDup sealed
    ∧ (∀ k, k ∈ sealed ↔ k ∈ publicKeys ∧ encryptionKeyCache s !! k = None)
    ∧ (bin_keys encrypted).*1 = publicKeys
    ∧ (∀ k wrap, k ∈ publicKeys → encryptionKeyCache s !! k = Some wrap →
         (k, wrap) ∈ bin_keys encrypted)
    ∧ encryptionKeyCache s ⊆ encryptionKeyCache s'
    ∧ decryptionKeyCache s' = decryptionKeyCache s.
Proof.
  intros Hready Hrec Hne i s'. subst i s'.
  destruct a; try done; cbn in Hrec.
  - (* sendRequest *)
    destruct (getPublicKey peers' target) as [publicKey|] eqn:Hkey; [|done].
    injection Hrec as <-.
    rewrite (peers_change_resumes s peers' (SendRequest type target parameters)
               (sendRequest_ready type target parameters) eq_refl).
    rewrite resumes_S by done.
    destruct (continue _ (set_peers peers' s)) as [s2 t2] eqn:E.
    unfold continue, sendRequest_resumed in E. cbn in E. rewrite Hkey in E.
    match type of E with
    | context [encrypt ?m ?ks ?u] =>
        destruct (encrypt_sealed m ks u Hne)
          as (c & sealed & e & He & Hsub & Hnd & Hiff & _ & Hk & Hw)
    end.
    rewrite He in E. injection E as <- <-. cbn [fst snd].
    rewrite resumes_S by done. cbn [resumes continue sendRequest_encrypted fst snd].
    exists sealed, e. unfold write, emit. cbn. rewrite <- app_assoc. by split_and!.
  - (* sendNotification *)
    destruct (getPublicKey peers' target) as [publicKey|] eqn:Hkey; [|done].
    injection Hrec as <-.
    rewrite (peers_change_resumes s peers' (SendNotification type target parameters)
               (sendNotification_ready type target parameters) eq_refl).
    rewrite resumes_S by done.
    destruct (continue _ (set_peers peers' s)) as [s2 t2] eqn:E.
    unfold continue, sendNotification_resumed in E. cbn in E. rewrite Hkey in E.
    match type of E with
    | context [encrypt ?m ?ks ?u] =>
        destruct (encrypt_sealed m ks u Hne)
          as (c & sealed & e & He & Hsub & Hnd & Hiff & _ & Hk & Hw)
    end.
    rewrite He in E. injection E as <- <-. cbn [fst snd].
    rewrite resumes_S by done. cbn [resumes continue sendNotification_encrypted fst snd].
    exists sealed, e. unfold write, emit. cbn. rewrite <- app_assoc. by split_and!.
  - (* sendBroadcast *)
    injection Hrec as <-.
    rewrite (peers_change_resumes s peers' (SendBroadcast type parameters)
               (sendBroadcast_ready type parameters) eq_refl).
    rewrite resumes_S by done.
    destruct (continue _ (set_peers peers' s)) as [s2 t2] eqn:E.
    unfold continue, sendBroadcast_resumed in E. cbn in E.
    destruct (decide (0 < length (getPublicKeys peers'))) as [_|Hlen];
      [|destruct (getPublicKeys peers'); [done|cbn in Hlen; lia]].
    match type of E with
    | context [encrypt ?m ?ks ?u] =>
        destruct (encrypt_sealed m ks u Hne)
          as (c & sealed & e & He & Hsub & Hnd & Hiff & _ & Hk & Hw)
    end.
    rewrite He in E. injection E as <- <-. cbn [fst snd].
    rewrite resumes_S by done. cbn [resumes continue sendBroadcast_encrypted fst snd].
    exists sealed, e. unfold write, emit. cbn. rewrite <- app_assoc. by split_and!.
Qed.

(** C2, as the code has it: a change of the peers the subclass knows
    leaves both caches exactly as they were.  Whatever happens to the
    connection, a cache keeps all its entries unless an inbound message
    arrives while the cache holds more than [getPublicKeysLength() + 50]
    entries.  A send for a recipient whose wrap is cached takes the wrap
    from the cache and seals nothing: every call of [Encryption.encrypt]
    seals once for each recipient without a cached wrap and for no other,
    and the message carries the cached wrap of every other recipient.  So
    the next send after a change of the peers, be it a request, a
    notification or a broadcast, run from the call to the write, seals
    for exactly the recipients that were not in the cache before the
    change and takes the wraps of the others from the cache. *)
Theorem caches_outlive_peer_changes (s : State) :
  (∀ peers',
     encryptionKeyCache (step s (PeersChange peers')) = encryptionKeyCache s
     ∧ decryptionKeyCache (step s (PeersChange peers')) = decryptionKeyCache s)
  ∧ (∀ a,
       encryptionKeyCache s ⊆ encryptionKeyCache (step s a)
       ∨ (∃ data, a = TransportRead data)
         ∧ getPublicKeysLength (peers s) + maxCacheSize s < size (encryptionKeyCache s))
  ∧ (∀ a,
       decryptionKeyCache s ⊆ decryptionKeyCache (step s a)
       ∨ (∃ data, a = TransportRead data)
         ∧ getPublicKeysLength (peers s) + maxCacheSize s < size (decryptionKeyCache s))
  ∧ (∀ publicKey wrap,
       encryptionKeyCache s !! publicKey = Some wrap → encryptSymmetricKey s publicKey = s)
  ∧ (∀ message publicKeys,
       publicKeys ≠ [] →
       ∃ sealed encrypted,
         (encrypt message publicKeys s).1 = Ok encrypted
         ∧ trace (encrypt message publicKeys s).2 = trace s ++ (Sealed <$> sealed)
         ∧ NoDup sealed
         ∧ (∀ k, k ∈ sealed ↔ k ∈ publicKeys ∧ encryptionKeyCache s !! k = None)
         ∧ (bin_keys encrypted).*1 = publicKeys
         ∧ (∀ k wrap, k ∈ publicKeys → encryptionKeyCache s !! k = Some wrap →
              (k, wrap) ∈ bin_keys encrypted)
         ∧ encryptionKeyCache s ⊆ encryptionKeyCache (encrypt message publicKeys s).2)
  ∧ (∀ peers' a publicKeys,
       _ready s = true →
       recipients peers' a = Some publicKeys →
       publicKeys ≠ [] →
       let i := length (tasks s) in
       let s' := run s [PeersChange peers'; a; Resume i; Resume i] in
       ∃ sealed encrypted,
         trace s' = trace s ++ (Sealed <$> sealed) ++ [Write encrypted]
         ∧ NoDup sealed
         ∧ (∀ k, k ∈ sealed ↔ k ∈ publicKeys ∧ encryptionKeyCache s !! k = None)
         ∧ (bin_keys encrypted).*1 = publicKeys
         ∧ (∀ k wrap, k ∈ publicKeys → encryptionKeyCache s !! k = Some wrap →
              (k, wrap) ∈ bin_keys encrypted)
         ∧ encryptionKeyCache s ⊆ encryptionKeyCache s'
         ∧ decryptionKeyCache s' = decryptionKeyCache s).
Proof.
  split_and!.
  - done.
  - intros a. apply step_caches.
  - intros a. apply step_caches.
  - intros k w Hk. unfold encryptSymmetricKey. by rewrite Hk.
  - intros message publicKeys Hne.
    destruct (encrypt_sealed message publicKeys s Hne)
      as (c & sealed & e & -> & Hsub & Hnd & Hiff & _ & Hk & Hw).
    exists sealed, e. by split_and!.
  - intros peers' a publicKeys. apply send_after_peer_change.
Qed.

Lemma caches_outlive_peer_changes_witness :
  let s' := run host_of_three
              [PeersChange (room four); SendBroadcast "note" ["y"];
               Resume (length (tasks host_of_three)); Resume (length (tasks host_of_three))] in
  ∃ sealed encrypted,
    trace s' = trace host_of_three ++ (Sealed <$> sealed) ++ [Write encrypted]
    ∧ NoDup sealed
    ∧ (∀ k, k ∈ sealed ↔ k ∈ four ∧ encryptionKeyCache host_of_three !! k = None)
    ∧ (bin_keys encrypted).*1 = four
    ∧ (∀ k wrap, k ∈ four → encryptionKeyCache host_of_three !! k = Some wrap →
         (k, wrap) ∈ bin_keys encrypted)
    ∧ encryptionKeyCache host_of_three ⊆ encryptionKeyCache s'
    ∧ decryptionKeyCache s' = decryptionKeyCache host_of_three.
Proof.
  apply (caches_outlive_peer_changes host_of_three) with (a := SendBroadcast "note" ["y"]).
  - vm_compute. reflexivity.
  - reflexivity.
  - discriminate.
Defined.

(** ** Request ids, as filed and as sent *)

(** The request an action files is filed under the value the counter had:
    what [allocates] reads from the counter is what the effect shows. *)
Lemma files_allocates (s : State) (a : Action) : files s a = allocates s a.
Proof.
  unfold files.
  destruct (allocates s a) as [k|] eqn:Hal.
  - destruct a; try done. cbn in Hal.
    destruct (tasks s !! task) as [[[]|]|] eqn:Ht; try done.
    destruct (_ready s) eqn:Hr; [|done]. injection Hal as <-.
    destruct (sendRequest_registers s task _ _ _ Ht Hr) as (_ & _ & Hti & _).
    cbn [step]. rewrite Hti, length_app, last_snoc. cbn.
    case_decide; [done|lia].
  - destruct (step_counts s a) as [(_ & _ & Hid)|(_ & Hti & _)].
    + pose proof (allocates_registers s a) as Ha. rewrite Hal in Ha.
      case_decide; [|done].
      destruct (step_request_effect s a)
        as [_ Hti _|i ty ta ps -> Hi Hr _ _ _|i t r v _ _ _ _ _ Hti _|t tm _ _ _ _ Hti _].
      * rewrite Hti in *. lia.
      * cbn in Hal. by rewrite Hi, Hr in Hal.
      * rewrite Hti in *. lia.
      * rewrite Hti, !length_insert in *. lia.
    + case_decide; [lia|done].
Qed.

Lemma filed_allocated (actions : list Action) (s : State) :
  filed s actions = allocated s actions.
Proof.
  revert s. induction actions as [|a actions IH]; intros s; [done|].
  cbn. by rewrite files_allocates, IH.
Qed.

Lemma run_requestId (actions : list Action) (s : State) :
  (requestId (run s actions) ≤ requestId s + Z.of_nat (length actions))%Z.
Proof.
  revert s. induction actions as [|a actions IH]; intros s; [cbn; lia|].
  cbn [run foldl length]. specialize (IH (step s a)). unfold run in IH.
  pose proof (allocates_registers s a) as Ha.
  assert (requestId (step s a) ≤ requestId s + 1)%Z.
  { destruct (allocates s a); [|lia]. destruct Ha as (_ & -> & _).
    unfold increment. case_match; lia. }
  lia.
Qed.

Lemma omap_insert_Permutation {A B} (f : A → option B) (l : list A) (i : nat) (x y : A) :
  l !! i = Some x →
  option_list (f x) ++ omap f (<[i := y]> l) ≡ₚ option_list (f y) ++ omap f l.
Proof.
  intros Hi.
  assert (∀ z rest, omap f (z :: rest) = option_list (f z) ++ omap f rest) as Hcons.
  { intros z rest. cbn. by destruct (f z). }
  rewrite <- (take_drop_middle l i x Hi) at 2.
  rewrite (insert_take_drop l i y) by (by eapply lookup_lt_Some).
  rewrite !omap_app, !Hcons. solve_Permutation.
Qed.

(** What a resumed task does to the ids on the wire and to the counter. *)
Lemma continue_wire (t : Task) (s : State) :
  no_request (Some t) →
  wire_ids (continue t s).1 = wire_ids s ++ option_list (pending_id (Some t))
  ∧ no_request (continue t s).2
  ∧ match pending_id (continue t s).2 with
    | Some id =>
        id = requestId s
        ∧ requestId (continue t s).1 = increment (requestId s)
        ∧ pending_id (Some t) = None
    | None =>
        requestId (continue t s).1 = requestId s
        ∨ requestId (continue t s).1 = increment (requestId s)
    end.
Proof.
  unfold wire_ids, written, no_request, pending_id, request_id. intros Ht.
  destruct t; run_methods; rewrite ?omap_app, ?omap_fired; cbn;
    repeat match goal with
    | H : Forall is_seal _ |- _ => rewrite (omap_is_seal _ H); clear H
    end;
    cbn; rewrite ?app_nil_r; destruct_and?; simplify_eq; cbn;
    repeat match goal with
    | H : bin_content _ = _ |- _ => rewrite H in *
    end;
    cbn; rewrite ?app_nil_r; split_and?; auto.
Qed.

Lemma wire_invariant_frame (s s' : State) :
  wire_ids s' = wire_ids s →
  requestId s' = requestId s →
  (tasks s' = tasks s
   ∨ ∃ t, tasks s' = tasks s ++ [t] ∧ pending_id t = None ∧ no_request t) →
  wire_invariant s → wire_invariant s'.
Proof.
  intros Hw Hid Ht (Hnd & Hlt & Hno). unfold wire_invariant. rewrite Hw, Hid.
  destruct Ht as [->|(t & -> & Hp & Hn)]; [done|].
  rewrite omap_app. cbn. rewrite Hp. cbn. rewrite app_nil_r.
  split_and!; try done. apply Forall_app. split; [done|by constructor].
Qed.

Lemma step_wire_invariant (s : State) (a : Action) :
  (requestId s < 2 ^ 53)%Z → wire_invariant s → wire_invariant (step s a).
Proof.
  intros Hbound Hs.
  destruct a;
    try (apply (wire_invariant_frame s); [..|done];
         unfold wire_ids, written; run_methods; frame_cleanupCaches;
         rewrite ?omap_app, ?omap_fired; cbn;
         repeat match goal with
         | H : Forall is_seal _ |- _ => rewrite (omap_is_seal _ H); clear H
         end;
         cbn; rewrite ?app_nil_r; first [done | by left | right; by eexists]).
  (* Resume *)
  destruct Hs as (Hnd & Hlt & Hno).
  cbn. unfold resume.
  destruct (tasks s !! task) as [[t|]|] eqn:Hi; try done.
  destruct (runnable s t) eqn:Hrun; try done.
  assert (no_request (Some t)) as Hnt by (by eapply (Forall_lookup_1 _ _ _ _ Hno Hi)).
  destruct (continue_wire t s Hnt) as (Hw & Hnt' & Hp).
  destruct (continue_task_request t s) as [_ Htasks].
  pose proof (omap_insert_Permutation pending_id (tasks s) task (Some t) (continue t s).2 Hi)
    as Hperm.
  unfold wire_invariant. cbn [tasks set_tasks requestId].
  change (wire_ids (set_tasks ?T ?u)) with (wire_ids u).
  rewrite Htasks, Hw.
  assert ((wire_ids s ++ option_list (pending_id (Some t)))
            ++ omap pending_id (<[task := (continue t s).2]> (tasks s))
          ≡ₚ option_list (pending_id (continue t s).2)
             ++ wire_ids s ++ omap pending_id (tasks s)) as Hall.
  { rewrite <- app_assoc, Hperm. solve_Permutation. }
  rewrite Hall. split_and!; [| |by apply Forall_insert].
  - destruct (pending_id (continue t s).2) as [k|]; [|done].
    destruct Hp as (-> & _ & _). cbn. constructor; [|done].
    intros Hin. apply (proj1 (Forall_forall _ _) Hlt) in Hin. lia.
  - destruct (pending_id (continue t s).2) as [k|]; cbn.
    + destruct Hp as (-> & -> & _). unfold increment. case_match; [|lia].
      constructor; [lia|]. eapply Forall_impl; [exact Hlt|]. cbn. lia.
    + eapply Forall_impl; [exact Hlt|]. cbn. intros k Hk.
      pose proof (increment_ge (requestId s)). destruct Hp as [->| ->]; lia.
Qed.

Lemma run_wire_invariant (actions : list Action) (s : State) :
  (requestId s + Z.of_nat (length actions) ≤ 2 ^ 53)%Z →
  wire_invariant s → wire_invariant (run s actions).
Proof.
  revert s. induction actions as [|a actions IH]; intros s Hbound Hs; [done|].
  cbn [length] in Hbound. cbn. apply IH.
  - pose proof (run_requestId [a] s) as Hone. cbn in Hone. lia.
  - apply step_wire_invariant; [lia|done].
Qed.

(** The action that files a request is the resumption of a [sendRequest]
    that waited for [ready]; the id is the key of the entry, the id of the
    entry and of its [dispose], and the id of the request message the
    call goes on to encrypt. *)
Lemma files_registers (s : State) (a : Action) (k : Z) :
  files s a = Some k →
  k = requestId s
  ∧ ∃ i type target parameters,
      a = Resume i
      ∧ tasks s !! i = Some (Some (sendRequest_ready type target parameters))
      ∧ _ready s = true
      ∧ requestMap (step s a) !! k
        = Some {| id := k; response := length (deferreds s);
                  request_dispose := {| dispose_id := k;
                                        dispose_timeout := length (timers s);
                                        dispose_deferred := length (deferreds s) |} |}
      ∧ ((∃ error, getPublicKey (peers s) target = Err error
                   ∧ tasks (step s a) !! i = Some None)
         ∨ (∃ message,
              tasks (step s a) !! i
              = Some (Some (sendRequest_encrypt (length (deferreds s)) (Ok message)))
              ∧ bin_content message = RequestMessage type k EmptyString target parameters)).
Proof.
  rewrite files_allocates. unfold allocates.
  destruct a; try done.
  destruct (tasks s !! task) as [[[]|]|] eqn:Ht; try done.
  destruct (_ready s) eqn:Hr; [|done]. intros [= <-]. split; [done|].
  exists task, type, target, parameters. split_and!; try done.
  - cbn [step]. apply (sendRequest_registers s task _ _ _ Ht Hr).
  - assert (task < length (tasks s)) as Hlen by (by eapply lookup_lt_Some).
    cbn [step]. erewrite resume_continue by done.
    unfold continue, sendRequest_resumed. cbn.
    destruct (getPublicKey (peers s) target) as [publicKey|error] eqn:Hkey.
    + right. crypto. cbn. rewrite list_lookup_insert_eq by done.
      match goal with
      | H : match ?o with Ok _ => _ | Err _ => _ end |- _ =>
          destruct o; [destruct H as (_ & ? & _) | by destruct H]
      end.
      by eexists.
    + left. exists error. cbn. by rewrite list_lookup_insert_eq.
Qed.

Lemma new_entries_invariant (keys symKey : string) (peers0 : Peers) :
  entries_invariant (new keys symKey peers0).
Proof. split; intros *; cbn; by rewrite ?lookup_nil, ?lookup_empty. Qed.

(** While the counter counts exactly, the value it has is not a key of
    the request map. *)
Lemma requestId_is_fresh (keys symKey : string) (peers0 : Peers) (actions : list Action) :
  let s := run (new keys symKey peers0) actions in
  (requestId s < 2 ^ 53)%Z → requestMap s !! requestId s = None.
Proof.
  intros s Hbound.
  assert (entries_invariant s) as [_ Hm].
  { apply run_entries_invariant, new_entries_invariant. }
  assert (ids_below_counter s) as Hbelow.
  { apply run_ids_below_counter. intros _ t timer. cbn. by rewrite lookup_nil. }
  destruct (requestMap s !! requestId s) as [r|] eqn:Hr; [|done].
  destruct (Hm _ _ Hr) as (_ & Hid & _ & timer & Htm & Hcb).
  specialize (Hbelow Hbound _ _ Htm). rewrite Hcb, Hid in Hbelow. lia.
Qed.

(** C8: in a run of a connection, whatever the interleaving of calls,
    resumed tasks, inbound messages and timers, every [sendRequest] that
    gets past [ready] files its request under an id that is strictly
    greater than every id a request was filed under before.  The id is
    read off what the call does: it is the key of the new entry of the
    request map, which no entry had, the id of that entry and of its
    [dispose], and the id of the request message the call encrypts; and
    no two request messages the run hands to the transport carry the same
    id.  The run is shorter than [2^53] actions, the range in which the
    counter, a JavaScript number, counts exactly. *)
Theorem request_ids_strictly_increase (keys symKey : string) (peers0 : Peers)
    (actions : list Action) :
  (Z.of_nat (length actions) < 2 ^ 53)%Z →
  let s0 := new keys symKey peers0 in
  StronglySorted Z.lt (filed s0 actions)
  ∧ NoDup (wire_ids (run s0 actions))
  ∧ ∀ before a after,
      actions = before ++ a :: after →
      let s := run s0 before in
      (∀ i type target parameters,
         a = Resume i →
         tasks s !! i = Some (Some (sendRequest_ready type target parameters)) →
         _ready s = true →
         is_Some (files s a))
      ∧ ∀ k,
          files s a = Some k →
          requestMap s !! k = None
          ∧ ∃ i type target parameters,
              a = Resume i
              ∧ tasks s !! i = Some (Some (sendRequest_ready type target parameters))
              ∧ requestMap (step s a) !! k
                = Some {| id := k; response := length (deferreds s);
                          request_dispose := {| dispose_id := k;
                                                dispose_timeout := length (timers s);
                                                dispose_deferred := length (deferreds s) |} |}
              ∧ ((∃ error, getPublicKey (peers s) target = Err error
                           ∧ tasks (step s a) !! i = Some None)
                 ∨ (∃ message,
                      tasks (step s a) !! i
                      = Some (Some (sendRequest_encrypt (length (deferreds s)) (Ok message)))
                      ∧ bin_content message
                        = RequestMessage type k EmptyString target parameters)).
Proof.
  intros Hlen s0. split_and!.
  - rewrite filed_allocated. apply allocated_sorted. cbn. lia.
  - assert (wire_invariant (run s0 actions)) as (Hnd & _).
    { apply run_wire_invariant; [cbn; lia|]. split_and!; cbn; constructor. }
    by apply NoDup_app in Hnd as (? & _).
  - intros before a after -> s. split.
    + intros i type target parameters -> Ht Hr.
      rewrite files_allocates. cbn. rewrite Ht, Hr. by eexists.
    + intros k Hk.
      destruct (files_registers s a k Hk) as (-> & i & ty & ta & ps & Ha & Ht & _ & Hm & Hw).
      split; [|by exists i, ty, ta, ps].
      apply (requestId_is_fresh keys symKey peers0 before).
      pose proof (run_requestId before s0) as Hle.
      change (requestId s0) with 1%Z in Hle.
      rewrite length_app in Hlen. cbn [length] in Hlen. unfold s, s0 in *. lia.
Qed.

Lemma request_ids_strictly_increase_witness :
  (filed (new "pk-alice" "K" alice) three_callers = [1; 2; 3]%Z
   ∧ wire_ids (run (new "pk-alice" "K" alice) three_callers) = [1; 2; 3]%Z)
  ∧ StronglySorted Z.lt (filed (new "pk-alice" "K" alice) three_callers)
  ∧ NoDup (wire_ids (run (new "pk-alice" "K" alice) three_callers)).
Proof.
  split; [split; vm_compute; reflexivity|].
  destruct (request_ids_strictly_increase "pk-alice" "K" alice three_callers)
    as (Hsorted & Hwire & _).
  - reflexivity.
  - split; assumption.
Defined.

(** ** Protocol paths and resources *)

Lemma String_append_cons (c : Ascii.ascii) (s t : string) :
  String c s +:+ t = String c (s +:+ t).
Proof. reflexivity. Qed.

Lemma String_append_nil (t : string) : EmptyString +:+ t = t.
Proof. reflexivity. Qed.

Lemma String_append_assoc (s t u : string) : (s +:+ t) +:+ u = s +:+ t +:+ u.
Proof.
  induction s as [|c s IH]; [done|].
  rewrite !String_append_cons. by rewrite IH.
Qed.

Lemma startsWith_substring (s searchString : string) :
  startsWith s searchString = true →
  s = searchString +:+ substring (String.length searchString) s.
Proof.
  unfold startsWith. revert s.
  induction searchString as [|c p IH]; intros s Hp; [done|].
  destruct s as [|c' s]; [done|]. cbn in *.
  destruct (Ascii.ascii_dec c c') as [->|]; [|done].
  rewrite String_append_cons. f_equal. by apply IH.
Qed.

Lemma String_split_cons (separator : Ascii.ascii) (s : string) :
  ∃ piece pieces, String_split separator s = piece :: pieces.
Proof.
  destruct s as [|c s]; cbn; [by eexists _, _|].
  destruct (Ascii.eqb c separator); [by eexists _, _|].
  destruct (String_split separator s); by eexists _, _.
Qed.

Lemma String_split_app (separator : Ascii.ascii) (first rest : string) :
  includes separator first = false →
  String_split separator (first +:+ String separator rest)
  = first :: String_split separator rest.
Proof.
  induction first as [|c first IH]; intros Hf.
  - rewrite String_append_nil. cbn. by rewrite Ascii.eqb_refl.
  - cbn in Hf. apply orb_false_iff in Hf as [Hc Hf].
    rewrite String_append_cons. cbn. rewrite Hc, (IH Hf). done.
Qed.

Lemma getProtocolPath_roots_Some (path' : string) (roots : list WorkspaceFolder) (p : string) :
  getProtocolPath_roots path' roots = Some p →
  ∃ root rest,
    root ∈ roots
    ∧ path' = path (uri root) +:+ "/" +:+ rest
    ∧ p = name root +:+ "/" +:+ rest.
Proof.
  induction roots as [|root roots IH]; [done|]. cbn.
  destruct (startsWith path' (path (uri root) +:+ "/")) eqn:Hs.
  - intros [= <-]. apply startsWith_substring in Hs.
    exists root, (substring (String.length (path (uri root) +:+ "/")) path').
    split_and!; [by left| |done].
    rewrite Hs at 1. by rewrite String_append_assoc.
  - intros (r & rest & ? & ? & ?)%IH. exists r, rest. split_and!; [by right|done..].
Qed.

Lemma list_find_name (roots : list WorkspaceFolder) (root : WorkspaceFolder) :
  NoDup (name <$> roots) → root ∈ roots →
  ∃ i, list_find (λ e, name e = name root) roots = Some (i, root).
Proof.
  intros Hnd Hin.
  destruct (list_find (λ e, name e = name root) roots) as [[i e]|] eqn:Hf.
  - apply list_find_Some in Hf as (Hi & He & _).
    apply list_elem_of_lookup in Hin as [j Hj].
    assert (i = j) as ->.
    { eapply NoDup_lookup; [exact Hnd|..]; rewrite list_lookup_fmap.
      - by rewrite Hi.
      - rewrite Hj. cbn. by rewrite He. }
    exists j. congruence.
  - apply list_find_None in Hf.
    by apply (proj1 (Forall_forall _ _) Hf) in Hin.
Qed.

(** X19: [getResourceUri] undoes [getProtocolPath].  In a workspace whose
    folders have different names without [/], a resource that has a
    protocol path lies below one of the folders, the path is the name of
    that folder, a [/] and the rest of the resource's path, and
    [getResourceUri] resolves it into that same folder: to the folder's
    URI with the segments of that rest joined to its path by [paths.join]
    and every backslash turned into [/]. *)
Theorem getResourceUri_undoes_getProtocolPath (join : string → list string → string)
    (workspaceFolders : option (list WorkspaceFolder)) (resource : Uri) (p : string) :
  let roots := default [] workspaceFolders in
  NoDup (name <$> roots) →
  (∀ root, root ∈ roots → includes slash (name root) = false) →
  getProtocolPath workspaceFolders (Some resource) = Some p →
  ∃ root rest,
    root ∈ roots
    ∧ path resource = path (uri root) +:+ "/" +:+ rest
    ∧ p = name root +:+ "/" +:+ rest
    ∧ getResourceUri join workspaceFolders (Some p)
      = Some (Uri_with (uri root)
                (replaceAll backslash slash (join (path (uri root)) (String_split slash rest)))).
Proof.
  intros roots Hnd Hname Hp. cbn in Hp. fold roots in Hp.
  apply getProtocolPath_roots_Some in Hp as (root & rest & Hin & Hpath & ->).
  exists root, rest. split_and!; try done.
  unfold getResourceUri. fold roots.
  destruct (name root +:+ "/" +:+ rest) as [|c q] eqn:Hq.
  { by destruct (name root). }
  rewrite <- Hq. change ("/" +:+ rest) with (String slash rest).
  rewrite (String_split_app slash (name root) rest) by auto. cbn [head tail default].
  unfold Datatypes.id. destruct (list_find_name roots root Hnd Hin) as [i ->]. done.
Qed.

Lemma getResourceUri_undoes_getProtocolPath_witness :
  let resource := {| scheme := "file"; authority := EmptyString;
                     path := "/home/alice/docs/notes/todo.md";
                     query := EmptyString; fragment := EmptyString |} in
  ∃ root rest,
    root ∈ default [] two_folders
    ∧ path resource = path (uri root) +:+ "/" +:+ rest
    ∧ "docs/notes/todo.md" = name root +:+ "/" +:+ rest
    ∧ getResourceUri join_segments two_folders (Some "docs/notes/todo.md")
      = Some (Uri_with (uri root)
                (replaceAll backslash slash
                   (join_segments (path (uri root)) (String_split slash rest)))).
Proof.
  apply (getResourceUri_undoes_getProtocolPath join_segments two_folders
           {| scheme := "file"; authority := EmptyString;
              path := "/home/alice/docs/notes/todo.md";
              query := EmptyString; fragment := EmptyString |} "docs/notes/todo.md").
  - simpl. compute_done.
  - simpl. intros root Hin. repeat (apply elem_of_cons in Hin as [->|Hin]; [reflexivity|]).
    by apply not_elem_of_nil in Hin.
  - vm_compute. reflexivity.
Defined.
